(** * NMRI command-line calculator: expression pipeline

    A shallow embedding of [nmri.c]: the tokenizer, the shunting-yard
    conversion, the postfix evaluator with its percentage rules, the variable
    store, the two evaluation entry points and the part of [main] that
    decides between commands, assignments and expressions.

    C [double] values are IEEE 754 binary64 numbers, represented by
    [spec_float] with precision 53 and maximal exponent 1024; the arithmetic
    of the C operators [+ - * /] and of [sqrt] is the correctly rounded one
    of [SpecFloat]: every operation is rounded to double precision on its
    own, to nearest with ties to even.  The other functions of <math.h> are
    taken as a parameter (record [libm]).  Text written to stderr and to the log file is
    not part of the model; each error message of the source is represented by
    one constructor of [Error]. *)

From Corelib Require Import SpecFloat.
From Stdlib Require Import ZArith Lia List String Ascii Bool Permutation.
Import ListNotations.

Local Open Scope string_scope.
Local Open Scope Z_scope.
Local Open Scope list_scope.

(** ** IEEE 754 binary64 *)

Module Double.

Definition double := spec_float.

Definition prec : Z := 53.
Definition emax : Z := 1024.

Definition add : double -> double -> double := SFadd prec emax.
Definition sub : double -> double -> double := SFsub prec emax.
Definition mul : double -> double -> double := SFmul prec emax.
Definition div : double -> double -> double := SFdiv prec emax.
Definition sqrt : double -> double := SFsqrt prec emax.
Definition fabs : double -> double := SFabs.

(** C comparisons: every comparison with a NaN is false. *)
Definition eqb : double -> double -> bool := SFeqb.
Definition ltb : double -> double -> bool := SFltb.
Definition leb : double -> double -> bool := SFleb.
Definition gtb (x y : double) : bool := SFltb y x.

Definition isnan (x : double) : bool :=
  match x with
  | S754_nan => true
  | _ => false
  end.

Definition NAN : double := S754_nan.
Definition INFINITY : double := S754_infinity false.
Definition zero : double := S754_zero false.

(** The double nearest to an integer (exact below 2^53). *)
Definition of_Z (n : Z) : double := binary_normalize prec emax n 0 false.

(** The double nearest to the rational [p / q], for [0 <= p] and [0 < q],
    ties to even: the quotient is computed with at least 54 significant
    bits and the position of the remainder decides the rounding. *)
Definition round_ratio (p q : Z) : double :=
  if p =? 0 then S754_zero false
  else
    let s := Z.max 0 (54 + Z.log2 q - Z.log2 p + 1) in
    let '(quo, r) := Z.div_eucl (Z.shiftl p s) q in
    binary_round_aux prec emax false quo (- s) (new_location q r).

(** Value of a decimal literal with digits [m] scaled by [10^k]. *)
Definition of_decimal (m k : Z) : double :=
  if 0 <=? k then round_ratio (m * 10 ^ k) 1 else round_ratio m (10 ^ (- k)).

(** Value of a hexadecimal literal with digits [m] scaled by [2^k]. *)
Definition of_binary (m k : Z) : double := binary_normalize prec emax m k false.

End Double.

Import Double.

(** ** <ctype.h> in the C locale *)

Definition char_code (c : ascii) : N := N_of_ascii c.

Definition in_range (lo hi : N) (c : ascii) : bool :=
  ((lo <=? char_code c) && (char_code c <=? hi))%N.

Definition isspace (c : ascii) : bool :=
  (char_code c =? 32)%N || in_range 9 13 c.

Definition isdigit (c : ascii) : bool := in_range 48 57 c.
Definition isupper (c : ascii) : bool := in_range 65 90 c.
Definition islower (c : ascii) : bool := in_range 97 122 c.
Definition isalpha (c : ascii) : bool := isupper c || islower c.
Definition isalnum (c : ascii) : bool := isalpha c || isdigit c.

Definition isxdigit (c : ascii) : bool :=
  isdigit c || in_range 65 70 c || in_range 97 102 c.

Definition is_char (a c : ascii) : bool := Ascii.eqb a c.

Definition digit_value (c : ascii) : Z := Z.of_N (char_code c) - 48.

Definition xdigit_value (c : ascii) : Z :=
  if isdigit c then Z.of_N (char_code c) - 48
  else if in_range 65 70 c then Z.of_N (char_code c) - 55
  else Z.of_N (char_code c) - 87.

(** Longest prefix whose characters satisfy [f], and what follows it. *)
Fixpoint span (f : ascii -> bool) (s : string) : string * string :=
  match s with
  | String c r =>
      if f c then let '(a, b) := span f r in (String c a, b) else (EmptyString, s)
  | EmptyString => (EmptyString, EmptyString)
  end.

Definition skip_spaces (s : string) : string := snd (span isspace s).

(** First character of a C string; reading the terminator gives NUL. *)
Definition peek (s : string) : ascii :=
  match s with
  | String c _ => c
  | EmptyString => Ascii.zero
  end.

(** ** strtod, as the tokenizer calls it

    The tokenizer hands [strtod] a text that starts with a digit, or with a
    dot followed by a digit: no white space or sign is skipped and the
    special forms [inf] and [nan] cannot occur.  The longest prefix of the
    form expected by C99 7.20.1.3 is converted with correct rounding; the
    result is the value and the unread rest of the text. *)

Module Strtod.

Definition digits_value (base : Z) (val : ascii -> Z) (s : string) (acc : Z) : Z :=
  fold_left (fun a c => a * base + val c) (list_ascii_of_string s) acc.

(** Optional exponent part: a marker, an optional sign and at least one
    decimal digit.  Without a digit nothing is consumed. *)
Definition exponent (lower upper : ascii) (s : string) : Z * string :=
  match s with
  | String c r =>
      if is_char c lower || is_char c upper then
        let '(neg, r1) :=
          match r with
          | String "-" r' => (true, r')
          | String "+" r' => (false, r')
          | _ => (false, r)
          end in
        let '(ds, r2) := span isdigit r1 in
        match ds with
        | EmptyString => (0, s)
        | _ =>
            let e := digits_value 10 digit_value ds 0 in
            ((if neg then - e else e), r2)
        end
      else (0, s)
  | EmptyString => (0, s)
  end.

(** Digits, optional radix point, digits. *)
Definition mantissa (isd : ascii -> bool) (s : string) : string * string * string :=
  let '(ip, r1) := span isd s in
  match r1 with
  | String "." r2 => let '(fp, r3) := span isd r2 in (ip, fp, r3)
  | _ => (ip, EmptyString, r1)
  end.

Definition decimal (s : string) : double * string :=
  let '(ip, fp, r) := mantissa isdigit s in
  let m := digits_value 10 digit_value fp (digits_value 10 digit_value ip 0) in
  let '(e, r') := exponent "e" "E" r in
  (of_decimal m (e - Z.of_nat (String.length fp)), r').

Definition hexadecimal (s : string) : option (double * string) :=
  let '(ip, fp, r) := mantissa isxdigit s in
  match ip, fp with
  | EmptyString, EmptyString => None
  | _, _ =>
      let m := digits_value 16 xdigit_value fp (digits_value 16 xdigit_value ip 0) in
      let '(e, r') := exponent "p" "P" r in
      Some (of_binary m (e - 4 * Z.of_nat (String.length fp)), r')
  end.

Definition strtod (s : string) : double * string :=
  match s with
  | String "0" (String x r) =>
      if is_char x "x" || is_char x "X" then
        match hexadecimal r with
        | Some res => res
        | None => (S754_zero false, String x r)
        end
      else decimal s
  | _ => decimal s
  end.

End Strtod.

(** Value of a C floating constant of the source. *)
Definition literal (s : string) : double := fst (Strtod.strtod s).

(** ** Configuration constants *)

Definition MAX_TOKENS : nat := 100.
Definition MAX_IDENTIFIER_LEN : nat := 32.
Definition MAX_VARIABLES : nat := 100.
Definition NMRI_MAX_INPUT : nat := 256.
Definition CMD_LINE_EXPR_BUFFER_SIZE : nat := NMRI_MAX_INPUT * 2.

(** ** Type definitions *)

Inductive OperatorType : Type :=
| OP_ADD | OP_SUB | OP_MUL | OP_DIV | OP_POW | OP_MOD.

Inductive FunctionType : Type :=
| FUNC_SIN | FUNC_COS | FUNC_TAN | FUNC_ASIN | FUNC_ACOS | FUNC_ATAN
| FUNC_LOG | FUNC_SQRT | FUNC_EXP | FUNC_ABS | FUNC_FLOOR | FUNC_CEIL
| FUNC_ROUND | FUNC_INVALID.

(** The C [Token] is a [type] tag, the [is_percentage] flag and a union; the
    flag is only ever set on numbers, so it is kept there. *)
Inductive Token : Type :=
| TOKEN_NUMBER (number : double) (is_percentage : bool)
| TOKEN_OPERATOR (op : OperatorType)
| TOKEN_FUNCTION (func : FunctionType)
| TOKEN_LPAREN
| TOKEN_RPAREN
| TOKEN_VARIABLE (var_name : string)
| TOKEN_ASSIGNMENT (var_name : string).

Record Value : Type := mkValue { num : double; is_percentage : bool }.

(** The C struct [Variable]. *)
Record Var : Type := mkVariable { name : string; value : double }.

(** One constructor per error message of the source, named after the kind of
    error it reports. *)
Inductive Error : Type :=
| TooComplex                          (* too many tokens *)
| TooComplexUnary                     (* token limit hit by a unary sign *)
| IdentifierTooLong
| UnknownIdentifier (id : string)
| InvalidNumber
| InvalidOperator (c : ascii)
| InvalidChar (c : ascii)
| OutputOverflow
| OperatorStackOverflow
| MismatchedRightParen
| MismatchedLeftParen
| InternalAssignment
| InternalVariable
| EvalStackOverflow
| InsufficientOperands (op : OperatorType)
| DivByZero
| ModByZero
| InsufficientArguments
| DomainError (func : FunctionType)
| UnknownFunction
| MalformedExpression (top : Z)
| InvalidName                         (* empty name, no message printed *)
| VariableStoreFull
| MissingExpression (var_name : string).

(** The globals of the calculator: the variable array (its first
    [variable_count] cells), the last result and the memory register. *)
Record Calc : Type := mkCalc {
  variables : list Var;
  last_result : double;
  memory : double
}.

Definition variable_count (st : Calc) : nat := List.length (variables st).

Definition initial_globals : Calc :=
  {| variables := []; last_result := Double.zero; memory := Double.zero |}.

(** Map of the recognised function names, in the order of the source. *)
Definition function_map : list (string * FunctionType) :=
  [ ("sin", FUNC_SIN); ("cos", FUNC_COS); ("tan", FUNC_TAN);
    ("asin", FUNC_ASIN); ("acos", FUNC_ACOS); ("atan", FUNC_ATAN);
    ("log", FUNC_LOG); ("ln", FUNC_LOG); ("sqrt", FUNC_SQRT);
    ("exp", FUNC_EXP); ("abs", FUNC_ABS); ("floor", FUNC_FLOOR);
    ("ceil", FUNC_CEIL); ("round", FUNC_ROUND) ].

(** ** Core calculation logic *)

Definition char_to_op (c : ascii) : option OperatorType :=
  if is_char c "+" then Some OP_ADD
  else if is_char c "-" then Some OP_SUB
  else if is_char c "*" then Some OP_MUL
  else if is_char c "/" then Some OP_DIV
  else if is_char c "^" then Some OP_POW
  else if is_char c "%" then Some OP_MOD
  else None.

(** Index of the first variable called [name], if any. *)
Fixpoint find_index (nm : string) (vs : list Var) (i : nat) : option nat :=
  match vs with
  | [] => None
  | v :: vs' => if String.eqb (name v) nm then Some i else find_index nm vs' (S i)
  end.

Definition find_variable (nm : string) (st : Calc) : option nat :=
  find_index nm (variables st) 0.

(** [strncpy] of at most [n] characters. *)
Fixpoint strncpy (n : nat) (s : string) : string :=
  match n, s with
  | S n', String c r => String c (strncpy n' r)
  | _, _ => EmptyString
  end.

Fixpoint update_value (i : nat) (v : double) (vs : list Var) : list Var :=
  match vs, i with
  | [], _ => []
  | x :: vs', O => mkVariable (name x) v :: vs'
  | x :: vs', S i' => x :: update_value i' v vs'
  end.

Definition with_variables (st : Calc) (vs : list Var) : Calc :=
  {| variables := vs; last_result := last_result st; memory := memory st |}.

Definition with_last_result (st : Calc) (r : double) : Calc :=
  {| variables := variables st; last_result := r; memory := memory st |}.

Definition with_memory (st : Calc) (m : double) : Calc :=
  {| variables := variables st; last_result := last_result st; memory := m |}.

(** Sets or creates a variable; the answer is its index, or an error where
    the source returns -1 (empty name, or no room for a new variable). *)
Definition set_variable (nm : string) (v : double) (st : Calc) : (Error + nat) * Calc :=
  match nm with
  | EmptyString => (inl InvalidName, st)
  | _ =>
      match find_variable nm st with
      | Some index => (inr index, with_variables st (update_value index v (variables st)))
      | None =>
          if (MAX_VARIABLES <=? variable_count st)%nat then (inl VariableStoreFull, st)
          else
            (inr (variable_count st),
             with_variables st
               (variables st ++ [mkVariable (strncpy (MAX_IDENTIFIER_LEN - 1) nm) v]))
      end
  end.

Definition variable_value (i : nat) (st : Calc) : double :=
  match nth_error (variables st) i with
  | Some v => value v
  | None => Double.zero
  end.

(** Value stored under [nm], as [show_variables] would list it. *)
Definition lookup (nm : string) (st : Calc) : option double :=
  match find_variable nm st with
  | Some i => Some (variable_value i st)
  | None => None
  end.

(** ** Tokenizer *)

Definition M_PI : double := Eval vm_compute in literal "3.14159265358979323846".
Definition M_E : double := Eval vm_compute in literal "2.7182818284590452354".

Definition constant_phi : double :=
  Eval vm_compute in
    div (add (literal "1.0") (Double.sqrt (literal "5.0"))) (literal "2.0").

(** The predefined constants, in the order in which the source tests them;
    [ans] reads the last result. *)
Definition constant_value (identifier : string) (st : Calc) : option double :=
  if String.eqb identifier "pi" then Some M_PI
  else if String.eqb identifier "e" then Some M_E
  else if String.eqb identifier "phi" then Some constant_phi
  else if String.eqb identifier "gamma" then Some (literal "0.5772156649015329")
  else if String.eqb identifier "c" then Some (literal "299792458.0")
  else if String.eqb identifier "h" then Some (literal "6.62607015e-34")
  else if String.eqb identifier "G" then Some (literal "6.67430e-11")
  else if String.eqb identifier "Na" then Some (literal "6.02214076e23")
  else if String.eqb identifier "k" then Some (literal "1.380649e-23")
  else if String.eqb identifier "inf" then Some INFINITY
  else if String.eqb identifier "ans" then Some (last_result st)
  else None.

Fixpoint function_lookup (identifier : string) (map : list (string * FunctionType))
  : FunctionType :=
  match map with
  | [] => FUNC_INVALID
  | (nm, f) :: map' =>
      if String.eqb identifier nm then f else function_lookup identifier map'
  end.

(** What an identifier that is not an assignment target stands for. *)
Definition resolve_identifier (identifier : string) (st : Calc) : Error + Token :=
  match constant_value identifier st with
  | Some v => inr (TOKEN_NUMBER v false)
  | None =>
      match function_lookup identifier function_map with
      | FUNC_INVALID =>
          match find_variable identifier st with
          | Some var_index => inr (TOKEN_NUMBER (variable_value var_index st) false)
          | None => inl (UnknownIdentifier identifier)
          end
      | func => inr (TOKEN_FUNCTION func)
      end
  end.

Definition is_identifier_start (c : ascii) : bool := isalpha c || is_char c "_".
Definition is_identifier_char (c : ascii) : bool := isalnum c || is_char c "_".

Definition is_operator_char (c : ascii) : bool :=
  is_char c "+" || is_char c "-" || is_char c "*" || is_char c "/"
  || is_char c "^" || is_char c "%".

Definition starts_number (p : string) : bool :=
  match p with
  | String c r => isdigit c || (is_char c "." && isdigit (peek r))
  | EmptyString => false
  end.

Section Tokenizer.

Variable st : Calc.
Variable max_tokens : nat.

(** One round of the loop of [tokenize]: [p] is the unread text, [tokens]
    what has been produced so far, and [continue] stands for the rounds
    that follow. *)
Definition tokenize_round
           (continue : string -> list Token -> bool -> Error + list Token)
           (p : string) (tokens : list Token) (expecting_operand : bool)
  : Error + list Token :=
  match skip_spaces p with
  | EmptyString => inr tokens
  | String c rest as p0 =>
      if is_char c Ascii.zero then inr tokens
      else if (max_tokens <=? List.length tokens)%nat then inl TooComplex
      else if is_identifier_start c then
        let '(identifier, p1) := span is_identifier_char p0 in
        if (MAX_IDENTIFIER_LEN <=? String.length identifier)%nat
        then inl IdentifierTooLong
        else
          match skip_spaces p1 with
          | String "=" after =>
              continue after (tokens ++ [TOKEN_ASSIGNMENT identifier]) true
          | _ =>
              match resolve_identifier identifier st with
              | inl e => inl e
              | inr tok =>
                  continue p1 (tokens ++ [tok])
                    match tok with
                    | TOKEN_NUMBER _ _ => false
                    | _ => true
                    end
              end
          end
      else if starts_number p0 then
        let '(number, e) := Strtod.strtod p0 in
        if (String.length p0 <=? String.length e)%nat then inl InvalidNumber
        else
          match e with
          | String "%" e' => continue e' (tokens ++ [TOKEN_NUMBER number true]) false
          | _ => continue e (tokens ++ [TOKEN_NUMBER number false]) false
          end
      else if is_operator_char c then
        if (is_char c "-" || is_char c "+") && expecting_operand then
          if (max_tokens <=? List.length tokens)%nat then inl TooComplexUnary
          else
            let tokens1 := tokens ++ [TOKEN_NUMBER Double.zero false] in
            if (max_tokens <=? List.length tokens1)%nat then inl TooComplexUnary
            else
              match char_to_op c with
              | Some op => continue rest (tokens1 ++ [TOKEN_OPERATOR op]) true
              | None => inl (InvalidOperator c)
              end
        else
          match char_to_op c with
          | Some op => continue rest (tokens ++ [TOKEN_OPERATOR op]) true
          | None => inl (InvalidOperator c)
          end
      else if is_char c "(" then continue rest (tokens ++ [TOKEN_LPAREN]) true
      else if is_char c ")" then continue rest (tokens ++ [TOKEN_RPAREN]) false
      else inl (InvalidChar c)
  end.

(** The loop itself.  Every round consumes at least one character, so it
    runs at most [String.length p] times; [fuel] bounds the rounds, and
    with no round left the text has been read to its end. *)
Fixpoint tokenize_loop (fuel : nat) (p : string) (tokens : list Token)
         (expecting_operand : bool) : Error + list Token :=
  match fuel with
  | O => inr tokens
  | S fuel' => tokenize_round (tokenize_loop fuel') p tokens expecting_operand
  end.

Definition tokenize (input : string) : Error + list Token :=
  tokenize_loop (String.length input) input [] true.

End Tokenizer.

(** ** Shunting-yard conversion *)

Definition precedence (op : OperatorType) : Z :=
  match op with
  | OP_ADD | OP_SUB => 1
  | OP_MUL | OP_DIV | OP_MOD => 2
  | OP_POW => 3
  end.

Definition is_left_associative (op : OperatorType) : bool :=
  match op with
  | OP_POW => false
  | _ => true
  end.

(** The test of the operator loop: must the operator [top] of the stack go
    to the output before [op] is pushed? *)
Definition pops_before (op top : OperatorType) : bool :=
  (is_left_associative op && (precedence op <=? precedence top))
  || (negb (is_left_associative op) && (precedence op <? precedence top)).

Section ShuntingYard.

Variable max_output : nat.

(** The operator stack is a list whose head is the top of the stack. *)
Definition stack_full (op_stack : list Token) : bool :=
  (MAX_TOKENS <=? List.length op_stack)%nat.

Definition emit (output : list Token) (t : Token) : Error + list Token :=
  if (max_output <=? List.length output)%nat then inl OutputOverflow
  else inr (output ++ [t]).

Fixpoint pop_operators (op : OperatorType) (op_stack output : list Token)
  : Error + (list Token * list Token) :=
  match op_stack with
  | TOKEN_OPERATOR top :: below =>
      if pops_before op top then
        match emit output (TOKEN_OPERATOR top) with
        | inl e => inl e
        | inr output' => pop_operators op below output'
        end
      else inr (op_stack, output)
  | _ => inr (op_stack, output)
  end.

Fixpoint pop_to_lparen (op_stack output : list Token)
  : Error + (list Token * list Token) :=
  match op_stack with
  | [] => inr ([], output)
  | TOKEN_LPAREN :: _ => inr (op_stack, output)
  | t :: below =>
      match emit output t with
      | inl e => inl e
      | inr output' => pop_to_lparen below output'
      end
  end.

Fixpoint pop_remaining (op_stack output : list Token) : Error + list Token :=
  match op_stack with
  | [] => inr output
  | TOKEN_LPAREN :: _ => inl MismatchedLeftParen
  | t :: below =>
      match emit output t with
      | inl e => inl e
      | inr output' => pop_remaining below output'
      end
  end.

Definition push (op_stack output : list Token) (t : Token)
  : Error + (list Token * list Token) :=
  if stack_full op_stack then inl OperatorStackOverflow
  else inr (t :: op_stack, output).

(** One round of the [for] loop. *)
Definition shunt (token : Token) (op_stack output : list Token)
  : Error + (list Token * list Token) :=
  match token with
  | TOKEN_NUMBER _ _ =>
      match emit output token with
      | inl e => inl e
      | inr output' => inr (op_stack, output')
      end
  | TOKEN_FUNCTION _ => push op_stack output token
  | TOKEN_OPERATOR op =>
      match pop_operators op op_stack output with
      | inl e => inl e
      | inr (op_stack', output') => push op_stack' output' token
      end
  | TOKEN_LPAREN => push op_stack output token
  | TOKEN_RPAREN =>
      match pop_to_lparen op_stack output with
      | inl e => inl e
      | inr ([], _) => inl MismatchedRightParen
      | inr (_ :: below, output') =>
          match below with
          | TOKEN_FUNCTION f :: below' =>
              match emit output' (TOKEN_FUNCTION f) with
              | inl e => inl e
              | inr output'' => inr (below', output'')
              end
          | _ => inr (below, output')
          end
      end
  | TOKEN_ASSIGNMENT _ => inl InternalAssignment
  | TOKEN_VARIABLE _ => inl InternalVariable
  end.

Fixpoint shunting_loop (tokens op_stack output : list Token) : Error + list Token :=
  match tokens with
  | [] => pop_remaining op_stack output
  | token :: tokens' =>
      match shunt token op_stack output with
      | inl e => inl e
      | inr (op_stack', output') => shunting_loop tokens' op_stack' output'
      end
  end.

Definition shunting_yard (tokens : list Token) : Error + list Token :=
  shunting_loop tokens [] [].

End ShuntingYard.

(** ** Postfix evaluation *)

(** The functions of <math.h> that the evaluator calls and whose values are
    not fixed by the arithmetic of IEEE 754. *)
Record libm : Type := mkLibm {
  c_sin : double -> double;
  c_cos : double -> double;
  c_tan : double -> double;
  c_asin : double -> double;
  c_acos : double -> double;
  c_atan : double -> double;
  c_log : double -> double;
  c_exp : double -> double;
  c_floor : double -> double;
  c_ceil : double -> double;
  c_round : double -> double;
  c_pow : double -> double -> double;
  c_fmod : double -> double -> double
}.

Definition hundred : double := Eval vm_compute in literal "100.0".
Definition one : double := Eval vm_compute in literal "1.0".
Definition minus_one : double := Eval vm_compute in SFopp (literal "1.0").

(** What a function returns: its C return value and the error it reported,
    if any.  An error always comes with the return value NaN. *)
Record Reply : Type := mkReply { diag : option Error; ret : double }.

Definition failed (e : Error) : Reply := {| diag := Some e; ret := NAN |}.
Definition returned (v : double) : Reply := {| diag := None; ret := v |}.

Section Evaluator.

Variable M : libm.

(** [val / 100] when the value carries the percentage tag. *)
Definition normalized (v : Value) : double :=
  if is_percentage v then div (num v) hundred else num v.

Definition apply_operator (op : OperatorType) (op_a op_b : Value) : Error + double :=
  match op with
  | OP_ADD =>
      inr (if is_percentage op_b
           then add (num op_a) (mul (div (num op_b) hundred) (num op_a))
           else add (num op_a) (num op_b))
  | OP_SUB =>
      inr (if is_percentage op_b
           then sub (num op_a) (mul (div (num op_b) hundred) (num op_a))
           else sub (num op_a) (num op_b))
  | OP_MUL => inr (mul (normalized op_a) (normalized op_b))
  | OP_DIV =>
      let a := normalized op_a in
      let b := normalized op_b in
      if eqb b Double.zero then inl DivByZero else inr (div a b)
  | OP_POW =>
      (* the percentage tags are ignored, with a warning *)
      inr (c_pow M (num op_a) (num op_b))
  | OP_MOD =>
      (* the percentage tags are ignored, with a warning *)
      if eqb (num op_b) Double.zero then inl ModByZero
      else inr (c_fmod M (num op_a) (num op_b))
  end.

Definition apply_function (func : FunctionType) (arg : Value) : Error + double :=
  let arg_val := normalized arg in
  match func with
  | FUNC_SIN => inr (c_sin M arg_val)
  | FUNC_COS => inr (c_cos M arg_val)
  | FUNC_TAN => inr (c_tan M arg_val)
  | FUNC_ASIN =>
      if ltb arg_val minus_one || gtb arg_val one then inl (DomainError FUNC_ASIN)
      else inr (c_asin M arg_val)
  | FUNC_ACOS =>
      if ltb arg_val minus_one || gtb arg_val one then inl (DomainError FUNC_ACOS)
      else inr (c_acos M arg_val)
  | FUNC_ATAN => inr (c_atan M arg_val)
  | FUNC_LOG =>
      if leb arg_val Double.zero then inl (DomainError FUNC_LOG)
      else inr (c_log M arg_val)
  | FUNC_SQRT =>
      if ltb arg_val Double.zero then inl (DomainError FUNC_SQRT)
      else inr (Double.sqrt arg_val)
  | FUNC_EXP => inr (c_exp M arg_val)
  | FUNC_ABS => inr (fabs arg_val)
  | FUNC_FLOOR => inr (c_floor M arg_val)
  | FUNC_CEIL => inr (c_ceil M arg_val)
  | FUNC_ROUND => inr (c_round M arg_val)
  | FUNC_INVALID => inl UnknownFunction
  end.

(** The evaluation stack is a list whose head is the top of the stack. *)
Definition push_value (stack : list Value) (v : Value) : Error + list Value :=
  if (MAX_TOKENS <=? List.length stack)%nat then inl EvalStackOverflow
  else inr (v :: stack).

(** One round of the [for] loop; tokens that are neither numbers, operators
    nor functions are passed over. *)
Definition eval_token (token : Token) (stack : list Value) : Error + list Value :=
  match token with
  | TOKEN_NUMBER number pct => push_value stack (mkValue number pct)
  | TOKEN_OPERATOR op =>
      match stack with
      | op_b :: op_a :: below =>
          match apply_operator op op_a op_b with
          | inl e => inl e
          | inr result => push_value below (mkValue result false)
          end
      | _ => inl (InsufficientOperands op)
      end
  | TOKEN_FUNCTION func =>
      match stack with
      | arg :: below =>
          match apply_function func arg with
          | inl e => inl e
          | inr result => push_value below (mkValue result false)
          end
      | [] => inl InsufficientArguments
      end
  | _ => inr stack
  end.

Fixpoint eval_loop (postfix : list Token) (stack : list Value) : Error + list Value :=
  match postfix with
  | [] => inr stack
  | token :: postfix' =>
      match eval_token token stack with
      | inl e => inl e
      | inr stack' => eval_loop postfix' stack'
      end
  end.

Definition evaluate_postfix (postfix : list Token) : Reply :=
  match eval_loop postfix [] with
  | inl e => failed e
  | inr [final_val] => returned (normalized final_val)
  | inr stack => failed (MalformedExpression (Z.of_nat (List.length stack) - 1))
  end.

(** ** Entry points *)

Definition handle_assignment (var_name expression : string) (st : Calc)
  : Reply * Calc :=
  match tokenize st MAX_TOKENS expression with
  | inl e => (failed e, st)
  | inr [] => (failed (MissingExpression var_name), st)
  | inr tokens =>
      match shunting_yard MAX_TOKENS tokens with
      | inl e => (failed e, st)
      | inr postfix =>
          let result := evaluate_postfix postfix in
          if negb (isnan (ret result)) then
            match set_variable var_name (ret result) st with
            | (inl e, _) => (failed e, st)
            | (inr _, st1) =>
                let st2 := with_last_result st1 (ret result) in
                (result, snd (set_variable "ans" (ret result) st2))
            end
          else (result, st)
      end
  end.

Definition evaluate_expression (input : string) (st : Calc) : Reply * Calc :=
  match tokenize st MAX_TOKENS input with
  | inl e => (failed e, st)
  | inr [] => (returned NAN, st)
  | inr tokens =>
      match shunting_yard MAX_TOKENS tokens with
      | inl e => (failed e, st)
      | inr postfix =>
          let result := evaluate_postfix postfix in
          if negb (isnan (ret result)) then
            let st1 := with_last_result st (ret result) in
            (result, snd (set_variable "ans" (ret result) st1))
          else (result, st)
      end
  end.

End Evaluator.

(** ** Commands and the main function *)

(** A C string ends at its first NUL. *)
Definition cstr (s : string) : string :=
  fst (span (fun c => negb (is_char c Ascii.zero)) s).

Definition rtrim (s : string) : string :=
  let fix drop (l : list ascii) : list ascii :=
    match l with
    | c :: l' => if isspace c then drop l' else l
    | [] => []
    end in
  string_of_list_ascii (rev (drop (rev (list_ascii_of_string s)))).

Fixpoint string_forallb (f : ascii -> bool) (s : string) : bool :=
  match s with
  | String c r => f c && string_forallb f r
  | EmptyString => true
  end.

Fixpoint skipn_string (n : nat) (s : string) : string :=
  match n, s with
  | S n', String _ r => skipn_string n' r
  | _, _ => s
  end.

(** The [store <varname>] command, from the text after the keyword. *)
Definition store_command (arg : string) (st : Calc) : Calc :=
  let var_name := skip_spaces arg in
  match var_name with
  | EmptyString => st
  | String c _ =>
      if negb (is_identifier_start c) then st
      else
        let '(word, _) := span (fun c => negb (isspace c)) var_name in
        let name_buf := strncpy (MAX_IDENTIFIER_LEN - 1) word in
        if negb (string_forallb is_identifier_char name_buf) then st
        else if (String.length name_buf <? String.length word)%nat then st
        else snd (set_variable name_buf (last_result st) st)
  end.

(** [process_command]: 1 when the line was a command, -1 for [exit], 0 when
    it is not a command.  Commands that only print or only concern the log
    leave the calculator as it is. *)
Definition process_command (input : string) (st : Calc) : Z * Calc :=
  let trimmed_input :=
    rtrim (strncpy (NMRI_MAX_INPUT - 1) (skip_spaces (cstr input))) in
  let cmd s := String.eqb trimmed_input s in
  if cmd "help" then (1, st)
  else if cmd "exit" || cmd "quit" then (-1, st)
  else if cmd "clear" || cmd "cls" then (1, st)
  else if cmd "history" then (1, st)
  else if cmd "variables" || cmd "vars" then (1, st)
  else if cmd "memory" || cmd "mem" then (1, st)
  else if cmd "m+" then (1, with_memory st (add (memory st) (last_result st)))
  else if cmd "m-" then (1, with_memory st (sub (memory st) (last_result st)))
  else if cmd "mr" then
    let st1 := with_last_result st (memory st) in
    (1, snd (set_variable "ans" (last_result st1) st1))
  else if cmd "mc" then (1, with_memory st Double.zero)
  else if String.prefix "store " trimmed_input then
    (1, store_command (skipn_string 6 trimmed_input) st)
  else if String.prefix "log " trimmed_input then (1, st)
  else (0, st).

(** Position of the first character satisfying [f] ([strchr], [strpbrk]). *)
Fixpoint first_index (f : ascii -> bool) (s : string) (i : nat) : option nat :=
  match s with
  | String c r => if f c then Some i else first_index f r (S i)
  | EmptyString => None
  end.

(** The reserved-word test of the assignment branch of [main]. *)
Definition reserved_name (var_name : string) : bool :=
  String.eqb var_name "help" || String.eqb var_name "exit"
  || String.eqb var_name "pi" || String.eqb var_name "e"
  || String.eqb var_name "sin".

Definition valid_name (var_name : string) : bool :=
  match var_name with
  | String c r => is_identifier_start c && string_forallb is_identifier_char r
  | EmptyString => false
  end.

Inductive AssignmentError : Type :=
| ReservedName (var_name : string)
| InvalidVariableName (var_name : string)
| InvalidNameLength.

(** What one round of the interactive loop did with its line. *)
Inductive LineResult : Type :=
| EmptyLine
| CommandDone
| ExitRequested
| Assignment (var_name : string) (result : Reply)
| AssignmentRejected (e : AssignmentError)
| Expression (result : Reply).

(** [first_op == NULL || equals_pos < first_op] *)
Definition before_operators (equals_pos : nat) (first_op : option nat) : bool :=
  match first_op with
  | None => true
  | Some j => (equals_pos <? j)%nat
  end.

Section Main.

Variable M : libm.

(** One round of the interactive loop, from the line that was read. *)
Definition interactive_step (input : string) (st : Calc) : LineResult * Calc :=
  let start := skip_spaces (cstr input) in
  match start with
  | EmptyString => (EmptyLine, st)
  | _ =>
      match process_command start st with
      | (1, st') => (CommandDone, st')
      | (-1, st') => (ExitRequested, st')
      | (_, st') =>
          let equals_pos := first_index (is_char "=") start 0 in
          let first_op := first_index is_operator_char start 0 in
          match equals_pos with
          | Some (S _ as eq_index) =>
              if before_operators eq_index first_op then
                let var_name := rtrim (strncpy eq_index start) in
                let name_len := String.length var_name in
                if (0 <? name_len)%nat && (name_len <? MAX_IDENTIFIER_LEN)%nat then
                  if negb (valid_name var_name) then
                    (AssignmentRejected (InvalidVariableName var_name), st')
                  else if reserved_name var_name then
                    (AssignmentRejected (ReservedName var_name), st')
                  else
                    let expr_start := skipn_string (S eq_index) start in
                    let r := handle_assignment M var_name expr_start st' in
                    (Assignment var_name (fst r), snd r)
                else (AssignmentRejected InvalidNameLength, st')
              else
                let r := evaluate_expression M start st' in
                (Expression (fst r), snd r)
          | _ =>
              let r := evaluate_expression M start st' in
              (Expression (fst r), snd r)
          end
      end
  end.

(** The globals once [main] has initialised [ans]. *)
Definition startup : Calc := snd (set_variable "ans" Double.zero initial_globals).

(** Joins the command-line arguments with single spaces; [None] when the
    expression does not fit the buffer. *)
Fixpoint join_arguments (args : list string) (buffer : string) : option string :=
  match args with
  | [] => Some buffer
  | arg :: args' =>
      let current_len := String.length buffer in
      let sep := if (0 <? current_len)%nat then 1%nat else 0%nat in
      if (CMD_LINE_EXPR_BUFFER_SIZE <=? current_len + String.length arg + sep)%nat
      then None
      else
        join_arguments args'
          (String.append (if (0 <? current_len)%nat
                          then String.append buffer " " else buffer) arg)
  end.

(** Command-line expression mode: the exit code of the process. *)
Definition batch_main (args : list string) : Z * Calc :=
  match join_arguments (map cstr args) EmptyString with
  | None => (1, startup)
  | Some expression_buffer =>
      let r := evaluate_expression M expression_buffer startup in
      if isnan (ret (fst r)) then (1, snd r) else (0, snd r)
  end.

(** The states of the calculator that the program can be in: what [main]
    sets up, and what any line typed at the prompt makes of such a state. *)
Inductive reachable : Calc -> Prop :=
| reachable_startup : reachable startup
| reachable_step : forall st input,
    reachable st -> reachable (snd (interactive_step input st)).

End Main.

(** ** A C library defined at the exactly representable points

    An instance of [libm] that gives each function at the arguments where
    C99 Annex F fixes the result (zero arguments, [log 1], [acos 1],
    propagation of NaN, [pow] with a zero exponent or a base of one, [pow] of
    a negative base with a fractional exponent) and, for [pow], at
    non-negative integer exponents, where the rounded exact power is taken.
    Everywhere else it answers NaN.  It serves to run examples and to show
    that what is assumed of the library can be met. *)

Module ExactPoints.

Definition at_zero (z : double -> double) (x : double) : double :=
  match x with
  | S754_zero _ => z x
  | _ => NAN
  end.

Definition at_one (x : double) : double :=
  if eqb x one then Double.zero else NAN.

(** The integer that a finite double stands for, if it is one. *)
Definition integer_value (y : double) : option Z :=
  let signed (s : bool) (v : Z) := if s then - v else v in
  match y with
  | S754_zero _ => Some 0
  | S754_finite s m e =>
      if 0 <=? e then Some (signed s (Z.pos m * 2 ^ e))
      else if Z.pos m mod 2 ^ (- e) =? 0 then Some (signed s (Z.pos m / 2 ^ (- e)))
      else None
  | _ => None
  end.

Definition power (x y : double) : double :=
  if eqb y Double.zero then one
  else if eqb x one then one
  else
    match x, integer_value y with
    | S754_finite s m e, Some n =>
        if 0 <? n then
          binary_normalize prec emax
            ((if s then Z.neg m else Z.pos m) ^ n) (e * n) false
        else NAN
    | S754_zero s, Some n =>
        if 0 <? n then S754_zero (s && Z.odd n) else NAN
    | _, _ => NAN
    end.

Definition identity_on_integers (x : double) : double :=
  match x, integer_value x with
  | S754_finite _ _ _, Some _ => x
  | S754_zero _, _ => x
  | S754_infinity _, _ => x
  | _, _ => NAN
  end.

Definition lib : libm :=
  {| c_sin := at_zero (fun x => x);
     c_cos := at_zero (fun _ => one);
     c_tan := at_zero (fun x => x);
     c_asin := at_zero (fun x => x);
     c_acos := at_one;
     c_atan := at_zero (fun x => x);
     c_log := at_one;
     c_exp := at_zero (fun _ => one);
     c_floor := identity_on_integers;
     c_ceil := identity_on_integers;
     c_round := identity_on_integers;
     c_pow := power;
     c_fmod := fun _ _ => NAN |}.

End ExactPoints.

(** ** Display, history and line input

    What remains of the user interface once the text printed on the terminal
    is left out: the value a result is shown as, the history buffer, the
    order in which the variables are listed and the line editor, which is a
    function of the bytes that [read] delivers. *)

Definition HISTORY_SIZE : nat := 20.

Definition clean_near_zero (value epsilon : double) : double :=
  if ltb (fabs value) epsilon then Double.zero else value.

(** The history buffer is the list of its first [history_count] lines, the
    oldest first. *)
Definition add_to_history (cmd : string) (history : list string) : list string :=
  match cmd with
  | EmptyString => history
  | _ =>
      if String.eqb cmd "history"
         || ((0 <? List.length history)%nat && String.eqb cmd (last history EmptyString))
      then history
      else
        let kept :=
          if (List.length history =? HISTORY_SIZE)%nat then tl history else history in
        kept ++ [strncpy (NMRI_MAX_INPUT - 1) cmd]
  end.

Fixpoint remove_nth {A : Type} (i : nat) (l : list A) : list A :=
  match l, i with
  | [], _ => []
  | _ :: l', O => l'
  | x :: l', S i' => x :: remove_nth i' l'
  end.

(** The variables in the order in which [show_variables] prints them:
    [ans] first when it is defined, then the others as they are stored. *)
Definition show_variables (st : Calc) : list Var :=
  match find_variable "ans" st with
  | Some ans_idx =>
      match nth_error (variables st) ans_idx with
      | Some v => v :: remove_nth ans_idx (variables st)
      | None => variables st
      end
  | None => variables st
  end.

Definition KEY_ENTER : ascii := "010".
Definition KEY_RETURN : ascii := "013".
Definition KEY_BACKSPACE : ascii := "127".
Definition KEY_CTRL_A : ascii := "001".
Definition KEY_CTRL_D : ascii := "004".
Definition KEY_CTRL_E : ascii := "005".
Definition KEY_ESC : ascii := "027".

Definition iscntrl (c : ascii) : bool :=
  (char_code c <? 32)%N || (char_code c =? 127)%N.

Fixpoint insert_at (i : nat) (c : ascii) (s : string) : string :=
  match i, s with
  | S i', String x r => String x (insert_at i' c r)
  | _, _ => String c s
  end.

Fixpoint delete_at (i : nat) (s : string) : string :=
  match s, i with
  | EmptyString, _ => EmptyString
  | String _ r, O => r
  | String x r, S i' => String x (delete_at i' r)
  end.

(** The local variables of [readCommand]; [len] is the length of the
    buffer. *)
Record Editor : Type := mkEditor {
  buffer : string;
  pos : nat;
  history_pos : nat;
  saved_current : bool;
  current_typed : string
}.

Definition with_line (ed : Editor) (b : string) (p : nat) : Editor :=
  {| buffer := b; pos := p; history_pos := history_pos ed;
     saved_current := saved_current ed; current_typed := current_typed ed |}.

Definition key_backspace (ed : Editor) : Editor :=
  if (0 <? pos ed)%nat
  then with_line ed (delete_at (pos ed - 1) (buffer ed)) (pos ed - 1)
  else ed.

Definition key_delete (ed : Editor) : Editor :=
  if (pos ed <? String.length (buffer ed))%nat
  then with_line ed (delete_at (pos ed) (buffer ed)) (pos ed)
  else ed.

Definition key_home (ed : Editor) : Editor := with_line ed (buffer ed) 0.

Definition key_end (ed : Editor) : Editor :=
  with_line ed (buffer ed) (String.length (buffer ed)).

Definition key_right (ed : Editor) : Editor :=
  if (pos ed <? String.length (buffer ed))%nat
  then with_line ed (buffer ed) (S (pos ed))
  else ed.

Definition key_left (ed : Editor) : Editor :=
  if (0 <? pos ed)%nat then with_line ed (buffer ed) (pos ed - 1) else ed.

Definition key_insert (c : ascii) (ed : Editor) : Editor :=
  with_line ed (insert_at (pos ed) c (buffer ed)) (S (pos ed)).

Section ReadCommand.

Variable command_history : list string.
Variable max_size : nat.

Definition history_count : nat := List.length command_history.

Definition load (ed : Editor) (line : string) (hp : nat) (saved : bool) : Editor :=
  let b := strncpy (max_size - 1) line in
  {| buffer := b; pos := String.length b; history_pos := hp;
     saved_current := saved; current_typed := current_typed ed |}.

(** Up arrow: the previous line of the history. *)
Definition key_up (ed : Editor) : Editor :=
  let ed1 :=
    if negb (saved_current ed) && (0 <? String.length (buffer ed))%nat
    then {| buffer := buffer ed; pos := pos ed; history_pos := history_pos ed;
            saved_current := true;
            current_typed := strncpy (NMRI_MAX_INPUT - 1) (buffer ed) |}
    else ed in
  if (0 <? history_pos ed1)%nat
  then load ed1 (nth (history_pos ed1 - 1) command_history EmptyString)
            (history_pos ed1 - 1) (saved_current ed1)
  else ed1.

(** Down arrow: the next line of the history, or what was being typed. *)
Definition key_down (ed : Editor) : Editor :=
  if (history_pos ed <? history_count)%nat then
    let hp := S (history_pos ed) in
    if (hp =? history_count)%nat && saved_current ed
    then load ed (current_typed ed) hp (saved_current ed)
    else if (hp <? history_count)%nat
    then load ed (nth hp command_history EmptyString) hp (saved_current ed)
    else load ed EmptyString hp false
  else ed.

Definition key_arrow (seq1 : ascii) (ed : Editor) : Editor :=
  if is_char seq1 "A" then key_up ed
  else if is_char seq1 "B" then key_down ed
  else if is_char seq1 "C" then key_right ed
  else if is_char seq1 "D" then key_left ed
  else ed.

(** The loop of [readCommand] over the bytes that [read] delivers; when they
    run out, [read] fails and the loop ends.  The answer is the line left in
    the buffer.  Nothing is said of the bytes that follow the end of the
    line: the terminal is flushed when raw mode is left, which discards
    what was queued. *)
Fixpoint read_loop (keys : list ascii) (ed : Editor) : string :=
  match keys with
  | [] => buffer ed
  | c :: ks =>
      if is_char c KEY_ENTER || is_char c KEY_RETURN then buffer ed
      else if is_char c KEY_BACKSPACE then read_loop ks (key_backspace ed)
      else if is_char c KEY_CTRL_D then read_loop ks (key_delete ed)
      else if is_char c KEY_CTRL_A then read_loop ks (key_home ed)
      else if is_char c KEY_CTRL_E then read_loop ks (key_end ed)
      else if is_char c KEY_ESC then
        match ks with
        | seq0 :: seq1 :: ks2 =>
            if is_char seq0 "[" then
              if isdigit seq1 then
                match ks2 with
                | seq2 :: ks3 =>
                    if is_char seq1 "3" && is_char seq2 "~"
                    then read_loop ks3 (key_delete ed)
                    else read_loop ks3 ed
                | [] => buffer ed
                end
              else read_loop ks2 (key_arrow seq1 ed)
            else read_loop ks2 ed
        | _ => buffer ed
        end
      else if negb (iscntrl c) && (String.length (buffer ed) <? max_size - 1)%nat
      then read_loop ks (key_insert c ed)
      else read_loop ks ed
  end.

Definition readCommand (keys : list ascii) : string :=
  read_loop keys
    {| buffer := EmptyString; pos := 0; history_pos := history_count;
       saved_current := false; current_typed := EmptyString |}.

End ReadCommand.

(** ** Notions used to state the properties *)

(** A name that fits the name buffer is stored as it is. *)
Definition fits (nm : string) : Prop := strncpy (MAX_IDENTIFIER_LEN - 1) nm = nm.

(** The reply of the three stages run on a text, before anything is
    committed; [empty] is the reply to a text without tokens. *)
Definition stages (M : libm) (st : Calc) (empty : Reply) (text : string) : Reply :=
  match tokenize st MAX_TOKENS text with
  | inl e => failed e
  | inr [] => empty
  | inr tokens =>
      match shunting_yard MAX_TOKENS tokens with
      | inl e => failed e
      | inr postfix => evaluate_postfix M postfix
      end
  end.

(** A cycle fails when it reports an error or returns NaN. *)
Definition failure (r : Reply) : Prop := diag r <> None \/ isnan (ret r) = true.

(** An identifier of 32 characters, one more than the name buffer holds. *)
Definition long_identifier : string := "aaaaaaaaaaaaaaaaaaaaaaaaaaaaaaaa".

(** The tokens that the tokenizer can write. *)
Definition lexeme (t : Token) : Prop :=
  match t with
  | TOKEN_VARIABLE _ => False
  | TOKEN_FUNCTION FUNC_INVALID => False
  | _ => True
  end.

(** Kinds of tokens. *)
Definition is_number (t : Token) : bool :=
  match t with TOKEN_NUMBER _ _ => true | _ => false end.

Definition is_operator (t : Token) : bool :=
  match t with TOKEN_OPERATOR _ => true | _ => false end.

Definition is_function (t : Token) : bool :=
  match t with TOKEN_FUNCTION _ => true | _ => false end.

Definition is_lparen (t : Token) : bool :=
  match t with TOKEN_LPAREN => true | _ => false end.

Definition is_rparen (t : Token) : bool :=
  match t with TOKEN_RPAREN => true | _ => false end.

Definition is_paren (t : Token) : bool := is_lparen t || is_rparen t.

(** What one round of the shunting-yard loop does to the operator stack and
    to the output when it succeeds. *)
Inductive shunt_step : Token -> list Token -> list Token ->
                       list Token -> list Token -> Prop :=
| step_number : forall n pct op_stack output,
    shunt_step (TOKEN_NUMBER n pct) op_stack output
               op_stack (output ++ [TOKEN_NUMBER n pct])
| step_function : forall f op_stack output,
    shunt_step (TOKEN_FUNCTION f) op_stack output
               (TOKEN_FUNCTION f :: op_stack) output
| step_lparen : forall op_stack output,
    shunt_step TOKEN_LPAREN op_stack output (TOKEN_LPAREN :: op_stack) output
| step_operator : forall op popped below output,
    Forall (fun t => is_operator t = true) popped ->
    shunt_step (TOKEN_OPERATOR op) (popped ++ below) output
               (TOKEN_OPERATOR op :: below) (output ++ popped)
| step_rparen : forall popped below output,
    Forall (fun t => is_lparen t = false) popped ->
    shunt_step TOKEN_RPAREN (popped ++ TOKEN_LPAREN :: below) output
               below (output ++ popped)
| step_rparen_function : forall popped f below output,
    Forall (fun t => is_lparen t = false) popped ->
    shunt_step TOKEN_RPAREN
               (popped ++ TOKEN_LPAREN :: TOKEN_FUNCTION f :: below) output
               below (output ++ popped ++ [TOKEN_FUNCTION f]).

Definition is_name (t : Token) : bool :=
  match t with TOKEN_ASSIGNMENT _ | TOKEN_VARIABLE _ => true | _ => false end.

(** The tokens of a postfix expression. *)
Definition is_postfix_token (t : Token) : bool :=
  is_number t || is_operator t || is_function t.

(** The errors of the capacity checks behind the tokenizer. *)
Definition is_overflow (e : Error) : bool :=
  match e with
  | OutputOverflow | OperatorStackOverflow | EvalStackOverflow => true
  | _ => false
  end.

(** A name that [main] accepts on the left of an assignment, as far as its
    form goes. *)
Definition short_name (nm : string) : Prop :=
  valid_name nm = true /\ (String.length nm < MAX_IDENTIFIER_LEN)%nat.

(** A store in good order: no name twice, every name an identifier that
    fits the name buffer, and no more variables than the array holds. *)
Definition store_ok (st : Calc) : Prop :=
  NoDup (map name (variables st))
  /\ Forall (fun v => short_name (name v)) (variables st)
  /\ (variable_count st <= MAX_VARIABLES)%nat.

(** What one line of the interactive loop can do to the calculator: nothing,
    a new value of the memory register, a result committed to [ans] and to
    the last result, the last result stored under a name, or a value
    assigned to a name and committed. *)
Inductive effect : Calc -> Calc -> Prop :=
| effect_none : forall st, effect st st
| effect_memory : forall st m, effect st (with_memory st m)
| effect_commit : forall st v,
    effect st (snd (set_variable "ans" v (with_last_result st v)))
| effect_store : forall st nm,
    short_name nm -> effect st (snd (set_variable nm (last_result st) st))
| effect_assign : forall st nm v,
    short_name nm ->
    (exists i, fst (set_variable nm v st) = inr i) ->
    effect st
      (snd (set_variable "ans" v (with_last_result (snd (set_variable nm v st)) v))).

Fixpoint adjacent_distinct (l : list string) : Prop :=
  match l with
  | a :: (b :: _) as rest => a <> b /\ adjacent_distinct rest
  | _ => True
  end.

(** A history buffer in good order: within its size, every line non-empty,
    short enough for a cell and not the history command, and no line
    repeated immediately. *)
Definition history_ok (history : list string) : Prop :=
  (List.length history <= HISTORY_SIZE)%nat
  /\ Forall (fun line => line <> EmptyString /\ line <> "history"
                         /\ (String.length line < NMRI_MAX_INPUT)%nat) history
  /\ adjacent_distinct history.

(** A text without control characters: what the line editor takes as
    typed text. *)
Fixpoint printable (s : string) : bool :=
  match s with
  | EmptyString => true
  | String c r => negb (iscntrl c) && printable r
  end.

(** The bytes that the up arrow and the down arrow send. *)
Definition arrow_up : list ascii := [KEY_ESC; "["%char; "A"%char].
Definition arrow_down : list ascii := [KEY_ESC; "["%char; "B"%char].

(** The editor at the prompt, before a key is read. *)
Definition editor_start (command_history : list string) : Editor :=
  {| buffer := EmptyString; pos := 0; history_pos := history_count command_history;
     saved_current := false; current_typed := EmptyString |}.

(** The line as [process_command] compares it with the command words:
    without the white space around it, cut to the size of its buffer. *)
Definition trimmed_input (input : string) : string :=
  rtrim (strncpy (NMRI_MAX_INPUT - 1) (skip_spaces (cstr input))).

(** An unsigned decimal integer, as an operand is written. *)
Definition decimal_digits (s : string) : Prop :=
  s <> EmptyString /\ string_forallb isdigit s = true.

(** The operators that bind tighter than a sign: their characters and what
    [char_to_op] makes of them. *)
Definition tighter_operators : list (ascii * OperatorType) :=
  [("*"%char, OP_MUL); ("/"%char, OP_DIV); ("^"%char, OP_POW)].

(** The text after an operand: the end of the text, or one of these
    operators. *)
Definition ends_operand (rest : string) : bool :=
  match rest with
  | EmptyString => true
  | String c _ => is_char c "*" || is_char c "/" || is_char c "^"
  end.

(** * Properties *)

(** ** Strings and the tokenizer loop *)

Lemma span_length (f : ascii -> bool) (s : string) :
  (String.length (snd (span f s)) <= String.length s)%nat.
Proof.
  induction s as [|c r IH]; simpl; [lia|].
  destruct (f c); simpl; [|lia].
  destruct (span f r) as [a b]; simpl in *; lia.
Qed.

Lemma skip_spaces_length (s : string) :
  (String.length (skip_spaces s) <= String.length s)%nat.
Proof. apply span_length. Qed.

Lemma span_head (f : ascii -> bool) (c : ascii) (r : string) :
  f c = true ->
  (String.length (snd (span f (String c r))) <= String.length r)%nat.
Proof.
  intros H; simpl; rewrite H.
  pose proof (span_length f r) as L.
  destruct (span f r) as [a b]; simpl in *; exact L.
Qed.

Lemma identifier_start_char (c : ascii) :
  is_identifier_start c = true -> is_identifier_char c = true.
Proof.
  unfold is_identifier_start, is_identifier_char, isalnum; intros H.
  apply orb_true_iff in H as [H|H]; rewrite H; simpl; auto using orb_true_r.
Qed.

(** A round only continues on a text shorter than the one it was given. *)
Lemma tokenize_round_shorter (st : Calc) (max_tokens : nat) continue1 continue2 :
  forall p tokens e,
    (forall q t b, (String.length q < String.length p)%nat ->
                   continue1 q t b = continue2 q t b) ->
    tokenize_round st max_tokens continue1 p tokens e
    = tokenize_round st max_tokens continue2 p tokens e.
Proof.
  intros p tokens e H. unfold tokenize_round.
  pose proof (skip_spaces_length p) as Hs.
  destruct (skip_spaces p) as [|c rest]; [reflexivity|].
  cbn [String.length] in Hs.
  destruct (is_char c Ascii.zero); [reflexivity|].
  destruct (max_tokens <=? Datatypes.length tokens)%nat; [reflexivity|].
  destruct (is_identifier_start c) eqn:Eid.
  { pose proof (span_head is_identifier_char c rest (identifier_start_char c Eid)) as Hi.
    destruct (span is_identifier_char (String c rest)) as [identifier p1].
    cbn [snd] in Hi.
    destruct (MAX_IDENTIFIER_LEN <=? String.length identifier)%nat; [reflexivity|].
    pose proof (skip_spaces_length p1) as H1.
    assert (Hres : forall t b, continue1 p1 t b = continue2 p1 t b)
      by (intros; apply H; lia).
    destruct (skip_spaces p1) as [|c1 after].
    - destruct (resolve_identifier identifier st); [reflexivity|apply Hres].
    - cbn [String.length] in H1.
      assert (Hrec : forall t b, continue1 after t b = continue2 after t b)
        by (intros; apply H; lia).
      destruct c1 as [[] [] [] [] [] [] [] []];
        try (destruct (resolve_identifier identifier st); [reflexivity|apply Hres]).
      apply Hrec. }
  destruct (starts_number (String c rest)).
  { destruct (Strtod.strtod (String c rest)) as [number e0].
    destruct (String.length (String c rest) <=? String.length e0)%nat eqn:El;
      [reflexivity|].
    apply Nat.leb_gt in El. cbn [String.length] in El.
    assert (Hres : forall t b, continue1 e0 t b = continue2 e0 t b)
      by (intros; apply H; lia).
    destruct e0 as [|c0 e1]; [apply Hres|].
    cbn [String.length] in El.
    assert (Hrec : forall t b, continue1 e1 t b = continue2 e1 t b)
      by (intros; apply H; lia).
    destruct c0 as [[] [] [] [] [] [] [] []]; try apply Hres. apply Hrec. }
  assert (Hrec : forall t b, continue1 rest t b = continue2 rest t b)
    by (intros; apply H; lia).
  destruct (is_operator_char c).
  { destruct ((is_char c "-" || is_char c "+") && e).
    - destruct (max_tokens <=? Datatypes.length (tokens ++ _))%nat; [reflexivity|].
      destruct (char_to_op c); [apply Hrec|reflexivity].
    - destruct (char_to_op c); [apply Hrec|reflexivity]. }
  destruct (is_char c "("); [apply Hrec|].
  destruct (is_char c ")"); [apply Hrec|reflexivity].
Qed.

(** Fuel beyond the length of the unread text is never used: the bound of
    [tokenize] is enough for the loop to run to its end. *)
Lemma tokenize_loop_fuel (st : Calc) (max_tokens : nat) :
  forall n m p tokens e,
    (String.length p <= n)%nat -> (String.length p <= m)%nat ->
    tokenize_loop st max_tokens n p tokens e = tokenize_loop st max_tokens m p tokens e.
Proof.
  induction n as [|n IH]; intros m p tokens e Hn Hm.
  - destruct p; [|cbn [String.length] in Hn; lia]. destruct m; reflexivity.
  - destruct m as [|m].
    + destruct p; [|cbn [String.length] in Hm; lia]. reflexivity.
    + cbn [tokenize_loop]. apply tokenize_round_shorter.
      intros q t b Hq. apply IH; lia.
Qed.

(** ** The variable store *)

Lemma find_index_bounds (nm : string) :
  forall vs i j, find_index nm vs i = Some j -> (i <= j < i + List.length vs)%nat.
Proof.
  induction vs as [|x vs IH]; intros i j H; simpl in *; [discriminate|].
  destruct (String.eqb (name x) nm).
  - injection H as <-. lia.
  - apply IH in H. lia.
Qed.

(** Writing a value keeps every name where it is. *)
Lemma find_index_update (nm : string) (v : double) :
  forall vs k i, find_index nm (update_value k v vs) i = find_index nm vs i.
Proof.
  induction vs as [|x vs IH]; intros k i; destruct k; simpl; try reflexivity.
  destruct (String.eqb (name x) nm); [reflexivity|apply IH].
Qed.

Lemma find_index_app (nm : string) (x : Var) :
  forall vs i,
    find_index nm (vs ++ [x]) i =
    match find_index nm vs i with
    | Some j => Some j
    | None => if String.eqb (name x) nm then Some (i + List.length vs)%nat else None
    end.
Proof.
  induction vs as [|y vs IH]; intros i; simpl.
  - rewrite Nat.add_0_r. reflexivity.
  - destruct (String.eqb (name y) nm); [reflexivity|].
    rewrite IH. destruct (find_index nm vs (S i)); [reflexivity|].
    replace (S i + List.length vs)%nat with (i + S (List.length vs))%nat by lia.
    reflexivity.
Qed.

Lemma nth_update_same (v : double) :
  forall vs k, (k < List.length vs)%nat ->
    option_map value (nth_error (update_value k v vs) k) = Some v.
Proof.
  induction vs as [|x vs IH]; intros k H; destruct k; simpl in *; try lia.
  - reflexivity.
  - apply IH. lia.
Qed.

Lemma nth_update_other (v : double) :
  forall vs k j, k <> j ->
    nth_error (update_value k v vs) j = nth_error vs j.
Proof.
  induction vs as [|x vs IH]; intros k j H; destruct k, j; simpl;
    try reflexivity; try congruence.
  apply IH. congruence.
Qed.

Lemma find_index_distinct (a b : string) :
  a <> b ->
  forall vs i j k, find_index a vs i = Some j -> find_index b vs i = Some k -> j <> k.
Proof.
  intros Hab. induction vs as [|x vs IH]; intros i j k Ha Hb; simpl in *; [discriminate|].
  destruct (String.eqb (name x) a) eqn:Ea, (String.eqb (name x) b) eqn:Eb.
  - apply String.eqb_eq in Ea, Eb. congruence.
  - injection Ha as <-. apply find_index_bounds in Hb. lia.
  - injection Hb as <-. apply find_index_bounds in Ha. lia.
  - eauto.
Qed.

Lemma lookup_nth (nm : string) (st : Calc) :
  lookup nm st =
  match find_variable nm st with
  | Some i => option_map value (nth_error (variables st) i)
  | None => None
  end.
Proof.
  unfold lookup, variable_value, find_variable.
  destruct (find_index nm (variables st) 0) as [i|] eqn:E; [|reflexivity].
  apply find_index_bounds in E.
  destruct (nth_error (variables st) i) eqn:En; [reflexivity|].
  apply nth_error_None in En. lia.
Qed.

(** After a successful [set_variable] the variable has the value. *)
Lemma lookup_set_same (nm : string) (v : double) (st : Calc) :
  fits nm ->
  (exists i, fst (set_variable nm v st) = inr i) ->
  lookup nm (snd (set_variable nm v st)) = Some v.
Proof.
  intros Hfit [i Hi]. rewrite lookup_nth. unfold set_variable, find_variable in *.
  destruct nm as [|c r]; [discriminate|].
  set (nm := String c r) in *.
  destruct (find_index nm (variables st) 0) as [j|] eqn:E.
  - cbn [snd with_variables variables]. rewrite find_index_update, E.
    apply nth_update_same. apply find_index_bounds in E. lia.
  - destruct (MAX_VARIABLES <=? variable_count st)%nat; [discriminate|].
    cbn [snd with_variables variables]. rewrite find_index_app, E.
    cbn [name]. unfold fits in Hfit. rewrite Hfit, String.eqb_refl.
    rewrite nth_error_app2 by (simpl; lia).
    replace (0 + _ - _)%nat with 0%nat by (simpl; lia). reflexivity.
Qed.

(** [set_variable] does not touch the variables of other names. *)
Lemma lookup_set_other (nm nm' : string) (v : double) (st : Calc) :
  fits nm -> nm <> nm' ->
  lookup nm' (snd (set_variable nm v st)) = lookup nm' st.
Proof.
  intros Hfit Hne. rewrite !lookup_nth. unfold set_variable, find_variable.
  destruct nm as [|c r]; [reflexivity|].
  set (nm := String c r) in *.
  destruct (find_index nm (variables st) 0) as [j|] eqn:E.
  - cbn [snd with_variables variables]. rewrite find_index_update.
    destruct (find_index nm' (variables st) 0) as [k|] eqn:E'; [|reflexivity].
    rewrite nth_update_other; [reflexivity|].
    eapply find_index_distinct; eauto.
  - destruct (MAX_VARIABLES <=? variable_count st)%nat; [reflexivity|].
    cbn [snd with_variables variables]. rewrite find_index_app.
    destruct (find_index nm' (variables st) 0) as [k|] eqn:E'.
    + apply find_index_bounds in E'. rewrite nth_error_app1 by lia. reflexivity.
    + cbn [name]. unfold fits in Hfit. rewrite Hfit.
      destruct (String.eqb nm nm') eqn:Eq; [|reflexivity].
      apply String.eqb_eq in Eq. contradiction.
Qed.

(** Variables are never removed. *)
Lemma find_set_variable (nm nm' : string) (v : double) (st : Calc) :
  find_variable nm' st <> None ->
  find_variable nm' (snd (set_variable nm v st)) <> None.
Proof.
  intros H. unfold set_variable, find_variable in *.
  destruct nm as [|c r]; [exact H|].
  destruct (find_index (String c r) (variables st) 0) as [j|].
  - cbn [snd with_variables variables]. rewrite find_index_update. exact H.
  - destruct (MAX_VARIABLES <=? variable_count st)%nat; [exact H|].
    cbn [snd with_variables variables]. rewrite find_index_app.
    destruct (find_index nm' (variables st) 0); [discriminate|contradiction].
Qed.

(** A variable that exists can always be written. *)
Lemma set_existing_variable (nm : string) (v : double) (st : Calc) :
  nm <> EmptyString ->
  find_variable nm st <> None ->
  exists i, fst (set_variable nm v st) = inr i.
Proof.
  intros Hne H. unfold set_variable.
  destruct nm as [|c r]; [contradiction|].
  destruct (find_variable (String c r) st) as [j|]; [eexists; reflexivity|contradiction].
Qed.

(** ** The evaluation cycle *)

Lemma evaluate_postfix_diag (M : libm) (postfix : list Token) :
  diag (evaluate_postfix M postfix) <> None ->
  isnan (ret (evaluate_postfix M postfix)) = true.
Proof.
  unfold evaluate_postfix.
  destruct (eval_loop M postfix []) as [e|[|v [|w stack]]]; simpl; congruence.
Qed.

Lemma stages_diag (M : libm) (st : Calc) (empty : Reply) (text : string) :
  isnan (ret empty) = true ->
  failure (stages M st empty text) -> isnan (ret (stages M st empty text)) = true.
Proof.
  intros He [H|H]; [|exact H]. unfold stages in *.
  destruct (tokenize st MAX_TOKENS text) as [e|[|t tokens]]; try reflexivity; [exact He|].
  destruct (shunting_yard MAX_TOKENS (t :: tokens)); [reflexivity|].
  apply evaluate_postfix_diag, H.
Qed.

Lemma evaluate_expression_stages (M : libm) (input : string) (st : Calc) :
  evaluate_expression M input st =
  let r := stages M st (returned NAN) input in
  if isnan (ret r) then (r, st)
  else (r, snd (set_variable "ans" (ret r) (with_last_result st (ret r)))).
Proof.
  unfold evaluate_expression, stages.
  destruct (tokenize st MAX_TOKENS input) as [e|[|t tokens]]; try reflexivity.
  destruct (shunting_yard MAX_TOKENS (t :: tokens)); [reflexivity|].
  cbv zeta. destruct (isnan (ret (evaluate_postfix M l))); reflexivity.
Qed.

Lemma handle_assignment_stages (M : libm) (var_name expression : string) (st : Calc) :
  handle_assignment M var_name expression st =
  let r := stages M st (failed (MissingExpression var_name)) expression in
  if isnan (ret r) then (r, st)
  else
    match set_variable var_name (ret r) st with
    | (inl e, _) => (failed e, st)
    | (inr _, st1) =>
        (r, snd (set_variable "ans" (ret r) (with_last_result st1 (ret r))))
    end.
Proof.
  unfold handle_assignment, stages.
  destruct (tokenize st MAX_TOKENS expression) as [e|[|t tokens]]; try reflexivity.
  destruct (shunting_yard MAX_TOKENS (t :: tokens)); [reflexivity|].
  cbv zeta. destruct (isnan (ret (evaluate_postfix M l))); reflexivity.
Qed.

Lemma failure_evaluate_expression (M : libm) (input : string) (st : Calc) :
  failure (fst (evaluate_expression M input st)) ->
  isnan (ret (stages M st (returned NAN) input)) = true.
Proof.
  rewrite evaluate_expression_stages. cbv zeta.
  destruct (isnan (ret (stages M st (returned NAN) input))) eqn:E; [reflexivity|].
  cbn [fst]. intros H. apply stages_diag in H; [congruence|reflexivity].
Qed.

Lemma last_result_set_variable (nm : string) (v : double) (st : Calc) :
  last_result (snd (set_variable nm v st)) = last_result st.
Proof.
  unfold set_variable. destruct nm; [reflexivity|].
  destruct (find_variable _ st); [reflexivity|].
  destruct (MAX_VARIABLES <=? variable_count st)%nat; reflexivity.
Qed.

Lemma fits_ans : fits "ans".
Proof. reflexivity. Qed.

(** Where [ans] exists, committing a result leaves it in [ans] and in
    [last_result]. *)
Lemma commit_ans (v : double) (st : Calc) :
  find_variable "ans" st <> None ->
  let st' := snd (set_variable "ans" v (with_last_result st v)) in
  last_result st' = v /\ lookup "ans" st' = Some v.
Proof.
  intros H. cbv zeta. split.
  - rewrite last_result_set_variable. reflexivity.
  - apply lookup_set_same; [exact fits_ans|].
    apply set_existing_variable; [discriminate|exact H].
Qed.

(** *** The states of the program always hold [ans] *)

Lemma ans_after_evaluate (M : libm) (input : string) (st : Calc) :
  find_variable "ans" st <> None ->
  find_variable "ans" (snd (evaluate_expression M input st)) <> None.
Proof.
  intros H. rewrite evaluate_expression_stages. cbv zeta.
  destruct (isnan _); [exact H|]. cbn [snd].
  apply find_set_variable. exact H.
Qed.

Lemma ans_after_assignment (M : libm) (var_name expression : string) (st : Calc) :
  find_variable "ans" st <> None ->
  find_variable "ans" (snd (handle_assignment M var_name expression st)) <> None.
Proof.
  intros H. rewrite handle_assignment_stages. cbv zeta.
  destruct (isnan _); [exact H|].
  pose proof (find_set_variable var_name "ans"
                (ret (stages M st (failed (MissingExpression var_name)) expression))
                st H) as H1.
  destruct (set_variable var_name _ st) as [[e|i] st1]; [exact H|].
  cbn [snd] in *. apply find_set_variable. exact H1.
Qed.

Lemma ans_after_command (input : string) (st : Calc) :
  find_variable "ans" st <> None ->
  find_variable "ans" (snd (process_command input st)) <> None.
Proof.
  intros H. unfold process_command. cbv zeta.
  repeat match goal with
         | |- context [if ?b then _ else _] => destruct b
         end; cbn [snd]; try exact H.
  - apply find_set_variable. exact H.
  - unfold store_command.
    destruct (skip_spaces _) as [|c r]; [exact H|].
    destruct (negb (is_identifier_start c)); [exact H|].
    destruct (span _ _) as [word rest].
    destruct (negb _); [exact H|].
    destruct (_ <? _)%nat; [exact H|].
    apply find_set_variable. exact H.
Qed.

Lemma ans_after_step (M : libm) (input : string) (st : Calc) :
  find_variable "ans" st <> None ->
  find_variable "ans" (snd (interactive_step M input st)) <> None.
Proof.
  intros H. unfold interactive_step.
  destruct (skip_spaces (cstr input)) as [|c r] eqn:E; [exact H|].
  pose proof (ans_after_command (String c r) st H) as Hc.
  destruct (process_command (String c r) st) as [code st'].
  cbn [snd] in Hc.
  assert (He : find_variable "ans"
                 (snd (evaluate_expression M (String c r) st')) <> None)
    by (apply ans_after_evaluate; exact Hc).
  destruct code as [|[p|p|]|[p|p|]]; try exact Hc;
    (destruct (first_index (is_char "=") (String c r) 0) as [[|i]|]; try exact He;
     destruct (before_operators (S i) _); try exact He;
     destruct (_ && _); try exact Hc;
     destruct (negb _); try exact Hc;
     destruct (reserved_name _); try exact Hc;
     apply ans_after_assignment; exact Hc).
Qed.

Lemma reachable_has_ans (M : libm) (st : Calc) :
  reachable M st -> find_variable "ans" st <> None.
Proof.
  induction 1 as [|st input _ IH].
  - discriminate.
  - apply ans_after_step. exact IH.
Qed.

(** ** Properties of the evaluation cycle *)

Lemma evaluate_expression_atomic (M : libm) (input : string) (st : Calc) :
  failure (fst (evaluate_expression M input st)) ->
  snd (evaluate_expression M input st) = st.
Proof.
  intros H. apply failure_evaluate_expression in H.
  rewrite evaluate_expression_stages. cbv zeta. rewrite H. reflexivity.
Qed.

Lemma handle_assignment_atomic (M : libm) (var_name expression : string) (st : Calc) :
  failure (fst (handle_assignment M var_name expression st)) ->
  snd (handle_assignment M var_name expression st) = st.
Proof.
  rewrite handle_assignment_stages. cbv zeta.
  set (r := stages M st (failed (MissingExpression var_name)) expression).
  destruct (isnan (ret r)) eqn:E; [reflexivity|].
  destruct (set_variable var_name (ret r) st) as [[e|i] st1]; [reflexivity|].
  cbn [fst]. intros H. apply stages_diag in H; [|reflexivity].
  fold r in H. congruence.
Qed.

(** C3.  A cycle that fails, at whatever stage, leaves the calculator as it
    was: for [evaluate_expression] and for [handle_assignment] alike, the
    state after a failed cycle is the state before it (the last result, the
    variable [ans] and every other variable included). *)
Theorem failed_cycle_is_atomic (M : libm) (st : Calc)
        (input var_name expression : string) :
  (failure (fst (evaluate_expression M input st)) ->
   snd (evaluate_expression M input st) = st)
  /\
  (failure (fst (handle_assignment M var_name expression st)) ->
   snd (handle_assignment M var_name expression st) = st).
Proof.
  split.
  - apply evaluate_expression_atomic.
  - apply handle_assignment_atomic.
Qed.

Lemma failed_cycle_is_atomic_witness :
  snd (evaluate_expression ExactPoints.lib "1/0" (startup)) = startup
  /\ snd (handle_assignment ExactPoints.lib "x" "sqrt(-1)" startup) = startup.
Proof.
  destruct (failed_cycle_is_atomic ExactPoints.lib startup "1/0" "x" "sqrt(-1)")
    as [H1 H2].
  split; [apply H1|apply H2]; right; vm_compute; reflexivity.
Defined.

Lemma tokenize_x (st : Calc) :
  tokenize st MAX_TOKENS "x" =
  match find_variable "x" st with
  | Some i => inr [TOKEN_NUMBER (variable_value i st) false]
  | None => inl (UnknownIdentifier "x")
  end.
Proof.
  unfold tokenize. cbn [String.length tokenize_loop].
  unfold tokenize_round. cbn -[find_variable variable_value].
  unfold resolve_identifier. cbn -[find_variable variable_value].
  destruct (find_variable "x" st); reflexivity.
Qed.

Lemma evaluate_x (M : libm) (st : Calc) (v : double) :
  lookup "x" st = Some v ->
  stages M st (returned NAN) "x" = returned v.
Proof.
  unfold lookup, stages. rewrite tokenize_x.
  destruct (find_variable "x" st) as [i|]; [|discriminate].
  intros H. injection H as <-. reflexivity.
Qed.

Lemma evaluate_ans (M : libm) (st : Calc) :
  stages M st (returned NAN) "ans" = returned (last_result st).
Proof. reflexivity. Qed.

(** C6.  After a successful [handle_assignment] of "5*2" to "x", evaluating
    "x" returns 10.0; and in every state of the program, after a successful
    evaluation or assignment the last result and the variable [ans] both
    hold the result of that cycle (so that evaluating "ans" returns it). *)
Theorem assignment_round_trip (M : libm) (st : Calc) :
  (isnan (ret (fst (handle_assignment M "x" "5*2" st))) = false ->
   fst (evaluate_expression M "x" (snd (handle_assignment M "x" "5*2" st)))
   = returned (literal "10.0"))
  /\
  (reachable M st ->
   forall input,
     let r := evaluate_expression M input st in
     isnan (ret (fst r)) = false ->
     last_result (snd r) = ret (fst r)
     /\ lookup "ans" (snd r) = Some (ret (fst r))
     /\ ret (fst (evaluate_expression M "ans" (snd r))) = ret (fst r))
  /\
  (reachable M st ->
   forall var_name expression,
     let r := handle_assignment M var_name expression st in
     isnan (ret (fst r)) = false ->
     last_result (snd r) = ret (fst r)
     /\ lookup "ans" (snd r) = Some (ret (fst r))
     /\ ret (fst (evaluate_expression M "ans" (snd r))) = ret (fst r)).
Proof.
  assert (Hans : forall s : Calc,
             ret (fst (evaluate_expression M "ans" s)) = last_result s).
  { intros s. rewrite evaluate_expression_stages, evaluate_ans. cbv zeta.
    destruct (isnan (ret (returned (last_result s)))); reflexivity. }
  split; [|split].
  - rewrite handle_assignment_stages.
    assert (Hs : stages M st (failed (MissingExpression "x")) "5*2"
                 = returned (literal "10.0")) by (vm_compute; reflexivity).
    rewrite Hs. cbv zeta.
    change (isnan (ret (returned (literal "10.0")))) with false. cbv iota.
    change (ret (returned (literal "10.0"))) with (literal "10.0").
    pose proof (lookup_set_same "x" (literal "10.0") st eq_refl) as Hx.
    destruct (set_variable "x" (literal "10.0") st) as [[e|i] st1];
      [intros H; discriminate H|].
    intros _. cbn [fst snd] in *.
    rewrite evaluate_expression_stages.
    rewrite (evaluate_x M _ (literal "10.0")); [reflexivity|].
    rewrite lookup_set_other; [|exact fits_ans|discriminate].
    apply Hx. eexists; reflexivity.
  - intros Hr input. cbv zeta. rewrite evaluate_expression_stages. cbv zeta.
    destruct (isnan (ret (stages M st (returned NAN) input))) eqn:E;
      [intros H; cbn [fst] in H; congruence|].
    intros _. cbn [fst snd]. rewrite Hans.
    destruct (commit_ans (ret (stages M st (returned NAN) input)) st
                (reachable_has_ans M st Hr)) as [H1 H2].
    repeat split; assumption.
  - intros Hr var_name expression. cbv zeta. rewrite handle_assignment_stages.
    cbv zeta.
    set (r := stages M st (failed (MissingExpression var_name)) expression).
    destruct (isnan (ret r)) eqn:E; [intros H; cbn [fst] in H; congruence|].
    pose proof (find_set_variable var_name "ans" (ret r) st
                  (reachable_has_ans M st Hr)) as H1.
    destruct (set_variable var_name (ret r) st) as [[e|i] st1];
      [intros H; discriminate H|].
    intros _. cbn [fst snd] in *. rewrite Hans.
    destruct (commit_ans (ret r) st1 H1) as [H2 H3].
    repeat split; assumption.
Qed.

Lemma assignment_round_trip_witness :
  fst (evaluate_expression ExactPoints.lib "x"
         (snd (handle_assignment ExactPoints.lib "x" "5*2" startup)))
  = returned (literal "10.0")
  /\ lookup "ans" (snd (evaluate_expression ExactPoints.lib "7 * 7" startup))
     = Some (ret (fst (evaluate_expression ExactPoints.lib "7 * 7" startup)))
  /\ lookup "ans" (snd (handle_assignment ExactPoints.lib "y" "3" startup))
     = Some (ret (fst (handle_assignment ExactPoints.lib "y" "3" startup))).
Proof.
  destruct (assignment_round_trip ExactPoints.lib startup) as [H1 [H2 H3]].
  split; [apply H1; vm_compute; reflexivity|].
  split.
  - apply (H2 (reachable_startup _) "7 * 7"). vm_compute; reflexivity.
  - apply (H3 (reachable_startup _) "y" "3"). vm_compute; reflexivity.
Defined.

Lemma isnan_NAN (x : double) : isnan x = true -> x = NAN.
Proof. destruct x; simpl; intros H; try discriminate H. reflexivity. Qed.

Lemma reply_eta (r : Reply) : r = {| diag := diag r; ret := ret r |}.
Proof. destruct r; reflexivity. Qed.

(** C9.  A NaN that the arithmetic itself produces, with no error reported
    by any stage, is handled as a failure: [evaluate_expression] returns
    NaN and leaves the calculator as it was, and command-line mode exits
    with code 1 whenever the evaluation returns NaN, whether an error was
    reported ("1/0", "sqrt(-1)") or not ("inf - inf", and "(0-1)^0.5" once
    [pow] answers NaN for a negative base and a fractional exponent). *)
Theorem computed_nan_is_failure (M : libm) (st : Calc) :
  (forall input tokens postfix v,
     tokenize st MAX_TOKENS input = inr tokens ->
     tokens <> [] ->
     shunting_yard MAX_TOKENS tokens = inr postfix ->
     evaluate_postfix M postfix = returned v ->
     isnan v = true ->
     evaluate_expression M input st = (returned NAN, st))
  /\
  (forall args expression,
     join_arguments (map cstr args) EmptyString = Some expression ->
     isnan (ret (fst (evaluate_expression M expression startup))) = true ->
     batch_main M args = (1, startup))
  /\
  evaluate_expression M "inf - inf" st = (returned NAN, st)
  /\ batch_main M ["inf"; "-"; "inf"] = (1, startup)
  /\
  (c_pow M minus_one (literal "0.5") = NAN ->
   evaluate_expression M "(0-1)^0.5" st = (returned NAN, st)
   /\ batch_main M ["(0-1)^0.5"] = (1, startup))
  /\ evaluate_expression M "1/0" st = (failed DivByZero, st)
  /\ batch_main M ["1/0"] = (1, startup)
  /\ evaluate_expression M "sqrt(-1)" st = (failed (DomainError FUNC_SQRT), st)
  /\ batch_main M ["sqrt(-1)"] = (1, startup).
Proof.
  assert (Hgen : forall input tokens postfix v,
             tokenize st MAX_TOKENS input = inr tokens ->
             tokens <> [] ->
             shunting_yard MAX_TOKENS tokens = inr postfix ->
             evaluate_postfix M postfix = returned v ->
             isnan v = true ->
             evaluate_expression M input st = (returned NAN, st)).
  { intros input tokens postfix v Ht Hne Hs He Hn. unfold evaluate_expression.
    rewrite Ht. destruct tokens as [|t tokens]; [contradiction|].
    rewrite Hs, He. cbn [ret returned]. rewrite Hn, (isnan_NAN v Hn). reflexivity. }
  assert (Hbatch : forall args expression,
             join_arguments (map cstr args) EmptyString = Some expression ->
             isnan (ret (fst (evaluate_expression M expression startup))) = true ->
             batch_main M args = (1, startup)).
  { intros args expression Hj Hn. unfold batch_main. rewrite Hj. cbv zeta.
    rewrite Hn. f_equal. apply evaluate_expression_atomic. right. exact Hn. }
  assert (Hpow : c_pow M minus_one (literal "0.5") = NAN ->
                 forall s, evaluate_expression M "(0-1)^0.5" s = (returned NAN, s)).
  { intros Hp s. rewrite evaluate_expression_stages.
    change (stages M s (returned NAN) "(0-1)^0.5")
      with (returned (c_pow M minus_one (literal "0.5"))).
    rewrite Hp. reflexivity. }
  refine (conj Hgen (conj Hbatch (conj _ (conj _ (conj _ (conj _
            (conj _ (conj _ _)))))))).
  - reflexivity.
  - apply (Hbatch _ "inf - inf"); reflexivity.
  - intros H. split.
    + apply (Hpow H).
    + apply (Hbatch _ "(0-1)^0.5"); [reflexivity|].
      rewrite (Hpow H). reflexivity.
  - reflexivity.
  - apply (Hbatch _ "1/0"); reflexivity.
  - reflexivity.
  - apply (Hbatch _ "sqrt(-1)"); reflexivity.
Qed.

Lemma computed_nan_is_failure_witness :
  evaluate_expression ExactPoints.lib "0 * inf" startup = (returned NAN, startup)
  /\ batch_main ExactPoints.lib ["0"; "*"; "inf"] = (1, startup)
  /\ evaluate_expression ExactPoints.lib "(0-1)^0.5" startup = (returned NAN, startup).
Proof.
  destruct (computed_nan_is_failure ExactPoints.lib startup)
    as (H1 & H2 & _ & _ & H5 & _).
  split.
  - apply (H1 "0 * inf"
              [TOKEN_NUMBER (literal "0") false; TOKEN_OPERATOR OP_MUL;
               TOKEN_NUMBER INFINITY false]
              [TOKEN_NUMBER (literal "0") false; TOKEN_NUMBER INFINITY false;
               TOKEN_OPERATOR OP_MUL]
              NAN); try (vm_compute; reflexivity).
    discriminate.
  - split; [apply (H2 _ "0 * inf"); vm_compute; reflexivity|].
    apply H5. vm_compute; reflexivity.
Defined.

Lemma evaluate_expression_reply (M : libm) (input : string) (st : Calc) :
  fst (evaluate_expression M input st) = stages M st (returned NAN) input.
Proof.
  rewrite evaluate_expression_stages. cbv zeta.
  destruct (isnan (ret (stages M st (returned NAN) input))); reflexivity.
Qed.

(** ** Properties of the conversion to postfix *)

(** When does an operator on the stack leave it for the output? *)
Lemma pops_before_iff (op top : OperatorType) :
  pops_before op top = true <->
  precedence op < precedence top
  \/ (precedence op = precedence top /\ is_left_associative op = true).
Proof.
  destruct op, top; vm_compute; split; intros H;
    try discriminate; try reflexivity;
    try (right; split; reflexivity);
    try (left; reflexivity);
    destruct H as [H|[H1 H2]]; discriminate.
Qed.



(** *** Reading an operand and a sign *)

Lemma string_append_nil (s : string) : String.append s EmptyString = s.
Proof. induction s as [|c r IH]; simpl; [reflexivity|]. rewrite IH. reflexivity. Qed.

Lemma append_length (a b : string) :
  String.length (String.append a b) = (String.length a + String.length b)%nat.
Proof. induction a as [|c a IH]; simpl; [reflexivity|]. rewrite IH. reflexivity. Qed.

Lemma digit_facts (c : ascii) :
  isdigit c = true ->
  isspace c = false /\ is_char c Ascii.zero = false
  /\ is_identifier_start c = false
  /\ is_char c "x" || is_char c "X" = false.
Proof.
  destruct c as [[] [] [] [] [] [] [] []]; intros H; try discriminate H;
    refine (conj _ (conj _ (conj _ _))); reflexivity.
Qed.

Lemma ends_operand_facts (c : ascii) (r : string) :
  ends_operand (String c r) = true ->
  isdigit c = false /\ is_char c "x" || is_char c "X" = false
  /\ In c ["*"; "/"; "^"]%char.
Proof.
  destruct c as [[] [] [] [] [] [] [] []]; intros H; try discriminate H;
    (refine (conj _ (conj _ _)); [reflexivity|reflexivity|simpl; tauto]).
Qed.

Lemma span_digits (d rest : string) :
  string_forallb isdigit d = true -> ends_operand rest = true ->
  span isdigit (String.append d rest) = (d, rest).
Proof.
  intros Hd Hr. induction d as [|c d IH].
  - destruct rest as [|x r]; [reflexivity|].
    destruct (ends_operand_facts x r Hr) as (Hx & _). simpl. rewrite Hx. reflexivity.
  - simpl in Hd. apply andb_true_iff in Hd as [Hc Hd].
    simpl. rewrite Hc, (IH Hd). reflexivity.
Qed.

Lemma strtod_decimal (s : string) :
  (forall c x r, s = String c (String x r) -> is_char x "x" || is_char x "X" = false) ->
  Strtod.strtod s = Strtod.decimal s.
Proof.
  intros H. destruct s as [|c [|x r]]; try reflexivity.
  - destruct c as [[] [] [] [] [] [] [] []]; reflexivity.
  - specialize (H c x r eq_refl). unfold Strtod.strtod.
    destruct c as [[] [] [] [] [] [] [] []]; try reflexivity.
    rewrite H. reflexivity.
Qed.

(** The value and the end of an unsigned decimal integer. *)
Lemma strtod_digits (d rest : string) :
  decimal_digits d -> ends_operand rest = true ->
  Strtod.strtod (String.append d rest)
  = (of_decimal (Strtod.digits_value 10 digit_value d 0) 0, rest).
Proof.
  intros [Hne Hd] Hr. rewrite strtod_decimal.
  - unfold Strtod.decimal, Strtod.mantissa. rewrite (span_digits d rest Hd Hr).
    destruct rest as [|x r]; [reflexivity|].
    destruct (ends_operand_facts x r Hr) as (_ & _ & [<-|[<-|[<-|[]]]]); reflexivity.
  - intros c x r Hs. destruct d as [|c0 [|x0 d]]; [contradiction| |].
    + simpl in Hs. injection Hs as _ Hs. rewrite Hs in Hr.
      apply (ends_operand_facts x r Hr).
    + simpl in Hs. injection Hs as _ <- _. simpl in Hd.
      apply andb_true_iff in Hd as [_ Hd]. apply andb_true_iff in Hd as [Hx _].
      apply (digit_facts x0 Hx).
Qed.

Lemma literal_digits (d : string) :
  decimal_digits d ->
  literal d = of_decimal (Strtod.digits_value 10 digit_value d 0) 0.
Proof.
  intros H. unfold literal.
  rewrite <- (string_append_nil d) at 1.
  rewrite (strtod_digits d EmptyString H eq_refl). reflexivity.
Qed.

(** The round of the tokenizer on an unsigned decimal integer. *)
Lemma tokenize_round_number (st : Calc) (max_tokens : nat) continue
      (d rest : string) (tokens : list Token) (e : bool) :
  decimal_digits d -> ends_operand rest = true ->
  (List.length tokens < max_tokens)%nat ->
  tokenize_round st max_tokens continue (String.append d rest) tokens e
  = continue rest (tokens ++ [TOKEN_NUMBER (literal d) false]) false.
Proof.
  intros Hd Hr Hroom. pose proof (strtod_digits d rest Hd Hr) as Hs.
  rewrite <- (literal_digits d Hd) in Hs.
  destruct Hd as [Hne Hd]. destruct d as [|c d]; [contradiction|].
  simpl in Hd. apply andb_true_iff in Hd as [Hc _].
  destruct (digit_facts c Hc) as (Hsp & Hnul & Hid & _).
  unfold tokenize_round, skip_spaces. cbn [String.append span] in *.
  rewrite Hsp. cbn [snd]. rewrite Hnul.
  apply Nat.leb_gt in Hroom. rewrite Hroom, Hid.
  unfold starts_number. rewrite Hc. cbn [orb]. rewrite Hs.
  assert ((String.length (String c (String.append d rest)) <=? String.length rest)%nat
          = false) as ->.
  { apply Nat.leb_gt. cbn [String.length]. rewrite append_length. lia. }
  destruct rest as [|x r]; [reflexivity|].
  destruct (ends_operand_facts x r Hr) as (_ & _ & [<-|[<-|[<-|[]]]]); reflexivity.
Qed.

(** The round of the tokenizer on [*], [/] or [^]. *)
Lemma tokenize_round_operator (st : Calc) (max_tokens : nat) continue
      (c : ascii) (op : OperatorType) (rest : string) (tokens : list Token) (e : bool) :
  In (c, op) tighter_operators ->
  (List.length tokens < max_tokens)%nat ->
  tokenize_round st max_tokens continue (String c rest) tokens e
  = continue rest (tokens ++ [TOKEN_OPERATOR op]) true.
Proof.
  intros Hop Hroom. apply Nat.leb_gt in Hroom.
  destruct Hop as [H|[H|[H|[]]]]; injection H as <- <-;
    unfold tokenize_round; cbn; rewrite Hroom; reflexivity.
Qed.

(** The round of the tokenizer on a minus sign where an operand is
    expected. *)
Lemma tokenize_round_sign (st : Calc) (max_tokens : nat) continue
      (rest : string) (tokens : list Token) :
  (S (List.length tokens) < max_tokens)%nat ->
  tokenize_round st max_tokens continue (String "-" rest) tokens true
  = continue rest
      ((tokens ++ [TOKEN_NUMBER Double.zero false]) ++ [TOKEN_OPERATOR OP_SUB]) true.
Proof.
  intros Hroom.
  assert (H1 : (max_tokens <=? List.length tokens)%nat = false)
    by (apply Nat.leb_gt; lia).
  assert (H2 : (max_tokens <=? List.length (tokens ++ [TOKEN_NUMBER Double.zero false]))%nat
               = false)
    by (apply Nat.leb_gt; rewrite length_app; simpl; lia).
  unfold tokenize_round. cbn. rewrite H1. cbn. rewrite H2. reflexivity.
Qed.

(** With fuel for the whole text, the loop is one round followed by the
    loop on what is left. *)
Lemma tokenize_loop_round (st : Calc) (max_tokens fuel : nat) (p : string)
      (tokens : list Token) (e : bool) :
  (String.length p <= fuel)%nat ->
  tokenize_loop st max_tokens fuel p tokens e
  = tokenize_round st max_tokens
      (fun q t b => tokenize_loop st max_tokens (String.length q) q t b) p tokens e.
Proof.
  intros H. destruct fuel as [|fuel].
  - destruct p; [reflexivity|simpl in H; lia].
  - cbn [tokenize_loop]. apply tokenize_round_shorter.
    intros q t b Hq. apply tokenize_loop_fuel; lia.
Qed.

(** The tokens of [a c - b]. *)
Lemma sign_after_operator_tokens (st : Calc) (da db : string) (c : ascii)
      (op : OperatorType) :
  decimal_digits da -> decimal_digits db -> In (c, op) tighter_operators ->
  tokenize st MAX_TOKENS (String.append da (String c (String "-" db)))
  = inr [TOKEN_NUMBER (literal da) false; TOKEN_OPERATOR op;
         TOKEN_NUMBER Double.zero false; TOKEN_OPERATOR OP_SUB;
         TOKEN_NUMBER (literal db) false].
Proof.
  intros Ha Hb Hop. unfold tokenize.
  assert (He : ends_operand (String c (String "-" db)) = true)
    by (destruct Hop as [H|[H|[H|[]]]]; injection H as <- _; reflexivity).
  rewrite tokenize_loop_round by lia.
  rewrite (tokenize_round_number _ _ _ da _ _ _ Ha He) by (simpl; unfold MAX_TOKENS; lia).
  rewrite tokenize_loop_round by lia.
  rewrite (tokenize_round_operator _ _ _ c op _ _ _ Hop) by (simpl; unfold MAX_TOKENS; lia).
  rewrite tokenize_loop_round by lia.
  rewrite tokenize_round_sign by (simpl; unfold MAX_TOKENS; lia).
  rewrite tokenize_loop_round by lia.
  rewrite <- (string_append_nil db) at 1.
  rewrite (tokenize_round_number _ _ _ db EmptyString _ _ Hb eq_refl)
    by (simpl; unfold MAX_TOKENS; lia).
  reflexivity.
Qed.

(** The value of [a op 0 - b] in postfix. *)
Lemma sign_after_operator_value (M : libm) (a b : double) (pa pb : bool)
      (op : OperatorType) :
  evaluate_postfix M
    [TOKEN_NUMBER a pa; TOKEN_NUMBER Double.zero false; TOKEN_OPERATOR op;
     TOKEN_NUMBER b pb; TOKEN_OPERATOR OP_SUB]
  = match apply_operator M op (mkValue a pa) (mkValue Double.zero false) with
    | inl e => failed e
    | inr v =>
        match apply_operator M OP_SUB (mkValue v false) (mkValue b pb) with
        | inl e => failed e
        | inr r => returned r
        end
    end.
Proof. destruct op; reflexivity. Qed.

(** C10.  A sign in operand position is lexed as a zero followed by the
    binary operator, which has precedence 1: after [*], [/] or [^] it
    therefore subtracts from the whole product, quotient or power, whatever
    the operands.  [a*-b] is (a*0)-b, [a^-b] is pow(a,0)-b, and [a/-b] is
    (a/0)-b, which stops with a division by zero; the operand is never
    negated.  "2*-3" is (2*0)-3 = -3 and "2^-1" is pow(2,0)-1, that is 0
    since pow(x,0) is 1; neither is -6 or 0.5. *)
Theorem unary_minus_after_operator (M : libm) (st : Calc) :
  let n s := TOKEN_NUMBER (literal s) false in
  let zero := TOKEN_NUMBER Double.zero false in
  let minus := TOKEN_OPERATOR OP_SUB in
  (forall max_tokens fuel c op rest tokens expecting_operand,
     In (c, op) tighter_operators ->
     (List.length tokens + 3 <= max_tokens)%nat ->
     tokenize_loop st max_tokens (S (S fuel)) (String c (String "-" rest))
       tokens expecting_operand
     = tokenize_loop st max_tokens fuel rest
         (tokens ++ [TOKEN_OPERATOR op; zero; minus]) true)
  /\
  (forall da db c op,
     decimal_digits da -> decimal_digits db -> In (c, op) tighter_operators ->
     tokenize st MAX_TOKENS (String.append da (String c (String "-" db)))
     = inr [n da; TOKEN_OPERATOR op; zero; minus; n db])
  /\
  (forall a pa b pb op,
     shunting_yard MAX_TOKENS
       [TOKEN_NUMBER a pa; TOKEN_OPERATOR op; zero; minus; TOKEN_NUMBER b pb]
     = inr [TOKEN_NUMBER a pa; zero; TOKEN_OPERATOR op; TOKEN_NUMBER b pb; minus])
  /\
  (forall a pa b pb op,
     evaluate_postfix M
       [TOKEN_NUMBER a pa; zero; TOKEN_OPERATOR op; TOKEN_NUMBER b pb; minus]
     = match apply_operator M op (mkValue a pa) (mkValue Double.zero false) with
       | inl e => failed e
       | inr v =>
           match apply_operator M OP_SUB (mkValue v false) (mkValue b pb) with
           | inl e => failed e
           | inr r => returned r
           end
       end)
  /\
  (forall da db,
     decimal_digits da -> decimal_digits db ->
     fst (evaluate_expression M (String.append da (String.append "*-" db)) st)
     = returned (sub (mul (literal da) Double.zero) (literal db))
     /\ fst (evaluate_expression M (String.append da (String.append "^-" db)) st)
        = returned (sub (c_pow M (literal da) Double.zero) (literal db))
     /\ evaluate_expression M (String.append da (String.append "/-" db)) st
        = (failed DivByZero, st))
  /\ tokenize st MAX_TOKENS "2*-3"
     = inr [n "2"; TOKEN_OPERATOR OP_MUL; n "0"; TOKEN_OPERATOR OP_SUB; n "3"]
  /\ shunting_yard MAX_TOKENS
       [n "2"; TOKEN_OPERATOR OP_MUL; n "0"; TOKEN_OPERATOR OP_SUB; n "3"]
     = inr [n "2"; n "0"; TOKEN_OPERATOR OP_MUL; n "3"; TOKEN_OPERATOR OP_SUB]
  /\ fst (evaluate_expression M "2*-3" st) = returned (SFopp (literal "3.0"))
  /\ fst (evaluate_expression M "2*-3" st) <> returned (SFopp (literal "6.0"))
  /\ tokenize st MAX_TOKENS "2^-1"
     = inr [n "2"; TOKEN_OPERATOR OP_POW; n "0"; TOKEN_OPERATOR OP_SUB; n "1"]
  /\ fst (evaluate_expression M "2^-1" st)
     = returned (sub (c_pow M (literal "2") (literal "0")) (literal "1"))
  /\
  (c_pow M (literal "2") (literal "0") = literal "1" ->
   fst (evaluate_expression M "2^-1" st) = returned (literal "0.0")
   /\ fst (evaluate_expression M "2^-1" st) <> returned (literal "0.5"))
  /\ tokenize st MAX_TOKENS "6/-3"
     = inr [n "6"; TOKEN_OPERATOR OP_DIV; n "0"; TOKEN_OPERATOR OP_SUB; n "3"]
  /\ evaluate_expression M "6/-3" st = (failed DivByZero, st).
Proof.
  cbv zeta.
  assert (H21 : fst (evaluate_expression M "2^-1" st)
                = returned (sub (c_pow M (literal "2") (literal "0")) (literal "1")))
    by (rewrite evaluate_expression_reply; reflexivity).
  assert (Hstages : forall da db c op,
            decimal_digits da -> decimal_digits db -> In (c, op) tighter_operators ->
            stages M st (returned NAN) (String.append da (String c (String "-" db)))
            = match apply_operator M op (mkValue (literal da) false)
                      (mkValue Double.zero false) with
              | inl e => failed e
              | inr v => returned (sub v (literal db))
              end).
  { intros da db c op Ha Hb Hop. unfold stages.
    rewrite (sign_after_operator_tokens st da db c op Ha Hb Hop).
    assert (Hsy : shunting_yard MAX_TOKENS
                    [TOKEN_NUMBER (literal da) false; TOKEN_OPERATOR op;
                     TOKEN_NUMBER Double.zero false; TOKEN_OPERATOR OP_SUB;
                     TOKEN_NUMBER (literal db) false]
                  = inr [TOKEN_NUMBER (literal da) false;
                         TOKEN_NUMBER Double.zero false; TOKEN_OPERATOR op;
                         TOKEN_NUMBER (literal db) false; TOKEN_OPERATOR OP_SUB])
      by (destruct op; reflexivity).
    rewrite Hsy, sign_after_operator_value.
    destruct (apply_operator M op _ _); reflexivity. }
  refine (conj _ (conj _ (conj _ (conj _ (conj _ (conj _ (conj _ (conj _
            (conj _ (conj _ (conj H21 (conj _ (conj _ _))))))))))))).
  - intros max_tokens fuel c op rest tokens e Hop Hroom.
    cbn [tokenize_loop].
    rewrite (tokenize_round_operator _ _ _ c op _ _ _ Hop) by lia.
    cbn [tokenize_loop].
    rewrite tokenize_round_sign by (rewrite length_app; simpl; lia).
    rewrite <- !app_assoc. reflexivity.
  - intros da db c op. apply sign_after_operator_tokens.
  - intros a pa b pb op. destruct op; reflexivity.
  - intros a pa b pb op. apply sign_after_operator_value.
  - intros da db Ha Hb. refine (conj _ (conj _ _)).
    + rewrite evaluate_expression_reply.
      apply (Hstages da db "*"%char OP_MUL Ha Hb). simpl; tauto.
    + rewrite evaluate_expression_reply.
      apply (Hstages da db "^"%char OP_POW Ha Hb). simpl; tauto.
    + rewrite evaluate_expression_stages.
      change (String.append da (String.append "/-" db))
        with (String.append da (String "/" (String "-" db))).
      rewrite (Hstages da db "/"%char OP_DIV Ha Hb) by (simpl; tauto).
      reflexivity.
  - reflexivity.
  - reflexivity.
  - rewrite evaluate_expression_reply. reflexivity.
  - rewrite evaluate_expression_reply. vm_compute. discriminate.
  - reflexivity.
  - intros H. rewrite H21, H. split; [reflexivity|vm_compute; discriminate].
  - reflexivity.
  - rewrite evaluate_expression_stages. reflexivity.
Qed.

Lemma unary_minus_after_operator_witness :
  (fst (evaluate_expression ExactPoints.lib "2^-1" startup) = returned (literal "0.0")
   /\ fst (evaluate_expression ExactPoints.lib "2^-1" startup) <> returned (literal "0.5"))
  /\ tokenize_loop startup MAX_TOKENS 2 "/-3" [TOKEN_NUMBER (literal "6") false] false
     = tokenize_loop startup MAX_TOKENS 0 "3"
         ([TOKEN_NUMBER (literal "6") false]
          ++ [TOKEN_OPERATOR OP_DIV; TOKEN_NUMBER Double.zero false;
              TOKEN_OPERATOR OP_SUB]) true
  /\ evaluate_expression ExactPoints.lib (String.append "12" (String.append "/-" "34"))
       startup
     = (failed DivByZero, startup).
Proof.
  destruct (unary_minus_after_operator ExactPoints.lib startup)
    as (Hlex & _ & _ & _ & Htext & _ & _ & _ & _ & _ & _ & Hpow & _).
  refine (conj _ (conj _ _)).
  - apply Hpow. vm_compute; reflexivity.
  - apply (Hlex MAX_TOKENS 0%nat "/"%char OP_DIV "3"
             [TOKEN_NUMBER (literal "6") false] false).
    + simpl; tauto.
    + vm_compute; lia.
  - apply (Htext "12" "34"); split; [discriminate|reflexivity|discriminate|reflexivity].
Defined.

(** ** Properties of the postfix evaluator *)

Lemma eval_loop_app (M : libm) (pre post : list Token) :
  forall stack,
    eval_loop M (pre ++ post) stack =
    match eval_loop M pre stack with
    | inl e => inl e
    | inr stack' => eval_loop M post stack'
    end.
Proof.
  induction pre as [|t pre IH]; intros stack; simpl; [reflexivity|].
  destruct (eval_token M t stack); [reflexivity|apply IH].
Qed.

(** An error of one token is the error of the whole evaluation. *)
Lemma evaluate_postfix_error (M : libm) (pre post : list Token) (token : Token)
      (stack : list Value) (e : Error) :
  eval_loop M pre [] = inr stack ->
  eval_token M token stack = inl e ->
  evaluate_postfix M (pre ++ token :: post) = failed e.
Proof.
  intros Hpre Htok. unfold evaluate_postfix.
  rewrite eval_loop_app, Hpre. simpl. rewrite Htok. reflexivity.
Qed.

(** C2.  Percentages are handled asymmetrically.  With a percentage as right
    operand, [+] and [-] add or subtract that percentage of the left
    operand, whether or not the left operand carries the tag; [*] and [/]
    replace every operand that carries the tag by its hundredth; a value
    that is still a percentage at the end of the evaluation is returned as
    its hundredth.  So "100 - 20%" is 80, "100 * 20%" is 20 and "20%" is
    0.20. *)
Theorem percentage_semantics (M : libm) (st : Calc) :
  (forall a b : Value,
     apply_operator M OP_ADD a b
     = inr (if is_percentage b
            then add (num a) (mul (div (num b) hundred) (num a))
            else add (num a) (num b))
     /\ apply_operator M OP_SUB a b
        = inr (if is_percentage b
               then sub (num a) (mul (div (num b) hundred) (num a))
               else sub (num a) (num b)))
  /\
  (forall a b : Value,
     let a' := if is_percentage a then div (num a) hundred else num a in
     let b' := if is_percentage b then div (num b) hundred else num b in
     apply_operator M OP_MUL a b = inr (mul a' b')
     /\ apply_operator M OP_DIV a b
        = if eqb b' Double.zero then inl DivByZero else inr (div a' b'))
  /\
  (forall a b : Value, forall op stack,
     (List.length stack < MAX_TOKENS)%nat ->
     eval_token M (TOKEN_OPERATOR op) (b :: a :: stack)
     = match apply_operator M op a b with
       | inl e => inl e
       | inr result => inr (mkValue result false :: stack)
       end)
  /\
  (forall n : double,
     evaluate_postfix M [TOKEN_NUMBER n true] = returned (div n hundred))
  /\ fst (evaluate_expression M "100 - 20%" st) = returned (literal "80.0")
  /\ fst (evaluate_expression M "100 * 20%" st) = returned (literal "20.0")
  /\ fst (evaluate_expression M "20%" st) = returned (literal "0.20").
Proof.
  refine (conj _ (conj _ (conj _ (conj _ (conj _ (conj _ _)))))).
  - intros a b. split; reflexivity.
  - intros a b. split; reflexivity.
  - intros a b op stack H. cbn [eval_token].
    destruct (apply_operator M op a b); [reflexivity|].
    unfold push_value. apply Nat.leb_gt in H. rewrite H. reflexivity.
  - intros n. reflexivity.
  - rewrite evaluate_expression_reply. reflexivity.
  - rewrite evaluate_expression_reply. reflexivity.
  - rewrite evaluate_expression_reply. reflexivity.
Qed.

Lemma percentage_semantics_witness :
  eval_token ExactPoints.lib (TOKEN_OPERATOR OP_SUB)
    [mkValue (literal "20") true; mkValue (literal "100") false]
  = inr [mkValue (literal "80") false].
Proof.
  destruct (percentage_semantics ExactPoints.lib startup) as (_ & _ & H & _).
  rewrite H.
  - reflexivity.
  - vm_compute. lia.
Defined.

(** C4.  Wherever the evaluation applies [/] to a divisor that is zero once
    its percentage has been resolved, it stops with the division-by-zero
    error, and wherever it applies [%] to a zero right operand it stops with
    the modulo-by-zero error: the reply is the error with NaN as return
    value, never an infinity or a quotient, and [evaluate_expression] fails
    without touching the calculator, as for "5 / 0", "5 / 0%" and "5 % 0". *)
Theorem division_by_zero_is_error (M : libm) (st : Calc) :
  (forall (pre post : list Token) (a b : Value) (stack : list Value),
     eval_loop M pre [] = inr (b :: a :: stack) ->
     (eqb (normalized b) Double.zero = true ->
      evaluate_postfix M (pre ++ TOKEN_OPERATOR OP_DIV :: post) = failed DivByZero)
     /\
     (eqb (num b) Double.zero = true ->
      evaluate_postfix M (pre ++ TOKEN_OPERATOR OP_MOD :: post) = failed ModByZero))
  /\ evaluate_expression M "5 / 0" st = (failed DivByZero, st)
  /\ evaluate_expression M "5 / 0%" st = (failed DivByZero, st)
  /\ evaluate_expression M "5 % 0" st = (failed ModByZero, st).
Proof.
  split; [|repeat split].
  intros pre post a b stack Hpre. split; intros Hz;
    apply (evaluate_postfix_error M pre post _ _ _ Hpre);
    cbn [eval_token apply_operator]; rewrite Hz; reflexivity.
Qed.

Lemma division_by_zero_is_error_witness :
  evaluate_postfix ExactPoints.lib
    ([TOKEN_NUMBER (literal "5") false; TOKEN_NUMBER (literal "0") true]
       ++ TOKEN_OPERATOR OP_DIV :: [])
  = failed DivByZero
  /\ evaluate_postfix ExactPoints.lib
       ([TOKEN_NUMBER (literal "5") false; TOKEN_NUMBER (literal "0") true]
          ++ TOKEN_OPERATOR OP_MOD :: [TOKEN_NUMBER (literal "1") false])
     = failed ModByZero.
Proof.
  assert (Hpre : eval_loop ExactPoints.lib
                   [TOKEN_NUMBER (literal "5") false; TOKEN_NUMBER (literal "0") true]
                   []
                 = inr [mkValue (literal "0") true; mkValue (literal "5") false])
    by (vm_compute; reflexivity).
  destruct (division_by_zero_is_error ExactPoints.lib startup) as [H _].
  split.
  - apply (H _ [] _ _ [] Hpre). vm_compute; reflexivity.
  - apply (H _ [TOKEN_NUMBER (literal "1") false] _ _ [] Hpre).
    vm_compute; reflexivity.
Defined.

(** The smallest counterexample to a domain check on every argument that is
    not positive: the logarithm of a NaN.  "inf - inf" is NaN, which is not
    greater than 0, and yet "log(inf - inf)" reports no domain error: the
    guard [arg_val <= 0.0] is false for NaN and [log] is called. *)
Lemma log_of_nan_is_no_domain_error :
  fst (evaluate_expression ExactPoints.lib "inf - inf" startup) = returned NAN
  /\ gtb NAN Double.zero = false
  /\ diag (fst (evaluate_expression ExactPoints.lib "log(inf - inf)" startup)) = None
  /\ fst (evaluate_expression ExactPoints.lib "log(inf - inf)" startup)
     <> failed (DomainError FUNC_LOG).
Proof.
  split; [reflexivity|]. split; [reflexivity|]. split; [reflexivity|].
  vm_compute. discriminate.
Qed.

(** C5, amended.  The domain checks are comparisons: [asin] and [acos] stop
    with a domain error when the argument, its percentage resolved, is less
    than -1 or greater than 1, [log] when it is less than or equal to 0 and
    [sqrt] when it is less than 0, and the error of the function is the
    error of the whole evaluation.  A NaN argument satisfies none of these
    comparisons: each of the four functions is then called on it, and the
    evaluation reports no domain error, as on "inf - inf".  "sqrt(-1)",
    "log(0)" and "asin(2)" fail with a domain error. *)
Theorem domain_checks (M : libm) (st : Calc) :
  (forall arg : Value,
     (ltb (normalized arg) minus_one = true \/ gtb (normalized arg) one = true ->
      apply_function M FUNC_ASIN arg = inl (DomainError FUNC_ASIN)
      /\ apply_function M FUNC_ACOS arg = inl (DomainError FUNC_ACOS))
     /\ (leb (normalized arg) Double.zero = true ->
         apply_function M FUNC_LOG arg = inl (DomainError FUNC_LOG))
     /\ (ltb (normalized arg) Double.zero = true ->
         apply_function M FUNC_SQRT arg = inl (DomainError FUNC_SQRT)))
  /\
  (forall pre post func arg stack e,
     eval_loop M pre [] = inr (arg :: stack) ->
     apply_function M func arg = inl e ->
     evaluate_postfix M (pre ++ TOKEN_FUNCTION func :: post) = failed e)
  /\
  (forall pct, apply_function M FUNC_LOG (mkValue NAN pct) = inr (c_log M NAN))
  /\
  (forall arg : Value,
     isnan (normalized arg) = true ->
     apply_function M FUNC_ASIN arg = inr (c_asin M (normalized arg))
     /\ apply_function M FUNC_ACOS arg = inr (c_acos M (normalized arg))
     /\ apply_function M FUNC_LOG arg = inr (c_log M (normalized arg))
     /\ apply_function M FUNC_SQRT arg = inr (Double.sqrt (normalized arg)))
  /\
  (forall pct,
     apply_function M FUNC_ASIN (mkValue NAN pct) = inr (c_asin M NAN)
     /\ apply_function M FUNC_ACOS (mkValue NAN pct) = inr (c_acos M NAN)
     /\ apply_function M FUNC_SQRT (mkValue NAN pct) = inr NAN)
  /\
  (fst (evaluate_expression M "inf - inf" st) = returned NAN
   /\ fst (evaluate_expression M "asin(inf - inf)" st) = returned (c_asin M NAN)
   /\ fst (evaluate_expression M "acos(inf - inf)" st) = returned (c_acos M NAN)
   /\ fst (evaluate_expression M "log(inf - inf)" st) = returned (c_log M NAN)
   /\ fst (evaluate_expression M "sqrt(inf - inf)" st) = returned NAN)
  /\ evaluate_expression M "sqrt(-1)" st = (failed (DomainError FUNC_SQRT), st)
  /\ evaluate_expression M "log(0)" st = (failed (DomainError FUNC_LOG), st)
  /\ evaluate_expression M "asin(2)" st = (failed (DomainError FUNC_ASIN), st).
Proof.
  refine (conj _ (conj _ (conj _ (conj _ (conj _ (conj _ (conj _ (conj _ _))))))));
    try reflexivity.
  - intros arg. unfold apply_function. cbv zeta. split; [|split].
    + intros H. apply orb_true_iff in H. rewrite H. split; reflexivity.
    + intros H. rewrite H. reflexivity.
    + intros H. rewrite H. reflexivity.
  - intros pre post func arg stack e Hpre Hf.
    apply (evaluate_postfix_error M pre post _ _ _ Hpre).
    cbn [eval_token]. rewrite Hf. reflexivity.
  - intros [|]; reflexivity.
  - intros arg Hnan. unfold apply_function. cbv zeta.
    destruct (normalized arg); try discriminate Hnan.
    refine (conj _ (conj _ (conj _ _))); reflexivity.
  - intros [|]; refine (conj _ (conj _ _)); reflexivity.
  - rewrite !evaluate_expression_reply.
    refine (conj _ (conj _ (conj _ (conj _ _)))); reflexivity.
Qed.

Lemma domain_checks_witness :
  apply_function ExactPoints.lib FUNC_ASIN (mkValue (literal "200") true)
  = inl (DomainError FUNC_ASIN)
  /\ apply_function ExactPoints.lib FUNC_LOG (mkValue (literal "0") false)
     = inl (DomainError FUNC_LOG)
  /\ apply_function ExactPoints.lib FUNC_SQRT (mkValue (SFopp (literal "1")) false)
     = inl (DomainError FUNC_SQRT)
  /\ evaluate_postfix ExactPoints.lib
       ([TOKEN_NUMBER (literal "2") false] ++ TOKEN_FUNCTION FUNC_ACOS :: [])
     = failed (DomainError FUNC_ACOS)
  /\ apply_function ExactPoints.lib FUNC_SQRT (mkValue NAN true)
     = inr (Double.sqrt (normalized (mkValue NAN true))).
Proof.
  destruct (domain_checks ExactPoints.lib startup) as (H & Hloop & _ & Hnan & _).
  split; [|split; [|split; [|split]]];
    [| | | |apply (Hnan (mkValue NAN true)); reflexivity].
  - apply (H (mkValue (literal "200") true)). right. vm_compute; reflexivity.
  - apply (H (mkValue (literal "0") false)). vm_compute; reflexivity.
  - apply (H (mkValue (SFopp (literal "1")) false)). vm_compute; reflexivity.
  - apply (Hloop [TOKEN_NUMBER (literal "2") false] [] FUNC_ACOS
             (mkValue (literal "2") false) []); vm_compute; reflexivity.
Defined.

(** ** Properties of the tokenizer *)

Lemma identifier_start_not_nul (c : ascii) :
  is_identifier_start c = true -> is_char c Ascii.zero = false.
Proof.
  intros H. destruct (is_char c Ascii.zero) eqn:E; [|reflexivity].
  apply Ascii.eqb_eq in E. subst c. discriminate H.
Qed.

(** An identifier of 32 characters that names nothing is rejected for its
    length, not as an unknown identifier. *)
Lemma long_unknown_identifier_is_too_long :
  String.length long_identifier = 32%nat
  /\ constant_value long_identifier startup = None
  /\ function_lookup long_identifier function_map = FUNC_INVALID
  /\ find_variable long_identifier startup = None
  /\ tokenize startup MAX_TOKENS long_identifier = inl IdentifierTooLong
  /\ tokenize startup MAX_TOKENS long_identifier
     <> inl (UnknownIdentifier long_identifier).
Proof.
  repeat (split; [reflexivity|]). vm_compute. discriminate.
Qed.

(** C7, amended.  Whenever the tokenizer, with room left for a token, stands
    at an identifier that is not followed by [=], is no constant, no function
    name and no variable of the store, it stops with an error and produces
    no token for it: the unknown-identifier error when the identifier has at
    most 31 characters, and the identifier-too-long error otherwise. *)
Theorem unknown_identifier_fails (st : Calc) (max_tokens fuel : nat)
        (p : string) (tokens : list Token) (expecting_operand : bool)
        (c : ascii) (rest identifier p1 : string) :
  skip_spaces p = String c rest ->
  is_identifier_start c = true ->
  span is_identifier_char (String c rest) = (identifier, p1) ->
  (List.length tokens < max_tokens)%nat ->
  is_char (peek (skip_spaces p1)) "=" = false ->
  constant_value identifier st = None ->
  function_lookup identifier function_map = FUNC_INVALID ->
  find_variable identifier st = None ->
  tokenize_loop st max_tokens (S fuel) p tokens expecting_operand
  = if (String.length identifier <? MAX_IDENTIFIER_LEN)%nat
    then inl (UnknownIdentifier identifier)
    else inl IdentifierTooLong.
Proof.
  intros Hskip Hstart Hspan Hroom Hnext Hconst Hfunc Hvar.
  cbn [tokenize_loop]. unfold tokenize_round.
  rewrite Hskip, (identifier_start_not_nul c Hstart).
  apply Nat.leb_gt in Hroom. rewrite Hroom, Hstart, Hspan.
  rewrite Nat.ltb_antisym.
  destruct (MAX_IDENTIFIER_LEN <=? String.length identifier)%nat; [reflexivity|].
  cbn [negb].
  assert (Hres : resolve_identifier identifier st = inl (UnknownIdentifier identifier))
    by (unfold resolve_identifier; rewrite Hconst, Hfunc, Hvar; reflexivity).
  rewrite Hres.
  destruct (skip_spaces p1) as [|c1 after]; [reflexivity|].
  cbn [peek] in Hnext.
  destruct c1 as [[] [] [] [] [] [] [] []]; try reflexivity.
  discriminate Hnext.
Qed.

Lemma unknown_identifier_fails_witness :
  tokenize_loop startup MAX_TOKENS 12 " unknown_var + 1"
    [TOKEN_NUMBER (literal "2") false; TOKEN_OPERATOR OP_MUL] true
  = inl (UnknownIdentifier "unknown_var").
Proof.
  apply (unknown_identifier_fails startup MAX_TOKENS 11 " unknown_var + 1" _ true
           "u" "nknown_var + 1" "unknown_var" " + 1");
    try reflexivity.
  vm_compute. lia.
Defined.

(** ** Properties of the interactive loop *)

(** C8.  The reserved-word test of [main] knows only [help], [exit], [pi],
    [e] and [sin].  An assignment to any other function, constant or command
    name is carried out: "cos = 5" creates a variable [cos], although [cos]
    in an expression always denotes the function, so that the variable can
    never be read; "phi = 2" and "quit = 1" are carried out as well, while
    "sin = 5" is rejected. *)
Theorem assignment_to_function_name_is_performed (M : libm) :
  (forall var_name,
     reserved_name var_name = true <-> In var_name ["help"; "exit"; "pi"; "e"; "sin"])
  /\ function_lookup "cos" function_map = FUNC_COS
  /\ fst (interactive_step M "cos = 5" startup)
     = Assignment "cos" (returned (literal "5"))
  /\ lookup "cos" (snd (interactive_step M "cos = 5" startup)) = Some (literal "5")
  /\ fst (evaluate_expression M "cos" (snd (interactive_step M "cos = 5" startup)))
     = failed InsufficientArguments
  /\ fst (interactive_step M "phi = 2" startup)
     = Assignment "phi" (returned (literal "2"))
  /\ fst (interactive_step M "quit = 1" startup)
     = Assignment "quit" (returned (literal "1"))
  /\ fst (interactive_step M "sin = 5" startup)
     = AssignmentRejected (ReservedName "sin").
Proof.
  split; [|repeat (split; [reflexivity|]); reflexivity].
  intros var_name. unfold reserved_name. rewrite !orb_true_iff, !String.eqb_eq.
  simpl. intuition congruence.
Qed.

(** ** Examples from the test suite

    Some of the expressions of [nmri_tests.c] that need nothing of [libm]
    beyond what C99 fixes; the results are exact. *)

Ltac evaluate := rewrite evaluate_expression_reply; reflexivity.

Example test_unary_minus (M : libm) (st : Calc) :
  fst (evaluate_expression M "-7" st) = returned (SFopp (literal "7.0")).
Proof. evaluate. Qed.

Example test_complex_expression (M : libm) (st : Calc) :
  fst (evaluate_expression M "2 + 3 * 4 / 2 - 1" st) = returned (literal "7.0").
Proof. evaluate. Qed.

Example test_nested_parentheses (M : libm) (st : Calc) :
  fst (evaluate_expression M "((2+3) * (4-1)) / 3" st) = returned (literal "5.0").
Proof. evaluate. Qed.

Example test_percentage_chain (M : libm) (st : Calc) :
  fst (evaluate_expression M "100 + 20% + 10%" st) = returned (literal "132.0").
Proof. evaluate. Qed.

Example test_percentage_division (M : libm) (st : Calc) :
  fst (evaluate_expression M "(500 * 20%) / 10%" st) = returned (literal "1000.0").
Proof. evaluate. Qed.

Example test_scientific_notation (M : libm) (st : Calc) :
  fst (evaluate_expression M "1.2e3 + 3.4e2" st) = returned (literal "1540.0").
Proof. evaluate. Qed.

Example test_sqrt_abs (M : libm) (st : Calc) :
  fst (evaluate_expression M "sqrt(abs(-16))" st) = returned (literal "4.0").
Proof. evaluate. Qed.

Example test_invalid_expression (M : libm) (st : Calc) :
  evaluate_expression M "5 +" st = (failed (InsufficientOperands OP_ADD), st).
Proof. reflexivity. Qed.

Example test_ans (M : libm) (st : Calc) :
  fst (evaluate_expression M "ans + 1"
         (snd (evaluate_expression M "7 * 7" st)))
  = returned (literal "50.0").
Proof.
  rewrite (evaluate_expression_stages M "7 * 7").
  change (stages M st (returned NAN) "7 * 7") with (returned (literal "49.0")).
  cbv zeta. change (isnan (ret (returned (literal "49.0")))) with false. cbv iota.
  cbn [snd]. rewrite evaluate_expression_reply.
  unfold stages, tokenize. cbn [String.length tokenize_loop].
  unfold tokenize_round at 1.
  change (skip_spaces "ans + 1") with "ans + 1".
  cbn -[tokenize_loop tokenize_round resolve_identifier set_variable].
  unfold resolve_identifier, constant_value. cbn [String.eqb Ascii.eqb Bool.eqb].
  rewrite last_result_set_variable. reflexivity.
Qed.

(** * Further properties of the code *)

(** ** What the tokenizer produces *)

Lemma resolve_identifier_lexeme (identifier : string) (st : Calc) (tok : Token) :
  resolve_identifier identifier st = inr tok -> lexeme tok.
Proof.
  unfold resolve_identifier.
  destruct (constant_value identifier st); [intros H; injection H as <-; exact I|].
  destruct (function_lookup identifier function_map);
    try (intros H; injection H as <-; exact I).
  destruct (find_variable identifier st); [|discriminate].
  intros H; injection H as <-; exact I.
Qed.

(** A property of the token array that holds before the loop and survives
    every write into a free cell holds when the loop is over. *)
Lemma tokenize_loop_invariant (st : Calc) (max_tokens : nat)
      (P : list Token -> Prop) :
  (forall tokens tok,
      P tokens -> (List.length tokens < max_tokens)%nat -> lexeme tok ->
      P (tokens ++ [tok])) ->
  forall fuel p tokens e result,
    P tokens ->
    tokenize_loop st max_tokens fuel p tokens e = inr result ->
    P result.
Proof.
  intros Hstep. induction fuel as [|fuel IH]; intros p tokens e result HP H.
  - injection H as <-. exact HP.
  - cbn [tokenize_loop] in H. unfold tokenize_round in H.
    destruct (skip_spaces p) as [|c rest]; [injection H as <-; exact HP|].
    destruct (is_char c Ascii.zero); [injection H as <-; exact HP|].
    destruct (max_tokens <=? Datatypes.length tokens)%nat eqn:Eroom; [discriminate|].
    apply Nat.leb_gt in Eroom.
    assert (Hone : forall tok, lexeme tok -> P (tokens ++ [tok]))
      by (intros; apply Hstep; assumption).
    destruct (is_identifier_start c).
    { destruct (span is_identifier_char (String c rest)) as [identifier p1].
      destruct (MAX_IDENTIFIER_LEN <=? String.length identifier)%nat; [discriminate|].
      assert (Hres : match resolve_identifier identifier st with
                     | inl e0 => inl e0
                     | inr tok =>
                         tokenize_loop st max_tokens fuel p1 (tokens ++ [tok])
                           match tok with
                           | TOKEN_NUMBER _ _ => false
                           | _ => true
                           end
                     end = inr result -> P result).
      { destruct (resolve_identifier identifier st) as [e0|tok] eqn:Er; [discriminate|].
        apply IH, Hone. eapply resolve_identifier_lexeme, Er. }
      destruct (skip_spaces p1) as [|c1 after]; [exact (Hres H)|].
      destruct c1 as [[] [] [] [] [] [] [] []]; try exact (Hres H).
      revert H. apply IH, Hone. exact I. }
    destruct (starts_number (String c rest)).
    { destruct (Strtod.strtod (String c rest)) as [number e0].
      destruct (String.length (String c rest) <=? String.length e0)%nat; [discriminate|].
      destruct e0 as [|c0 e1]; [revert H; apply IH, Hone; exact I|].
      destruct c0 as [[] [] [] [] [] [] [] []]; revert H; apply IH, Hone; exact I. }
    destruct (is_operator_char c).
    { destruct ((is_char c "-" || is_char c "+") && e).
      - cbv zeta in H.
        destruct (max_tokens <=? Datatypes.length (tokens ++ _))%nat eqn:E2;
          [discriminate|].
        apply Nat.leb_gt in E2.
        destruct (char_to_op c); [|discriminate].
        revert H. apply IH, Hstep; [apply Hone; exact I|exact E2|exact I].
      - destruct (char_to_op c); [|discriminate].
        revert H. apply IH, Hone. exact I. }
    destruct (is_char c "("); [revert H; apply IH, Hone; exact I|].
    destruct (is_char c ")"); [revert H; apply IH, Hone; exact I|discriminate].
Qed.

(** X1.  A successful [tokenize] never fills more than [max_tokens] cells of
    the token array, and it only writes numbers, operators, functions of
    the function map, parentheses and assignment markers: never a variable
    token and never the invalid function. *)
Theorem tokenize_output (st : Calc) (max_tokens : nat) (input : string)
        (tokens : list Token) :
  tokenize st max_tokens input = inr tokens ->
  (List.length tokens <= max_tokens)%nat /\ Forall lexeme tokens.
Proof.
  intros H. split.
  - apply (tokenize_loop_invariant st max_tokens
             (fun t => (List.length t <= max_tokens)%nat)) in H; [exact H| |simpl; lia].
    intros t tok _ Hlt _. rewrite length_app. simpl. lia.
  - apply (tokenize_loop_invariant st max_tokens (Forall lexeme)) in H;
      [exact H| |constructor].
    intros t tok Ht _ Hl. apply Forall_app. split; [exact Ht|]. constructor; [exact Hl|constructor].
Qed.

Lemma tokenize_output_witness :
  (List.length
     [TOKEN_NUMBER Double.zero false; TOKEN_OPERATOR OP_SUB;
      TOKEN_NUMBER (variable_value 0 startup) false] <= 3)%nat
  /\ Forall lexeme
       [TOKEN_NUMBER Double.zero false; TOKEN_OPERATOR OP_SUB;
        TOKEN_NUMBER (variable_value 0 startup) false].
Proof.
  apply (tokenize_output startup 3 "-ans"). vm_compute. reflexivity.
Defined.

(** ** White space *)

Lemma skip_spaces_blank (ws rest : string) :
  string_forallb isspace ws = true ->
  skip_spaces (String.append ws rest) = skip_spaces rest.
Proof.
  unfold skip_spaces. induction ws as [|c ws IH]; simpl; [reflexivity|].
  intros H. apply andb_true_iff in H as [Hc Hws]. rewrite Hc.
  specialize (IH Hws). destruct (span isspace (String.append ws rest)). exact IH.
Qed.

Lemma tokenize_leading_space (st : Calc) (max_tokens : nat) (ws input : string) :
  string_forallb isspace ws = true ->
  tokenize st max_tokens (String.append ws input) = tokenize st max_tokens input.
Proof.
  intros Hws. unfold tokenize. rewrite append_length.
  destruct (String.length ws + String.length input)%nat as [|n] eqn:En.
  - assert (String.length input = 0)%nat as -> by lia. reflexivity.
  - rewrite (tokenize_loop_fuel st max_tokens (String.length input) (S n)) by lia.
    cbn [tokenize_loop]. unfold tokenize_round.
    rewrite (skip_spaces_blank ws input Hws). reflexivity.
Qed.

Lemma tokenize_blank (st : Calc) (max_tokens : nat) (input : string) :
  string_forallb isspace input = true -> tokenize st max_tokens input = inr [].
Proof.
  intros H.
  assert (Hs : skip_spaces input = EmptyString).
  { pose proof (skip_spaces_blank input EmptyString H) as E.
    assert (String.append input EmptyString = input) as Happ.
    { clear. induction input as [|c r IH]; simpl; [reflexivity|]. rewrite IH. reflexivity. }
    rewrite Happ in E. exact E. }
  unfold tokenize. destruct (String.length input); [reflexivity|].
  cbn [tokenize_loop]. unfold tokenize_round. rewrite Hs. reflexivity.
Qed.

(** X2.  White space in front of an expression changes nothing: both entry
    points treat the text with and without it alike. *)
Theorem leading_space_is_ignored (M : libm) (st : Calc)
        (ws input var_name : string) :
  string_forallb isspace ws = true ->
  evaluate_expression M (String.append ws input) st = evaluate_expression M input st
  /\ handle_assignment M var_name (String.append ws input) st
     = handle_assignment M var_name input st.
Proof.
  intros H. unfold evaluate_expression, handle_assignment.
  rewrite (tokenize_leading_space st MAX_TOKENS ws input H). split; reflexivity.
Qed.

Lemma leading_space_is_ignored_witness :
  evaluate_expression ExactPoints.lib (String.append "  " "1+1") startup
  = evaluate_expression ExactPoints.lib "1+1" startup
  /\ handle_assignment ExactPoints.lib "x" (String.append "  " "1+1") startup
     = handle_assignment ExactPoints.lib "x" "1+1" startup.
Proof.
  apply (leading_space_is_ignored ExactPoints.lib startup "  " "1+1" "x").
  reflexivity.
Defined.

(** X3.  A text of white space only (the empty text included) holds no
    expression: [evaluate_expression] returns NaN without reporting an
    error, [handle_assignment] reports the missing expression, and neither
    changes the calculator. *)
Theorem blank_input_is_rejected (M : libm) (st : Calc) (input var_name : string) :
  string_forallb isspace input = true ->
  evaluate_expression M input st = (returned NAN, st)
  /\ handle_assignment M var_name input st
     = (failed (MissingExpression var_name), st).
Proof.
  intros H. unfold evaluate_expression, handle_assignment.
  rewrite (tokenize_blank st MAX_TOKENS input H). split; reflexivity.
Qed.

Lemma blank_input_is_rejected_witness :
  evaluate_expression ExactPoints.lib "   " startup = (returned NAN, startup)
  /\ handle_assignment ExactPoints.lib "x" "   " startup
     = (failed (MissingExpression "x"), startup).
Proof.
  apply (blank_input_is_rejected ExactPoints.lib startup "   " "x"). reflexivity.
Defined.

(** ** The rounds of the shunting-yard conversion *)

Lemma emit_ok (max_output : nat) (output : list Token) (t : Token) (output' : list Token) :
  emit max_output output t = inr output' -> output' = output ++ [t].
Proof.
  unfold emit. destruct (max_output <=? Datatypes.length output)%nat; [discriminate|].
  intros H; injection H as <-; reflexivity.
Qed.

Lemma emit_error (max_output : nat) (output : list Token) (t : Token) (e : Error) :
  emit max_output output t = inl e ->
  e = OutputOverflow /\ (max_output <= List.length output)%nat.
Proof.
  unfold emit. destruct (max_output <=? Datatypes.length output)%nat eqn:E; [|discriminate].
  intros H; injection H as <-. apply Nat.leb_le in E. auto.
Qed.

Lemma pop_operators_ok (max_output : nat) (op : OperatorType) :
  forall op_stack output op_stack' output',
    pop_operators max_output op op_stack output = inr (op_stack', output') ->
    exists popped,
      op_stack = popped ++ op_stack' /\ output' = output ++ popped
      /\ Forall (fun t => is_operator t = true) popped.
Proof.
  induction op_stack as [|t below IH]; intros output s' o' H; simpl in H.
  - injection H as <- <-. exists []. rewrite !app_nil_r. auto.
  - assert (Hstop : @inr Error _ (t :: below, output) = inr (s', o') ->
                    exists popped,
                      t :: below = popped ++ s' /\ o' = output ++ popped
                      /\ Forall (fun t => is_operator t = true) popped).
    { intros E; injection E as <- <-. exists []. rewrite !app_nil_r. auto. }
    destruct t as [n p|top|f| | |v|v]; try exact (Hstop H).
    destruct (pops_before op top); [|exact (Hstop H)].
    destruct (emit max_output output (TOKEN_OPERATOR top)) as [e|output1] eqn:Ee;
      [discriminate|].
    apply emit_ok in Ee. subst output1.
    destruct (IH _ _ _ H) as (popped & -> & -> & Hp).
    exists (TOKEN_OPERATOR top :: popped). rewrite <- app_assoc. simpl.
    repeat split; auto.
Qed.

Lemma pop_to_lparen_ok (max_output : nat) :
  forall op_stack output op_stack' output',
    pop_to_lparen max_output op_stack output = inr (op_stack', output') ->
    exists popped,
      op_stack = popped ++ op_stack' /\ output' = output ++ popped
      /\ Forall (fun t => is_lparen t = false) popped
      /\ (op_stack' = [] \/ exists below, op_stack' = TOKEN_LPAREN :: below).
Proof.
  induction op_stack as [|t below IH]; intros output s' o' H; simpl in H.
  - injection H as <- <-. exists []. rewrite !app_nil_r. auto.
  - assert (Hgo : match emit max_output output t with
                  | inl e => inl e
                  | inr output1 => pop_to_lparen max_output below output1
                  end = inr (s', o') ->
                  is_lparen t = false ->
                  exists popped,
                    t :: below = popped ++ s' /\ o' = output ++ popped
                    /\ Forall (fun t => is_lparen t = false) popped
                    /\ (s' = [] \/ exists below', s' = TOKEN_LPAREN :: below')).
    { intros E Ht.
      destruct (emit max_output output t) as [e|output1] eqn:Ee; [discriminate|].
      apply emit_ok in Ee. subst output1.
      destruct (IH _ _ _ E) as (popped & -> & -> & Hp & Hs).
      exists (t :: popped). rewrite <- app_assoc. simpl. repeat split; auto. }
    destruct t as [n p|top|f| | |v|v]; try (apply Hgo; [exact H|reflexivity]).
    injection H as <- <-. exists []. rewrite !app_nil_r. repeat split; eauto.
Qed.

Lemma pop_remaining_ok (max_output : nat) :
  forall op_stack output output',
    pop_remaining max_output op_stack output = inr output' ->
    output' = output ++ op_stack /\ Forall (fun t => is_lparen t = false) op_stack.
Proof.
  induction op_stack as [|t below IH]; intros output o' H; simpl in H.
  - injection H as <-. rewrite !app_nil_r. auto.
  - assert (Hgo : match emit max_output output t with
                  | inl e => inl e
                  | inr output1 => pop_remaining max_output below output1
                  end = inr o' ->
                  is_lparen t = false ->
                  o' = output ++ t :: below
                  /\ Forall (fun t => is_lparen t = false) (t :: below)).
    { intros E Ht.
      destruct (emit max_output output t) as [e|output1] eqn:Ee; [discriminate|].
      apply emit_ok in Ee. subst output1.
      destruct (IH _ _ E) as (-> & Hp). rewrite <- app_assoc. simpl. auto. }
    destruct t as [n p|top|f| | |v|v]; try (apply Hgo; [exact H|reflexivity]).
    discriminate.
Qed.

Lemma push_ok (op_stack output : list Token) (t : Token) (op_stack' output' : list Token) :
  push op_stack output t = inr (op_stack', output') ->
  op_stack' = t :: op_stack /\ output' = output.
Proof.
  unfold push. destruct (stack_full op_stack); [discriminate|].
  intros H; injection H as <- <-; auto.
Qed.

(** A round that succeeds is one of the six steps. *)
Lemma shunt_sound (max_output : nat) (token : Token)
      (op_stack output op_stack' output' : list Token) :
  shunt max_output token op_stack output = inr (op_stack', output') ->
  shunt_step token op_stack output op_stack' output'.
Proof.
  destruct token as [n p|op|f| | |v|v]; cbn [shunt]; intros H.
  - destruct (emit max_output output (TOKEN_NUMBER n p)) as [e|o1] eqn:Ee;
      [discriminate|].
    apply emit_ok in Ee. injection H as <- <-. subst o1. constructor.
  - destruct (pop_operators max_output op op_stack output) as [e|[s1 o1]] eqn:Ep;
      [discriminate|].
    apply pop_operators_ok in Ep as (popped & -> & -> & Hp).
    apply push_ok in H as [-> ->]. constructor. exact Hp.
  - apply push_ok in H as [-> ->]. constructor.
  - apply push_ok in H as [-> ->]. constructor.
  - destruct (pop_to_lparen max_output op_stack output) as [e|[s1 o1]] eqn:Ep;
      [discriminate|].
    apply pop_to_lparen_ok in Ep as (popped & -> & -> & Hp & Hs).
    destruct s1 as [|t below]; [discriminate|].
    destruct Hs as [Hs|[below' Hs]]; [discriminate|].
    injection Hs as -> ->.
    destruct below' as [|t1 below1].
    + injection H as <- <-. constructor. exact Hp.
    + destruct t1 as [n p|op|f| | |v|v];
        try (injection H as <- <-; constructor; exact Hp).
      destruct (emit max_output (output ++ popped) (TOKEN_FUNCTION f)) as [e|o1] eqn:Ee;
        [discriminate|].
      apply emit_ok in Ee. injection H as <- <-. subst o1.
      rewrite <- app_assoc. constructor. exact Hp.
  - discriminate.
  - discriminate.
Qed.

Lemma filter_all {A : Type} (f : A -> bool) (l : list A) :
  Forall (fun x => f x = true) l -> filter f l = l.
Proof.
  induction 1 as [|x l Hx _ IH]; simpl; [reflexivity|]. rewrite Hx, IH. reflexivity.
Qed.

Lemma filter_none {A : Type} (f : A -> bool) (l : list A) :
  Forall (fun x => f x = false) l -> filter f l = [].
Proof.
  induction 1 as [|x l Hx _ IH]; simpl; [reflexivity|]. rewrite Hx. exact IH.
Qed.

Lemma operators_not_lparen (l : list Token) :
  Forall (fun t => is_operator t = true) l -> Forall (fun t => is_lparen t = false) l.
Proof.
  apply Forall_impl. intros [n p|op|f| | |v|v]; simpl; congruence.
Qed.

Lemma keep_not_lparen (l : list Token) :
  Forall (fun t => is_lparen t = false) l ->
  filter (fun t => negb (is_lparen t)) l = l.
Proof.
  intros H. apply filter_all. revert H. apply Forall_impl.
  intros t Ht. rewrite Ht. reflexivity.
Qed.

(** The tokens of the output, of the stack and of the input still to come
    make up the postfix expression. *)
Lemma shunting_loop_permutation (max_output : nat) :
  forall tokens op_stack output postfix,
    shunting_loop max_output tokens op_stack output = inr postfix ->
    Permutation postfix
      (output ++ filter (fun t => negb (is_lparen t)) op_stack
              ++ filter (fun t => negb (is_paren t)) tokens).
Proof.
  induction tokens as [|token tokens IH]; intros s o r H; cbn [shunting_loop] in H.
  - apply pop_remaining_ok in H as [-> Hs]. simpl. rewrite app_nil_r.
    rewrite (keep_not_lparen s Hs). reflexivity.
  - destruct (shunt max_output token s o) as [e|[s1 o1]] eqn:Es; [discriminate|].
    apply shunt_sound in Es. apply IH in H. rewrite H. clear H IH.
    inversion Es as [n pct s0 o0|f s0 o0|s0 o0|op popped below o0 Hp
                     |popped below o0 Hp|popped f below o0 Hp];
      subst; clear Es; cbn [filter is_paren is_lparen is_rparen negb orb];
      rewrite ?filter_app; cbn [filter is_lparen negb];
      try rewrite (keep_not_lparen popped) by auto using operators_not_lparen;
      rewrite <- ?app_assoc; cbn [app].
    + apply Permutation_app_head. apply Permutation_middle.
    + apply Permutation_app_head.
      apply (Permutation_middle (filter (fun t => negb (is_lparen t)) s)).
    + reflexivity.
    + do 2 apply Permutation_app_head.
      apply (Permutation_middle (filter (fun t => negb (is_lparen t)) below)).
    + reflexivity.
    + reflexivity.
Qed.

(** A stack without numbers never gets one, so the numbers reach the output
    in the order of the input. *)
Lemma shunting_loop_numbers (max_output : nat) :
  forall tokens op_stack output postfix,
    Forall (fun t => is_number t = false) op_stack ->
    shunting_loop max_output tokens op_stack output = inr postfix ->
    filter is_number postfix = filter is_number output ++ filter is_number tokens.
Proof.
  induction tokens as [|token tokens IH]; intros s o r Hs H; cbn [shunting_loop] in H.
  - apply pop_remaining_ok in H as [-> _]. rewrite filter_app, (filter_none _ _ Hs).
    reflexivity.
  - destruct (shunt max_output token s o) as [e|[s1 o1]] eqn:Es; [discriminate|].
    apply shunt_sound in Es.
    inversion Es as [n pct s0 o0|f s0 o0|s0 o0|op popped below o0 Hq
                     |popped below o0 Hq|popped f below o0 Hq];
      subst; clear Es;
      try (apply Forall_app in Hs as [Hp Hb]);
      try (apply Forall_cons_iff in Hb as [_ Hb]).
    + apply IH in H; [|exact Hs].
      rewrite H, filter_app, <- app_assoc. reflexivity.
    + apply IH in H; [exact H|constructor; [reflexivity|exact Hs]].
    + apply IH in H; [exact H|constructor; [reflexivity|exact Hs]].
    + apply IH in H; [|constructor; [reflexivity|exact Hb]].
      rewrite H, filter_app, (filter_none _ _ Hp), app_nil_r. reflexivity.
    + apply IH in H; [|exact Hb].
      rewrite H, filter_app, (filter_none _ _ Hp), app_nil_r. reflexivity.
    + apply Forall_cons_iff in Hb as [_ Hb]. apply IH in H; [|exact Hb].
      rewrite H, !filter_app, (filter_none _ _ Hp), app_nil_r. reflexivity.
Qed.

(** An assignment marker or a variable token stops the conversion. *)
Lemma shunting_loop_name (max_output : nat) :
  forall tokens op_stack output,
    existsb is_name tokens = true ->
    exists e, shunting_loop max_output tokens op_stack output = inl e.
Proof.
  induction tokens as [|token tokens IH]; intros s o H; [discriminate|].
  cbn [shunting_loop].
  destruct (shunt max_output token s o) as [e|[s1 o1]] eqn:Es; [eauto|].
  cbn [existsb] in H. apply orb_true_iff in H as [H|H]; [|apply IH, H].
  destruct token; try discriminate H; discriminate Es.
Qed.

(** The left parentheses on the stack are those still to be closed. *)
Lemma shunting_loop_parentheses (max_output : nat) :
  forall tokens op_stack output postfix,
    shunting_loop max_output tokens op_stack output = inr postfix ->
    (List.length (filter is_lparen op_stack) + List.length (filter is_lparen tokens)
     = List.length (filter is_rparen tokens))%nat.
Proof.
  induction tokens as [|token tokens IH]; intros s o r H; cbn [shunting_loop] in H.
  - apply pop_remaining_ok in H as [_ Hs]. rewrite (filter_none _ _ Hs). reflexivity.
  - destruct (shunt max_output token s o) as [e|[s1 o1]] eqn:Es; [discriminate|].
    apply shunt_sound in Es. apply IH in H. clear IH.
    inversion Es as [n pct s0 o0|f s0 o0|s0 o0|op popped below o0 Hp
                     |popped below o0 Hp|popped f below o0 Hp];
      subst; clear Es; cbn [filter is_lparen is_rparen] in *;
      rewrite ?filter_app in *; cbn [filter is_lparen] in *;
      try rewrite (filter_none is_lparen popped) in *
        by auto using operators_not_lparen;
      cbn [List.length app] in *; lia.
Qed.

(** X4.  The conversion only reorders: the postfix expression holds exactly
    the tokens of the input other than the parentheses, each as often as
    the input does, all of them numbers, operators or functions, and the
    numbers in the order of the input. *)
Theorem shunting_yard_reorders (max_output : nat) (tokens postfix : list Token) :
  shunting_yard max_output tokens = inr postfix ->
  Permutation postfix (filter (fun t => negb (is_paren t)) tokens)
  /\ Forall (fun t => is_postfix_token t = true) postfix
  /\ filter is_number postfix = filter is_number tokens.
Proof.
  intros H. unfold shunting_yard in H.
  pose proof (shunting_loop_permutation max_output _ _ _ _ H) as Hperm.
  simpl in Hperm. split; [exact Hperm|]. split.
  - apply Forall_forall. intros t Ht.
    apply (Permutation_in _ Hperm) in Ht. apply filter_In in Ht as [Hin Hnp].
    destruct (is_name t) eqn:Hname.
    + destruct (shunting_loop_name max_output tokens [] []) as [e He]; [|congruence].
      apply existsb_exists. eauto.
    + destruct t; try discriminate; reflexivity.
  - apply (shunting_loop_numbers max_output _ _ _ _ (Forall_nil _) H).
Qed.

Lemma shunting_yard_reorders_witness :
  Permutation
    [TOKEN_NUMBER one false; TOKEN_NUMBER hundred false; TOKEN_FUNCTION FUNC_SQRT;
     TOKEN_OPERATOR OP_ADD]
    (filter (fun t => negb (is_paren t))
       [TOKEN_NUMBER one false; TOKEN_OPERATOR OP_ADD; TOKEN_FUNCTION FUNC_SQRT;
        TOKEN_LPAREN; TOKEN_NUMBER hundred false; TOKEN_RPAREN])
  /\ Forall (fun t => is_postfix_token t = true)
       [TOKEN_NUMBER one false; TOKEN_NUMBER hundred false; TOKEN_FUNCTION FUNC_SQRT;
        TOKEN_OPERATOR OP_ADD]
  /\ filter is_number
       [TOKEN_NUMBER one false; TOKEN_NUMBER hundred false; TOKEN_FUNCTION FUNC_SQRT;
        TOKEN_OPERATOR OP_ADD]
     = filter is_number
         [TOKEN_NUMBER one false; TOKEN_OPERATOR OP_ADD; TOKEN_FUNCTION FUNC_SQRT;
          TOKEN_LPAREN; TOKEN_NUMBER hundred false; TOKEN_RPAREN].
Proof.
  apply (shunting_yard_reorders MAX_TOKENS). vm_compute. reflexivity.
Defined.

(** X5.  The conversion succeeds only on balanced parentheses and on tokens
    without assignment markers: a text with as many [(] as [)] is needed,
    and a text in which an identifier is followed by [=], such as the
    right-hand side of a chained assignment, is always rejected by both
    entry points, which leave the calculator as it was. *)
Theorem shunting_yard_accepts (M : libm) (st : Calc) (max_output : nat)
        (tokens : list Token) :
  (forall postfix,
     shunting_yard max_output tokens = inr postfix ->
     List.length (filter is_lparen tokens) = List.length (filter is_rparen tokens)
     /\ existsb is_name tokens = false)
  /\
  (forall input var_name,
     tokenize st MAX_TOKENS input = inr tokens ->
     existsb is_name tokens = true ->
     exists e,
       evaluate_expression M input st = (failed e, st)
       /\ handle_assignment M var_name input st = (failed e, st)).
Proof.
  split.
  - intros postfix H. split.
    + apply (shunting_loop_parentheses max_output _ _ _ _ H).
    + destruct (existsb is_name tokens) eqn:E; [|reflexivity].
      destruct (shunting_loop_name max_output tokens [] [] E) as [e He].
      unfold shunting_yard in H. congruence.
  - intros input var_name Ht Hn.
    destruct (shunting_loop_name MAX_TOKENS tokens [] [] Hn) as [e He].
    exists e. unfold evaluate_expression, handle_assignment, shunting_yard.
    rewrite Ht. destruct tokens as [|t tokens]; [discriminate Hn|].
    rewrite He. split; reflexivity.
Qed.

Lemma shunting_yard_accepts_witness :
  (List.length (filter is_lparen [TOKEN_LPAREN; TOKEN_NUMBER one false; TOKEN_RPAREN])
   = List.length (filter is_rparen [TOKEN_LPAREN; TOKEN_NUMBER one false; TOKEN_RPAREN])
   /\ existsb is_name [TOKEN_LPAREN; TOKEN_NUMBER one false; TOKEN_RPAREN] = false)
  /\ exists e,
       evaluate_expression ExactPoints.lib "x = 5" startup = (failed e, startup)
       /\ handle_assignment ExactPoints.lib "y" "x = 5" startup = (failed e, startup).
Proof.
  split.
  - apply (shunting_yard_accepts ExactPoints.lib startup MAX_TOKENS
             [TOKEN_LPAREN; TOKEN_NUMBER one false; TOKEN_RPAREN]
             : _ /\ _) with (postfix := [TOKEN_NUMBER one false]).
    vm_compute. reflexivity.
  - apply (shunting_yard_accepts ExactPoints.lib startup MAX_TOKENS
             [TOKEN_ASSIGNMENT "x"; TOKEN_NUMBER (literal "5") false]);
      vm_compute; reflexivity.
Defined.

(** ** Capacity *)

Lemma pop_operators_error (max_output : nat) (op : OperatorType) :
  forall op_stack output e,
    pop_operators max_output op op_stack output = inl e ->
    (max_output < List.length op_stack + List.length output)%nat.
Proof.
  induction op_stack as [|t below IH]; intros output e H; simpl in H; [discriminate|].
  destruct t as [n p|top|f| | |v|v]; try discriminate.
  destruct (pops_before op top); [|discriminate].
  destruct (emit max_output output (TOKEN_OPERATOR top)) as [e1|o1] eqn:Ee.
  - apply emit_error in Ee as [_ Ee]. simpl. lia.
  - apply emit_ok in Ee. subst o1. apply IH in H. rewrite length_app in H.
    simpl in *. lia.
Qed.

Lemma pop_to_lparen_error (max_output : nat) :
  forall op_stack output e,
    pop_to_lparen max_output op_stack output = inl e ->
    (max_output < List.length op_stack + List.length output)%nat.
Proof.
  induction op_stack as [|t below IH]; intros output e H; simpl in H; [discriminate|].
  assert (Hgo : match emit max_output output t with
                | inl e => inl e
                | inr output1 => pop_to_lparen max_output below output1
                end = inl e ->
                (max_output < Datatypes.length (t :: below) + Datatypes.length output)%nat).
  { intros E. destruct (emit max_output output t) as [e1|o1] eqn:Ee.
    - apply emit_error in Ee as [_ Ee]. simpl. lia.
    - apply emit_ok in Ee. subst o1. apply IH in E. rewrite length_app in E.
      simpl in *. lia. }
  destruct t as [n p|top|f| | |v|v]; try exact (Hgo H). discriminate.
Qed.

Lemma pop_remaining_error (max_output : nat) :
  forall op_stack output e,
    pop_remaining max_output op_stack output = inl e ->
    is_overflow e = true ->
    (max_output < List.length op_stack + List.length output)%nat.
Proof.
  induction op_stack as [|t below IH]; intros output e H Ho; simpl in H; [discriminate|].
  assert (Hgo : match emit max_output output t with
                | inl e => inl e
                | inr output1 => pop_remaining max_output below output1
                end = inl e ->
                (max_output < Datatypes.length (t :: below) + Datatypes.length output)%nat).
  { intros E. destruct (emit max_output output t) as [e1|o1] eqn:Ee.
    - apply emit_error in Ee as [_ Ee]. simpl. lia.
    - apply emit_ok in Ee. subst o1. apply IH in E; [|exact Ho].
      rewrite length_app in E. simpl in *. lia. }
  destruct t as [n p|top|f| | |v|v]; try exact (Hgo H).
  injection H as <-. discriminate Ho.
Qed.

Lemma push_error (op_stack output : list Token) (t : Token) (e : Error) :
  push op_stack output t = inl e -> (MAX_TOKENS <= List.length op_stack)%nat.
Proof.
  unfold push, stack_full.
  destruct (MAX_TOKENS <=? Datatypes.length op_stack)%nat eqn:E; [|discriminate].
  intros _. apply Nat.leb_le, E.
Qed.

(** A round adds at most one token to the stack and the output together. *)
Lemma shunt_step_size (token : Token) (op_stack output op_stack' output' : list Token) :
  shunt_step token op_stack output op_stack' output' ->
  (List.length op_stack' + List.length output'
   <= S (List.length op_stack + List.length output))%nat.
Proof.
  intros H. inversion H; subst; rewrite ?length_app; simpl; rewrite ?length_app;
    simpl; lia.
Qed.

(** With room for one more token, a round reports no overflow. *)
Lemma shunt_capacity (max_output : nat) (token : Token)
      (op_stack output : list Token) (e : Error) :
  (List.length op_stack + List.length output < max_output)%nat ->
  (List.length op_stack + List.length output < MAX_TOKENS)%nat ->
  shunt max_output token op_stack output = inl e ->
  is_overflow e = false.
Proof.
  intros Hout Hstack H.
  destruct token as [n p|op|f| | |v|v]; cbn [shunt] in H.
  - destruct (emit max_output output (TOKEN_NUMBER n p)) as [e1|o1] eqn:Ee;
      [|discriminate].
    apply emit_error in Ee as [_ Ee]. lia.
  - destruct (pop_operators max_output op op_stack output) as [e1|[s1 o1]] eqn:Ep.
    + apply pop_operators_error in Ep. lia.
    + apply pop_operators_ok in Ep as (popped & -> & -> & _).
      apply push_error in H. rewrite length_app in Hstack. lia.
  - apply push_error in H. lia.
  - apply push_error in H. lia.
  - destruct (pop_to_lparen max_output op_stack output) as [e1|[s1 o1]] eqn:Ep.
    + apply pop_to_lparen_error in Ep. lia.
    + apply pop_to_lparen_ok in Ep as (popped & -> & -> & _ & _).
      destruct s1 as [|t below]; [injection H as <-; reflexivity|].
      destruct below as [|t1 below1]; [discriminate|].
      destruct t1 as [n p|op|f| | |v|v]; try discriminate.
      destruct (emit max_output (output ++ popped) (TOKEN_FUNCTION f)) as [e1|o1] eqn:Ee;
        [|discriminate].
      apply emit_error in Ee as [_ Ee].
      rewrite !length_app in *. simpl in *. lia.
  - injection H as <-. reflexivity.
  - injection H as <-. reflexivity.
Qed.

Lemma shunting_loop_capacity (max_output : nat) :
  forall tokens op_stack output,
    (List.length op_stack + List.length output + List.length tokens <= max_output)%nat ->
    (List.length op_stack + List.length output + List.length tokens <= MAX_TOKENS)%nat ->
    match shunting_loop max_output tokens op_stack output with
    | inl e => is_overflow e = false
    | inr postfix =>
        (List.length postfix
         <= List.length op_stack + List.length output + List.length tokens)%nat
    end.
Proof.
  induction tokens as [|token tokens IH]; intros s o Hout Hstack;
    cbn [shunting_loop].
  - destruct (pop_remaining max_output s o) as [e|r] eqn:Er.
    + destruct (is_overflow e) eqn:Eo; [|reflexivity].
      apply (pop_remaining_error _ _ _ _ Er) in Eo. simpl in Hout. lia.
    + apply pop_remaining_ok in Er as [-> _]. rewrite length_app. simpl. lia.
  - simpl in Hout, Hstack.
    destruct (shunt max_output token s o) as [e|[s1 o1]] eqn:Es.
    + apply (shunt_capacity max_output token s o e); [lia|lia|exact Es].
    + apply shunt_sound, shunt_step_size in Es.
      specialize (IH s1 o1).
      destruct (shunting_loop max_output tokens s1 o1).
      * apply IH; lia.
      * simpl. assert (Datatypes.length l
                       <= Datatypes.length s1 + Datatypes.length o1
                          + Datatypes.length tokens)%nat by (apply IH; lia).
        lia.
Qed.

(** X6.  A token array that fits the capacity given to [shunting_yard], and
    the operator stack, is converted without any overflow: the output is
    no longer than the input, and an error, if there is one, is about the
    parentheses or about a token that has no place in an expression. *)
Theorem shunting_yard_capacity (max_output : nat) (tokens : list Token) :
  (List.length tokens <= max_output)%nat ->
  (List.length tokens <= MAX_TOKENS)%nat ->
  match shunting_yard max_output tokens with
  | inl e => is_overflow e = false
  | inr postfix => (List.length postfix <= List.length tokens)%nat
  end.
Proof.
  intros Hout Hstack.
  apply (shunting_loop_capacity max_output tokens [] []); simpl; lia.
Qed.

Lemma shunting_yard_capacity_witness :
  match shunting_yard 3 [TOKEN_LPAREN; TOKEN_NUMBER one false; TOKEN_RPAREN] with
  | inl e => is_overflow e = false
  | inr postfix => (List.length postfix <= 3)%nat
  end.
Proof.
  apply (shunting_yard_capacity 3 [TOKEN_LPAREN; TOKEN_NUMBER one false; TOKEN_RPAREN]);
    vm_compute; lia.
Defined.

Lemma apply_operator_error (M : libm) (op : OperatorType) (a b : Value) (e : Error) :
  apply_operator M op a b = inl e -> e = DivByZero \/ e = ModByZero.
Proof.
  destruct op; cbn [apply_operator]; try discriminate.
  - destruct (eqb (normalized b) Double.zero); [|discriminate].
    intros H; injection H as <-; auto.
  - destruct (eqb (num b) Double.zero); [|discriminate].
    intros H; injection H as <-; auto.
Qed.

Lemma apply_function_error (M : libm) (func : FunctionType) (arg : Value) (e : Error) :
  apply_function M func arg = inl e -> is_overflow e = false.
Proof.
  destruct func; cbn [apply_function]; cbv zeta; try discriminate;
    try (destruct (_ || _)); try (destruct (leb _ _)); try (destruct (ltb _ _));
    try discriminate; intros H; injection H as <-; reflexivity.
Qed.

(** The depth of the evaluation stack after a token: a number adds a value,
    an operator takes one away. *)
Ltac case_leb :=
  match goal with
  | |- context [(?a <=? ?b)%nat] => destruct (a <=? b)%nat eqn:?
  end.

Lemma eval_token_depth (M : libm) (token : Token) (stack stack' : list Value) :
  eval_token M token stack = inr stack' ->
  (List.length stack' + (if is_operator token then 1 else 0)
   = List.length stack + (if is_number token then 1 else 0))%nat.
Proof.
  unfold eval_token, push_value.
  destruct token as [n p|op|f| | |v|v]; cbn [is_operator is_number];
    try (intros H; injection H as <-; lia).
  - case_leb; [discriminate|].
    intros H; injection H as <-. simpl. lia.
  - destruct stack as [|b [|a below]]; try discriminate.
    destruct (apply_operator M op a b); [discriminate|].
    case_leb; [discriminate|].
    intros H; injection H as <-. simpl. lia.
  - destruct stack as [|arg below]; [discriminate|].
    destruct (apply_function M f arg); [discriminate|].
    case_leb; [discriminate|].
    intros H; injection H as <-. simpl. lia.
Qed.

Lemma eval_token_capacity (M : libm) (token : Token) (stack : list Value) (e : Error) :
  (List.length stack < MAX_TOKENS)%nat ->
  eval_token M token stack = inl e -> is_overflow e = false.
Proof.
  intros Hroom. unfold eval_token, push_value.
  destruct token as [n p|op|f| | |v|v]; try discriminate.
  - apply Nat.leb_gt in Hroom. rewrite Hroom. discriminate.
  - destruct stack as [|b [|a below]]; try (intros H; injection H as <-; reflexivity).
    destruct (apply_operator M op a b) as [e1|r] eqn:Ea.
    + intros H; injection H as <-.
      apply apply_operator_error in Ea as [-> | ->]; reflexivity.
    + simpl in Hroom.
      destruct (MAX_TOKENS <=? Datatypes.length below)%nat eqn:E; [|discriminate].
      apply Nat.leb_le in E. lia.
  - destruct stack as [|arg below]; [intros H; injection H as <-; reflexivity|].
    destruct (apply_function M f arg) as [e1|r] eqn:Ea.
    + intros H; injection H as <-. eapply apply_function_error, Ea.
    + simpl in Hroom.
      destruct (MAX_TOKENS <=? Datatypes.length below)%nat eqn:E; [|discriminate].
      apply Nat.leb_le in E. lia.
Qed.

Lemma eval_loop_capacity (M : libm) :
  forall postfix stack e,
    (List.length stack + List.length postfix <= MAX_TOKENS)%nat ->
    eval_loop M postfix stack = inl e -> is_overflow e = false.
Proof.
  induction postfix as [|token postfix IH]; intros stack e Hroom H; simpl in H;
    [discriminate|].
  simpl in Hroom.
  destruct (eval_token M token stack) as [e1|stack1] eqn:Et.
  - injection H as <-. apply (eval_token_capacity M token stack); [lia|exact Et].
  - apply eval_token_depth in Et. apply (IH stack1); [|exact H].
    destruct (is_operator token), (is_number token); lia.
Qed.

Lemma eval_loop_depth (M : libm) :
  forall postfix stack stack',
    eval_loop M postfix stack = inr stack' ->
    (List.length stack' + List.length (filter is_operator postfix)
     = List.length stack + List.length (filter is_number postfix))%nat.
Proof.
  induction postfix as [|token postfix IH]; intros stack stack' H; simpl in H.
  - injection H as <-. simpl. lia.
  - destruct (eval_token M token stack) as [e1|stack1] eqn:Et; [discriminate|].
    apply eval_token_depth in Et. apply IH in H. simpl.
    destruct (is_operator token), (is_number token); simpl; lia.
Qed.

(** X7.  A postfix expression of at most [MAX_TOKENS] tokens never overflows
    the evaluation stack; and an evaluation that reports no error has read
    exactly one number more than it has applied binary operators. *)
Theorem evaluate_postfix_stack (M : libm) (postfix : list Token) :
  ((List.length postfix <= MAX_TOKENS)%nat ->
   diag (evaluate_postfix M postfix) <> Some EvalStackOverflow)
  /\
  (diag (evaluate_postfix M postfix) = None ->
   List.length (filter is_number postfix)
   = S (List.length (filter is_operator postfix))).
Proof.
  unfold evaluate_postfix. split.
  - intros Hlen.
    destruct (eval_loop M postfix []) as [e|stack] eqn:E.
    + apply eval_loop_capacity in E; [|simpl; lia].
      simpl. intros H; injection H as ->. discriminate E.
    + destruct stack as [|v [|w stack]]; simpl; discriminate.
  - destruct (eval_loop M postfix []) as [e|stack] eqn:E; [discriminate|].
    destruct stack as [|v [|w stack]]; try discriminate.
    intros _. apply eval_loop_depth in E. simpl in E. lia.
Qed.

Lemma evaluate_postfix_stack_witness :
  diag (evaluate_postfix ExactPoints.lib
          [TOKEN_NUMBER one false; TOKEN_NUMBER hundred true; TOKEN_OPERATOR OP_ADD])
  <> Some EvalStackOverflow
  /\ List.length (filter is_number
                    [TOKEN_NUMBER one false; TOKEN_NUMBER hundred true;
                     TOKEN_OPERATOR OP_ADD])
     = S (List.length (filter is_operator
                         [TOKEN_NUMBER one false; TOKEN_NUMBER hundred true;
                          TOKEN_OPERATOR OP_ADD])).
Proof.
  destruct (evaluate_postfix_stack ExactPoints.lib
              [TOKEN_NUMBER one false; TOKEN_NUMBER hundred true;
               TOKEN_OPERATOR OP_ADD]) as [H1 H2].
  split; [apply H1; vm_compute; lia|apply H2; vm_compute; reflexivity].
Defined.

(** The tokenizer reports no overflow. *)
Lemma tokenize_loop_error (st : Calc) (max_tokens : nat) :
  forall fuel p tokens b e,
    tokenize_loop st max_tokens fuel p tokens b = inl e -> is_overflow e = false.
Proof.
  induction fuel as [|fuel IH]; intros p tokens b e; [discriminate|].
  cbn [tokenize_loop]. unfold tokenize_round.
  destruct (skip_spaces p) as [|c rest]; [discriminate|].
  destruct (is_char c Ascii.zero); [discriminate|].
  case_leb; [intros H; injection H as <-; reflexivity|].
  destruct (is_identifier_start c).
  { destruct (span is_identifier_char (String c rest)) as [identifier p1].
    case_leb; [intros H; injection H as <-; reflexivity|].
    assert (Hres : match resolve_identifier identifier st with
                   | inl e0 => inl e0
                   | inr tok =>
                       tokenize_loop st max_tokens fuel p1 (tokens ++ [tok])
                         match tok with
                         | TOKEN_NUMBER _ _ => false
                         | _ => true
                         end
                   end = inl e -> is_overflow e = false).
    { unfold resolve_identifier.
      destruct (constant_value identifier st); [apply IH|].
      destruct (function_lookup identifier function_map); try apply IH.
      destruct (find_variable identifier st); [apply IH|].
      intros H; injection H as <-; reflexivity. }
    destruct (skip_spaces p1) as [|c1 after]; [exact Hres|].
    destruct c1 as [[] [] [] [] [] [] [] []]; try exact Hres. apply IH. }
  destruct (starts_number (String c rest)).
  { destruct (Strtod.strtod (String c rest)) as [number e0].
    case_leb; [intros H; injection H as <-; reflexivity|].
    destruct e0 as [|c0 e1]; [apply IH|].
    destruct c0 as [[] [] [] [] [] [] [] []]; apply IH. }
  destruct (is_operator_char c).
  { destruct ((is_char c "-" || is_char c "+") && b).
    - cbv zeta. case_leb; [intros H; injection H as <-; reflexivity|].
      destruct (char_to_op c); [apply IH|intros H; injection H as <-; reflexivity].
    - destruct (char_to_op c); [apply IH|intros H; injection H as <-; reflexivity]. }
  destruct (is_char c "("); [apply IH|].
  destruct (is_char c ")"); [apply IH|intros H; injection H as <-; reflexivity].
Qed.

Lemma tokenize_length (st : Calc) (max_tokens : nat) (input : string)
      (tokens : list Token) :
  tokenize st max_tokens input = inr tokens ->
  (List.length tokens <= max_tokens)%nat.
Proof.
  intros H.
  apply (tokenize_loop_invariant st max_tokens
           (fun t => (List.length t <= max_tokens)%nat)) in H; [exact H| |simpl; lia].
  intros t tok _ Hlt _. rewrite length_app. simpl. lia.
Qed.

Lemma stages_never_overflow (M : libm) (st : Calc) (empty : Reply)
      (input : string) (e : Error) :
  is_overflow e = true ->
  diag empty <> Some e -> diag (stages M st empty input) <> Some e.
Proof.
  intros Ho Hempty. unfold stages.
  destruct (tokenize st MAX_TOKENS input) as [e1|tokens] eqn:Et.
  - apply tokenize_loop_error in Et. simpl. intros H; injection H as ->. congruence.
  - apply tokenize_length in Et.
    destruct tokens as [|t tokens]; [exact Hempty|].
    pose proof (shunting_loop_capacity MAX_TOKENS (t :: tokens) [] []) as Hs.
    unfold shunting_yard.
    destruct (shunting_loop MAX_TOKENS (t :: tokens) [] []) as [e1|postfix].
    + simpl. intros H; injection H as ->.
      rewrite Hs in Ho by (simpl in *; lia). discriminate.
    + assert (Hlen : (Datatypes.length postfix <= MAX_TOKENS)%nat)
        by (etransitivity; [apply Hs; simpl in *; lia|simpl in *; lia]).
      unfold evaluate_postfix.
      destruct (eval_loop M postfix []) as [e1|stack] eqn:Ee.
      * apply eval_loop_capacity in Ee; [|simpl; lia].
        simpl. intros H; injection H as ->. congruence.
      * destruct stack as [|v [|w stack]]; simpl; try discriminate;
          intros H; injection H as <-; discriminate Ho.
Qed.

(** X8.  The token limit of the tokenizer is the only limit an expression
    can hit: whatever the text, neither entry point ever reports an
    overflow of the output queue, of the operator stack or of the
    evaluation stack. *)
Theorem pipeline_never_overflows (M : libm) (st : Calc)
        (input var_name : string) (e : Error) :
  is_overflow e = true ->
  diag (fst (evaluate_expression M input st)) <> Some e
  /\ diag (fst (handle_assignment M var_name input st)) <> Some e.
Proof.
  intros Ho. split.
  - rewrite evaluate_expression_reply.
    apply stages_never_overflow; [exact Ho|discriminate].
  - rewrite handle_assignment_stages. cbv zeta.
    set (r := stages M st (failed (MissingExpression var_name)) input).
    assert (Hr : diag r <> Some e).
    { apply stages_never_overflow; [exact Ho|].
      simpl. intros H; injection H as <-; discriminate Ho. }
    destruct (isnan (ret r)); [exact Hr|].
    destruct (set_variable var_name (ret r) st) as [[e1|i] st1] eqn:Eset; [|exact Hr].
    simpl. intros H; injection H as ->.
    unfold set_variable in Eset.
    destruct var_name; [injection Eset as <- _; discriminate Ho|].
    destruct (find_variable _ st); [discriminate|].
    destruct (MAX_VARIABLES <=? variable_count st)%nat;
      [injection Eset as <- _; discriminate Ho|discriminate].
Qed.

Lemma pipeline_never_overflows_witness :
  diag (fst (evaluate_expression ExactPoints.lib "((((1))))" startup))
  <> Some OperatorStackOverflow
  /\ diag (fst (handle_assignment ExactPoints.lib "x" "((((1))))" startup))
     <> Some OperatorStackOverflow.
Proof.
  apply (pipeline_never_overflows ExactPoints.lib startup "((((1))))" "x").
  reflexivity.
Defined.

(** ** The variable store: reading back, bounds and names *)

Lemma strncpy_short (n : nat) (s : string) :
  (String.length s <= n)%nat -> strncpy n s = s.
Proof.
  revert n. induction s as [|c r IH]; intros [|n] H; simpl in *;
    try reflexivity; try lia.
  rewrite IH by lia. reflexivity.
Qed.

Lemma strncpy_length (n : nat) (s : string) :
  (String.length (strncpy n s) <= n)%nat
  /\ (String.length (strncpy n s) <= String.length s)%nat.
Proof.
  revert n. induction s as [|c r IH]; intros [|n]; simpl; try lia.
  specialize (IH n). lia.
Qed.

Lemma short_name_fits (nm : string) : short_name nm -> fits nm.
Proof.
  intros [_ H]. apply strncpy_short. unfold MAX_IDENTIFIER_LEN in *. simpl. lia.
Qed.

Lemma find_index_none (nm : string) :
  forall vs i, find_index nm vs i = None <-> ~ In nm (map name vs).
Proof.
  induction vs as [|x vs IH]; intros i; simpl.
  - split; auto.
  - destruct (String.eqb (name x) nm) eqn:E.
    + apply String.eqb_eq in E. split; [discriminate|]. intros H. exfalso. auto.
    + apply String.eqb_neq in E. rewrite IH. tauto.
Qed.

Lemma update_value_names (v : double) :
  forall vs k, map name (update_value k v vs) = map name vs.
Proof.
  induction vs as [|x vs IH]; intros k; destruct k; simpl; try reflexivity.
  rewrite IH. reflexivity.
Qed.

Lemma update_value_length (v : double) :
  forall vs k, List.length (update_value k v vs) = List.length vs.
Proof.
  intros vs k. rewrite <- (length_map name), update_value_names, length_map.
  reflexivity.
Qed.

(** X9.  Writing and reading a variable: after a successful [set_variable]
    of a name that fits the name buffer, the index returned is the one
    [find_variable] gives, the variable holds the value, and every other
    variable holds what it held. *)
Theorem set_variable_then_lookup (nm : string) (v : double) (st : Calc) (i : nat) :
  fits nm ->
  fst (set_variable nm v st) = inr i ->
  find_variable nm (snd (set_variable nm v st)) = Some i
  /\ lookup nm (snd (set_variable nm v st)) = Some v
  /\ (forall other, other <> nm ->
        lookup other (snd (set_variable nm v st)) = lookup other st).
Proof.
  intros Hfit Hi. split; [|split].
  - unfold set_variable, find_variable in *.
    destruct nm as [|c r]; [discriminate|].
    destruct (find_index (String c r) (variables st) 0) as [j|] eqn:E.
    + cbn [fst snd with_variables variables] in *. injection Hi as <-.
      rewrite find_index_update. exact E.
    + destruct (MAX_VARIABLES <=? variable_count st)%nat; [discriminate|].
      cbn [fst snd with_variables variables] in *. injection Hi as <-.
      rewrite find_index_app, E. cbn [name]. unfold fits in Hfit.
      rewrite Hfit, String.eqb_refl. reflexivity.
  - apply lookup_set_same; [exact Hfit|eauto].
  - intros other Hne. apply lookup_set_other; [exact Hfit|congruence].
Qed.

Lemma set_variable_then_lookup_witness :
  find_variable "rate" (snd (set_variable "rate" hundred startup)) = Some 1%nat
  /\ lookup "rate" (snd (set_variable "rate" hundred startup)) = Some hundred
  /\ (forall other, other <> "rate" ->
        lookup other (snd (set_variable "rate" hundred startup))
        = lookup other startup).
Proof.
  apply (set_variable_then_lookup "rate" hundred startup 1); reflexivity.
Defined.

(** X10.  The bounds of the store.  [set_variable] fails exactly when the
    name is empty, or is new while all [MAX_VARIABLES] cells are taken; a
    failure changes nothing.  A success keeps every variable, adds at most
    one, and never takes the store beyond [MAX_VARIABLES]; a full store
    still accepts new values for the names it holds. *)
Theorem set_variable_bounds (nm : string) (v : double) (st : Calc) :
  ((exists e, fst (set_variable nm v st) = inl e) <->
   nm = EmptyString
   \/ (find_variable nm st = None /\ (MAX_VARIABLES <= variable_count st)%nat))
  /\ ((exists e, fst (set_variable nm v st) = inl e) ->
      snd (set_variable nm v st) = st)
  /\ (variable_count st <= variable_count (snd (set_variable nm v st))
      <= S (variable_count st))%nat
  /\ ((variable_count st <= MAX_VARIABLES)%nat ->
      (variable_count (snd (set_variable nm v st)) <= MAX_VARIABLES)%nat)
  /\ (nm <> EmptyString -> find_variable nm st <> None ->
      exists i, fst (set_variable nm v st) = inr i
                /\ variable_count (snd (set_variable nm v st)) = variable_count st).
Proof.
  unfold set_variable, variable_count.
  destruct nm as [|c r].
  - cbn [fst snd]. repeat split; eauto; try lia. intros H; contradiction.
  - destruct (find_variable (String c r) st) as [j|] eqn:Ef.
    + cbn [fst snd with_variables variables]. rewrite update_value_length.
      repeat split; try lia; try (intros [e He]; discriminate He); eauto.
      intros [H|[H _]]; discriminate H.
    + destruct (MAX_VARIABLES <=? Datatypes.length (variables st))%nat eqn:El.
      * apply Nat.leb_le in El. cbn [fst snd].
        repeat split; eauto; try lia. intros _ H. contradiction.
      * apply Nat.leb_gt in El. cbn [fst snd with_variables variables].
        rewrite length_app. simpl.
        repeat split; try lia; try (intros [e He]; discriminate He).
        -- intros [H|[_ H]]; [discriminate H|lia].
        -- intros _ H. contradiction.
Qed.

Lemma set_variable_bounds_witness :
  variable_count (snd (set_variable "ans" hundred startup)) = variable_count startup
  /\ (variable_count (snd (set_variable "x" hundred startup)) <= MAX_VARIABLES)%nat.
Proof.
  destruct (set_variable_bounds "ans" hundred startup) as (_ & _ & _ & _ & H).
  destruct (set_variable_bounds "x" hundred startup) as (_ & _ & _ & H4 & _).
  split.
  - destruct H as (i & _ & Hc); [discriminate|discriminate|exact Hc].
  - apply H4. vm_compute. lia.
Defined.

(** X11.  A name of 32 characters or more is cut to 31 when its variable is
    created, so in a store whose names fit the buffer it is never found:
    the variable just written cannot be read under its name, and every
    further [set_variable] of the name adds another variable. *)
Theorem long_name_is_never_found (nm : string) (v : double) (st : Calc) :
  Forall (fun x => (String.length (name x) < MAX_IDENTIFIER_LEN)%nat) (variables st) ->
  (MAX_IDENTIFIER_LEN <= String.length nm)%nat ->
  find_variable nm st = None
  /\ find_variable nm (snd (set_variable nm v st)) = None
  /\ Forall (fun x => (String.length (name x) < MAX_IDENTIFIER_LEN)%nat)
            (variables (snd (set_variable nm v st)))
  /\ ((variable_count st < MAX_VARIABLES)%nat ->
      variables (snd (set_variable nm v st))
      = variables st ++ [mkVariable (strncpy (MAX_IDENTIFIER_LEN - 1) nm) v]).
Proof.
  intros Hall Hlong.
  assert (Hnone : forall vs,
             Forall (fun x => (String.length (name x) < MAX_IDENTIFIER_LEN)%nat) vs ->
             find_index nm vs 0 = None).
  { intros vs Hvs. apply find_index_none. intros Hin.
    apply in_map_iff in Hin as (x & Hx & Hin).
    rewrite Forall_forall in Hvs. specialize (Hvs x Hin). rewrite Hx in Hvs. lia. }
  assert (Hcut : (String.length (strncpy (MAX_IDENTIFIER_LEN - 1) nm)
                  < MAX_IDENTIFIER_LEN)%nat).
  { pose proof (strncpy_length (MAX_IDENTIFIER_LEN - 1) nm) as [H _].
    unfold MAX_IDENTIFIER_LEN in *. simpl in *. lia. }
  assert (Hall' : Forall (fun x => (String.length (name x) < MAX_IDENTIFIER_LEN)%nat)
                         (variables (snd (set_variable nm v st)))).
  { unfold set_variable. destruct nm as [|c r]; [exact Hall|].
    unfold find_variable. rewrite (Hnone _ Hall).
    destruct (MAX_VARIABLES <=? variable_count st)%nat; [exact Hall|].
    cbn [snd with_variables variables]. apply Forall_app. split; [exact Hall|].
    constructor; [exact Hcut|constructor]. }
  split; [apply Hnone, Hall|]. split; [apply Hnone, Hall'|]. split; [exact Hall'|].
  intros Hroom. unfold set_variable.
  destruct nm as [|c r]; [simpl in Hlong; unfold MAX_IDENTIFIER_LEN in Hlong; lia|].
  unfold find_variable. rewrite (Hnone _ Hall).
  apply Nat.leb_gt in Hroom. rewrite Hroom. reflexivity.
Qed.

Lemma long_name_is_never_found_witness :
  find_variable long_identifier startup = None
  /\ find_variable long_identifier (snd (set_variable long_identifier hundred startup))
     = None
  /\ Forall (fun x => (String.length (name x) < MAX_IDENTIFIER_LEN)%nat)
            (variables (snd (set_variable long_identifier hundred startup)))
  /\ ((variable_count startup < MAX_VARIABLES)%nat ->
      variables (snd (set_variable long_identifier hundred startup))
      = variables startup
          ++ [mkVariable (strncpy (MAX_IDENTIFIER_LEN - 1) long_identifier) hundred]).
Proof.
  apply (long_name_is_never_found long_identifier hundred startup).
  - repeat constructor.
  - vm_compute. lia.
Defined.

(** ** What a line does to the calculator *)

Lemma evaluate_expression_effect (M : libm) (input : string) (st : Calc) :
  effect st (snd (evaluate_expression M input st)).
Proof.
  rewrite evaluate_expression_stages. cbv zeta.
  destruct (isnan _); cbn [snd]; constructor.
Qed.

Lemma handle_assignment_effect (M : libm) (var_name expression : string) (st : Calc) :
  short_name var_name ->
  effect st (snd (handle_assignment M var_name expression st)).
Proof.
  intros Hn. rewrite handle_assignment_stages. cbv zeta.
  set (r := stages M st (failed (MissingExpression var_name)) expression).
  destruct (isnan (ret r)); [constructor|].
  pose proof (effect_assign st var_name (ret r) Hn) as H.
  destruct (set_variable var_name (ret r) st) as [[e|i] st1]; [constructor|].
  cbn [fst snd] in *. apply H. eauto.
Qed.

Lemma store_command_effect (arg : string) (st : Calc) :
  effect st (store_command arg st).
Proof.
  unfold store_command.
  destruct (skip_spaces arg) as [|c r] eqn:Earg; [constructor|].
  destruct (negb (is_identifier_start c)) eqn:Ec; [constructor|].
  apply negb_false_iff in Ec.
  destruct (span (fun c0 => negb (isspace c0)) (String c r)) as [word rest] eqn:Ew.
  destruct (negb (string_forallb is_identifier_char _)) eqn:Ev; [constructor|].
  apply negb_false_iff in Ev.
  destruct (_ <? _)%nat; [constructor|].
  apply effect_store. split.
  - simpl in Ew.
    assert (Hns : negb (isspace c) = true).
    { destruct (isspace c) eqn:Es; [|reflexivity].
      unfold is_identifier_start, isalpha, isupper, islower, is_char, isspace,
        in_range, char_code in *.
      destruct c as [[] [] [] [] [] [] [] []]; vm_compute in Es; vm_compute in Ec;
        discriminate. }
    rewrite Hns in Ew.
    destruct (span (fun c0 => negb (isspace c0)) r) as [a b]. injection Ew as <- _.
    cbn [strncpy MAX_IDENTIFIER_LEN Nat.sub] in *. cbn [string_forallb] in Ev.
    apply andb_true_iff in Ev as [_ Ev].
    cbn [valid_name]. rewrite Ec, Ev. reflexivity.
  - pose proof (strncpy_length (MAX_IDENTIFIER_LEN - 1) word) as [H _].
    unfold MAX_IDENTIFIER_LEN in *. simpl in *. lia.
Qed.

Lemma process_command_effect (input : string) (st : Calc) :
  effect st (snd (process_command input st)).
Proof.
  unfold process_command. cbv zeta.
  repeat match goal with
         | |- context [if ?b then _ else _] => destruct b
         end; cbn [snd];
    first [apply store_command_effect
          |apply (effect_commit st (memory st))
          |constructor].
Qed.

Lemma step_effect (M : libm) (input : string) (st : Calc) :
  effect st (snd (interactive_step M input st)).
Proof.
  unfold interactive_step.
  destruct (skip_spaces (cstr input)) as [|c r] eqn:E; [constructor|].
  pose proof (process_command_effect (String c r) st) as Hc.
  destruct (process_command (String c r) st) as [code st'] eqn:Ep.
  cbn [snd] in Hc.
  assert (Hzero : code <> 1 -> st' = st).
  { intros Hcode. unfold process_command in Ep. cbv zeta in Ep.
    repeat match type of Ep with
           | context [if ?b then _ else _] => destruct b
           end; injection Ep as <- <-; try reflexivity; contradiction. }
  destruct code as [|[p|p|]|[p|p|]]; try exact Hc;
    (rewrite Hzero in * by discriminate);
    (destruct (first_index (is_char "=") (String c r) 0) as [[|i]|];
     try apply evaluate_expression_effect;
     destruct (before_operators (S i) _); try apply evaluate_expression_effect;
     destruct (_ && _) eqn:Elen; try constructor;
     destruct (negb _) eqn:Ev; try constructor;
     destruct (reserved_name _); try constructor;
     apply handle_assignment_effect; split;
     [apply negb_false_iff, Ev
     |apply andb_true_iff in Elen as [_ Elen]; apply Nat.ltb_lt, Elen]).
Qed.

(** X12.  Whatever the line, one round of the interactive loop changes the
    calculator in one of five ways: not at all, in the memory register
    only, by committing a value to [ans] and to the last result, by storing
    the last result under a valid name of at most 31 characters, or by
    assigning a value to such a name and committing it. *)
Theorem interactive_step_effect (M : libm) (input : string) (st : Calc) :
  effect st (snd (interactive_step M input st)).
Proof. apply step_effect. Qed.

(** ** Invariants of the program *)

(** What holds at start-up and survives every effect of a line holds in
    every state of the program. *)
Lemma reachable_invariant (M : libm) (P : Calc -> Prop) :
  P startup ->
  (forall st st', P st -> effect st st' -> P st') ->
  forall st, reachable M st -> P st.
Proof.
  intros H0 Hstep st Hr. induction Hr as [|st input _ IH]; [exact H0|].
  apply (Hstep st); [exact IH|apply step_effect].
Qed.

Lemma find_preserved (nm other : string) (v : double) (st : Calc) (j : nat) :
  find_variable other st = Some j ->
  find_variable other (snd (set_variable nm v st)) = Some j.
Proof.
  intros H. unfold set_variable, find_variable in *.
  destruct nm as [|c r]; [exact H|].
  destruct (find_index (String c r) (variables st) 0) as [k|].
  - cbn [snd with_variables variables]. rewrite find_index_update. exact H.
  - destruct (MAX_VARIABLES <=? variable_count st)%nat; [exact H|].
    cbn [snd with_variables variables]. rewrite find_index_app, H. reflexivity.
Qed.

Lemma set_variable_store_ok (nm : string) (v : double) (st : Calc) :
  store_ok st -> short_name nm -> store_ok (snd (set_variable nm v st)).
Proof.
  intros (Hnd & Hall & Hcount) Hn. unfold set_variable.
  destruct nm as [|c r]; [repeat split; assumption|].
  set (nm := String c r) in *.
  destruct (find_variable nm st) as [j|] eqn:Ef.
  - unfold store_ok, variable_count. cbn [snd with_variables variables].
    rewrite update_value_names, update_value_length.
    repeat split; try assumption.
    apply (Forall_map name short_name). rewrite update_value_names.
    apply (Forall_map name short_name). exact Hall.
  - destruct (MAX_VARIABLES <=? variable_count st)%nat eqn:El;
      [repeat split; assumption|].
    apply Nat.leb_gt in El.
    unfold store_ok, variable_count in *. cbn [snd with_variables variables].
    rewrite (short_name_fits nm Hn), map_app, length_app. simpl.
    repeat split.
    + apply NoDup_app; [exact Hnd|repeat constructor; auto|].
      intros a Ha [<-|[]]. revert Ha. apply (find_index_none nm (variables st) 0).
      exact Ef.
    + apply Forall_app. split; [exact Hall|constructor; [exact Hn|constructor]].
    + lia.
Qed.

Lemma short_name_ans : short_name "ans".
Proof. split; [reflexivity|vm_compute; lia]. Qed.

(** X13.  In every state of the program the store is in good order: no two
    variables have the same name, every name is an identifier of at most
    31 characters, and there are at most [MAX_VARIABLES] variables. *)
Theorem reachable_store_ok (M : libm) (st : Calc) :
  reachable M st -> store_ok st.
Proof.
  apply reachable_invariant.
  - repeat split; repeat constructor; simpl; auto.
  - intros s s' Hs He. destruct He as [s|s m|s v|s nm Hn|s nm v Hn _].
    + exact Hs.
    + exact Hs.
    + apply set_variable_store_ok; [exact Hs|exact short_name_ans].
    + apply set_variable_store_ok; assumption.
    + apply set_variable_store_ok; [|exact short_name_ans].
      apply (set_variable_store_ok nm v s Hs Hn).
Qed.

Lemma reachable_store_ok_witness :
  store_ok (snd (interactive_step ExactPoints.lib "rate = 5" startup)).
Proof.
  apply (reachable_store_ok ExactPoints.lib).
  apply reachable_step. apply reachable_startup.
Defined.

(** X14.  In every state of the program [ans] is the first variable of the
    store and holds the last result, so that the value listed for [ans] is
    the value that [ans] has in an expression. *)
Theorem reachable_ans_is_last_result (M : libm) (st : Calc) :
  reachable M st ->
  find_variable "ans" st = Some 0%nat
  /\ lookup "ans" st = Some (last_result st)
  /\ fst (evaluate_expression M "ans" st) = returned (last_result st).
Proof.
  intros Hr.
  assert (H : find_variable "ans" st = Some 0%nat
              /\ lookup "ans" st = Some (last_result st)).
  { revert st Hr. apply reachable_invariant.
    - split; reflexivity.
    - intros s s' [Hf Hl] He.
      assert (Hcommit : forall s1 v,
                 find_variable "ans" s1 = Some 0%nat ->
                 find_variable "ans"
                   (snd (set_variable "ans" v (with_last_result s1 v))) = Some 0%nat
                 /\ lookup "ans" (snd (set_variable "ans" v (with_last_result s1 v)))
                    = Some (last_result
                              (snd (set_variable "ans" v (with_last_result s1 v))))).
      { intros s1 v H1. split; [apply find_preserved; exact H1|].
        destruct (commit_ans v s1) as [Ha Hb]; [rewrite H1; discriminate|].
        rewrite Ha. exact Hb. }
      destruct He as [s|s m|s v|s nm Hn|s nm v Hn _].
      + auto.
      + auto.
      + apply Hcommit, Hf.
      + split; [apply find_preserved; exact Hf|].
        rewrite last_result_set_variable.
        destruct (String.eqb nm "ans") eqn:E.
        * apply String.eqb_eq in E. subst nm.
          apply lookup_set_same; [exact fits_ans|].
          apply set_existing_variable; [discriminate|rewrite Hf; discriminate].
        * apply String.eqb_neq in E.
          rewrite lookup_set_other; [exact Hl|apply short_name_fits, Hn|exact E].
      + apply Hcommit. apply find_preserved. exact Hf. }
  destruct H as [Hf Hl]. repeat split; [exact Hf|exact Hl|].
  rewrite evaluate_expression_reply. apply evaluate_ans.
Qed.

Lemma reachable_ans_is_last_result_witness :
  find_variable "ans" (snd (interactive_step ExactPoints.lib "store ans" startup))
  = Some 0%nat
  /\ lookup "ans" (snd (interactive_step ExactPoints.lib "store ans" startup))
     = Some (last_result (snd (interactive_step ExactPoints.lib "store ans" startup)))
  /\ fst (evaluate_expression ExactPoints.lib "ans"
            (snd (interactive_step ExactPoints.lib "store ans" startup)))
     = returned
         (last_result (snd (interactive_step ExactPoints.lib "store ans" startup))).
Proof.
  apply (reachable_ans_is_last_result ExactPoints.lib).
  apply reachable_step. apply reachable_startup.
Defined.

(** ** What a name means *)

Lemma identifier_start_not_space (c : ascii) :
  is_identifier_start c = true -> isspace c = false.
Proof.
  intros H. destruct (isspace c) eqn:E; [|reflexivity].
  destruct c as [[] [] [] [] [] [] [] []]; vm_compute in E; vm_compute in H;
    discriminate.
Qed.

Lemma span_all (f : ascii -> bool) (s : string) :
  string_forallb f s = true -> span f s = (s, EmptyString).
Proof.
  induction s as [|c r IH]; simpl; [reflexivity|].
  intros H. apply andb_true_iff in H as [Hc Hr]. rewrite Hc, (IH Hr). reflexivity.
Qed.

Lemma valid_name_chars (nm : string) :
  valid_name nm = true -> string_forallb is_identifier_char nm = true.
Proof.
  destruct nm as [|c r]; [discriminate|]. simpl.
  intros H. apply andb_true_iff in H as [Hc Hr].
  rewrite (identifier_start_char c Hc), Hr. reflexivity.
Qed.

Lemma tokenize_loop_empty (st : Calc) (max_tokens fuel : nat)
      (tokens : list Token) (b : bool) :
  tokenize_loop st max_tokens fuel EmptyString tokens b = inr tokens.
Proof. destruct fuel; reflexivity. Qed.

(** A text that is one identifier is one token. *)
Lemma tokenize_identifier (st : Calc) (nm : string) :
  short_name nm ->
  tokenize st MAX_TOKENS nm =
  match resolve_identifier nm st with
  | inl e => inl e
  | inr tok => inr [tok]
  end.
Proof.
  intros [Hv Hl]. pose proof (valid_name_chars nm Hv) as Hchars.
  destruct nm as [|c r]; [discriminate|].
  cbn [valid_name] in Hv. apply andb_true_iff in Hv as [Hc _].
  unfold tokenize. cbn [String.length tokenize_loop]. unfold tokenize_round.
  assert (Hskip : skip_spaces (String c r) = String c r).
  { unfold skip_spaces. cbn [span]. rewrite (identifier_start_not_space c Hc).
    reflexivity. }
  rewrite Hskip, (identifier_start_not_nul c Hc).
  change (MAX_TOKENS <=? Datatypes.length (@nil Token))%nat with false. cbv iota.
  rewrite Hc, (span_all _ _ Hchars).
  apply Nat.leb_gt in Hl. rewrite Hl.
  change (skip_spaces EmptyString) with EmptyString. cbv iota.
  destruct (resolve_identifier (String c r) st); [reflexivity|].
  apply tokenize_loop_empty.
Qed.

Lemma name_resolution_order_lemma (M : libm) (st : Calc) (nm : string) :
  short_name nm ->
  fst (evaluate_expression M nm st) =
  match constant_value nm st with
  | Some c => returned c
  | None =>
      match function_lookup nm function_map with
      | FUNC_INVALID =>
          match lookup nm st with
          | Some v => returned v
          | None => failed (UnknownIdentifier nm)
          end
      | _ => failed InsufficientArguments
      end
  end.
Proof.
  intros Hn. rewrite evaluate_expression_reply. unfold stages.
  rewrite (tokenize_identifier st nm Hn). unfold resolve_identifier, lookup.
  destruct (constant_value nm st); [reflexivity|].
  destruct (function_lookup nm function_map); try reflexivity.
  destruct (find_variable nm st); reflexivity.
Qed.

(** X15.  An expression that is just a name is resolved in a fixed order: a
    predefined constant first ([ans] being the last result), then a
    function, which fails for want of an argument, then a variable of the
    store; a name that is none of these is an unknown identifier.  A
    variable called like a constant or a function is thus never read. *)
Theorem name_resolution_order (M : libm) (st : Calc) (nm : string) :
  short_name nm ->
  fst (evaluate_expression M nm st) =
  match constant_value nm st with
  | Some c => returned c
  | None =>
      match function_lookup nm function_map with
      | FUNC_INVALID =>
          match lookup nm st with
          | Some v => returned v
          | None => failed (UnknownIdentifier nm)
          end
      | _ => failed InsufficientArguments
      end
  end.
Proof. apply name_resolution_order_lemma. Qed.

Lemma name_resolution_order_witness :
  fst (evaluate_expression ExactPoints.lib "cos"
         (snd (set_variable "cos" hundred startup)))
  = match constant_value "cos" (snd (set_variable "cos" hundred startup)) with
    | Some c => returned c
    | None =>
        match function_lookup "cos" function_map with
        | FUNC_INVALID =>
            match lookup "cos" (snd (set_variable "cos" hundred startup)) with
            | Some v => returned v
            | None => failed (UnknownIdentifier "cos")
            end
        | _ => failed InsufficientArguments
        end
    end.
Proof.
  apply (name_resolution_order ExactPoints.lib). split; [reflexivity|vm_compute; lia].
Defined.

Lemma memory_set_variable (nm : string) (v : double) (st : Calc) :
  memory (snd (set_variable nm v st)) = memory st.
Proof.
  unfold set_variable. destruct nm; [reflexivity|].
  destruct (find_variable _ st); [reflexivity|].
  destruct (MAX_VARIABLES <=? variable_count st)%nat; reflexivity.
Qed.

Lemma constant_value_state (nm : string) (st st' : Calc) :
  constant_value nm st = None -> constant_value nm st' = None.
Proof.
  unfold constant_value.
  repeat match goal with
         | |- context [if ?b then _ else _] => destruct b; [discriminate|]
         end.
  reflexivity.
Qed.

(** X16.  Assignment reads back.  After a successful [handle_assignment] to
    a valid name of at most 31 characters that is neither a constant nor a
    function, the variable holds the result and evaluating the name returns
    it; the memory register and all variables but the target and [ans] are
    as they were. *)
Theorem assignment_reads_back (M : libm) (st : Calc) (var_name expression : string) :
  short_name var_name ->
  isnan (ret (fst (handle_assignment M var_name expression st))) = false ->
  let r := fst (handle_assignment M var_name expression st) in
  let st' := snd (handle_assignment M var_name expression st) in
  lookup var_name st' = Some (ret r)
  /\ memory st' = memory st
  /\ (forall other, other <> var_name -> other <> "ans" ->
        lookup other st' = lookup other st)
  /\ (constant_value var_name st = None ->
      function_lookup var_name function_map = FUNC_INVALID ->
      fst (evaluate_expression M var_name st') = returned (ret r)).
Proof.
  intros Hn. cbv zeta. rewrite handle_assignment_stages. cbv zeta.
  set (r := stages M st (failed (MissingExpression var_name)) expression).
  destruct (isnan (ret r)) eqn:Enan; [cbn [fst]; congruence|].
  pose proof (short_name_fits var_name Hn) as Hfit.
  pose proof (lookup_set_same var_name (ret r) st Hfit) as Hsame.
  pose proof (fun other => lookup_set_other var_name other (ret r) st Hfit) as Hother.
  pose proof (memory_set_variable var_name (ret r) st) as Hmem.
  destruct (set_variable var_name (ret r) st) as [[e|i] st1];
    [intros H; discriminate H|].
  intros _. cbn [fst snd] in *.
  assert (Hlook : lookup var_name
                    (snd (set_variable "ans" (ret r) (with_last_result st1 (ret r))))
                  = Some (ret r)).
  { destruct (String.eqb var_name "ans") eqn:E.
    - apply String.eqb_eq in E. subst var_name.
      apply lookup_set_same; [exact fits_ans|].
      apply set_existing_variable; [discriminate|].
      change (find_variable "ans" (with_last_result st1 (ret r)))
        with (find_variable "ans" st1).
      intros Hnone. specialize (Hsame (ex_intro _ i eq_refl)).
      unfold lookup in Hsame. rewrite Hnone in Hsame. discriminate.
    - apply String.eqb_neq in E.
      rewrite lookup_set_other; [|exact fits_ans|congruence].
      apply Hsame. eauto. }
  split; [exact Hlook|]. split; [|split].
  - rewrite memory_set_variable. exact Hmem.
  - intros other H1 H2.
    rewrite lookup_set_other; [|exact fits_ans|congruence].
    apply Hother. congruence.
  - intros Hc Hf. rewrite (name_resolution_order_lemma M _ var_name Hn).
    rewrite (constant_value_state var_name st _ Hc), Hf, Hlook.
    destruct r as [d v]. cbn [ret] in *. reflexivity.
Qed.

Lemma assignment_reads_back_witness :
  lookup "rate" (snd (handle_assignment ExactPoints.lib "rate" "5*2" startup))
  = Some (ret (fst (handle_assignment ExactPoints.lib "rate" "5*2" startup)))
  /\ fst (evaluate_expression ExactPoints.lib "rate"
            (snd (handle_assignment ExactPoints.lib "rate" "5*2" startup)))
     = returned (ret (fst (handle_assignment ExactPoints.lib "rate" "5*2" startup))).
Proof.
  destruct (assignment_reads_back ExactPoints.lib startup "rate" "5*2")
    as (H1 & _ & _ & H4).
  - split; [reflexivity|vm_compute; lia].
  - vm_compute. reflexivity.
  - split; [exact H1|apply H4; reflexivity].
Defined.

(** ** The store command *)

Lemma cstr_no_nul (s : string) :
  string_forallb (fun c => negb (is_char c Ascii.zero)) s = true -> cstr s = s.
Proof. intros H. unfold cstr. rewrite (span_all _ _ H). reflexivity. Qed.

Lemma identifier_no_nul (s : string) :
  string_forallb is_identifier_char s = true ->
  string_forallb (fun c => negb (is_char c Ascii.zero)) s = true.
Proof.
  induction s as [|c r IH]; simpl; [reflexivity|].
  intros H. apply andb_true_iff in H as [Hc Hr]. rewrite (IH Hr), andb_true_r.
  destruct (is_char c Ascii.zero) eqn:E; [|reflexivity].
  apply Ascii.eqb_eq in E. subst c. discriminate Hc.
Qed.

Lemma identifier_char_not_space (c : ascii) :
  is_identifier_char c = true -> isspace c = false.
Proof.
  intros H. destruct (isspace c) eqn:E; [|reflexivity].
  destruct c as [[] [] [] [] [] [] [] []]; vm_compute in E; vm_compute in H;
    discriminate.
Qed.

Lemma span_not_space (s : string) :
  string_forallb is_identifier_char s = true ->
  span (fun c => negb (isspace c)) s = (s, EmptyString).
Proof.
  intros H. apply span_all. revert H.
  induction s as [|c r IH]; simpl; [reflexivity|].
  intros H. apply andb_true_iff in H as [Hc Hr].
  rewrite (identifier_char_not_space c Hc), (IH Hr). reflexivity.
Qed.

(** The part of [rtrim] that works on the reversed text. *)
Lemma rtrim_keeps (s : string) :
  s <> EmptyString ->
  string_forallb is_identifier_char s = true ->
  forall prefix, rtrim (String.append prefix s) = String.append prefix s.
Proof.
  intros Hne Hs prefix. unfold rtrim.
  assert (Hlast : exists l c, list_ascii_of_string (String.append prefix s) = l ++ [c]
                              /\ isspace c = false).
  { assert (Hs' : exists l c, list_ascii_of_string s = l ++ [c] /\ isspace c = false).
    { clear prefix. induction s as [|c r IH]; [contradiction|].
      simpl in Hs. apply andb_true_iff in Hs as [Hc Hr].
      destruct r as [|c1 r1].
      - exists [], c. split; [reflexivity|apply identifier_char_not_space, Hc].
      - destruct IH as (l & c2 & El & Hc2); [discriminate|exact Hr|].
        exists (c :: l), c2. split; [|exact Hc2].
        change (list_ascii_of_string (String c (String c1 r1)))
          with (c :: list_ascii_of_string (String c1 r1)).
        rewrite El. reflexivity. }
    destruct Hs' as (l & c & El & Hc).
    exists (list_ascii_of_string prefix ++ l), c. split; [|exact Hc].
    rewrite <- app_assoc, <- El. clear.
    induction prefix as [|x p IH]; simpl; [reflexivity|]. rewrite IH. reflexivity. }
  destruct Hlast as (l & c & El & Hc).
  rewrite El, rev_app_distr. simpl. rewrite Hc. simpl.
  rewrite rev_involutive, <- El. apply string_of_list_ascii_of_string.
Qed.

(** X17.  The store command.  For a valid name of at most 31 characters,
    the line "store <name>" is a command that writes the last result into
    the variable of that name, creating it if there is room: afterwards the
    variable holds the last result, and nothing else but the variables has
    changed. *)
Theorem store_command_stores (M : libm) (st : Calc) (nm : string) :
  short_name nm ->
  interactive_step M (String.append "store " nm) st
  = (CommandDone, snd (set_variable nm (last_result st) st))
  /\ ((find_variable nm st <> None \/ (variable_count st < MAX_VARIABLES)%nat) ->
      lookup nm (snd (interactive_step M (String.append "store " nm) st))
      = Some (last_result st))
  /\ last_result (snd (interactive_step M (String.append "store " nm) st))
     = last_result st
  /\ memory (snd (interactive_step M (String.append "store " nm) st)) = memory st.
Proof.
  intros Hn. pose proof Hn as [Hv Hl].
  pose proof (valid_name_chars nm Hv) as Hchars.
  assert (Hnm : nm <> EmptyString) by (destruct nm; [discriminate|discriminate]).
  assert (Hstep : interactive_step M (String.append "store " nm) st
                  = (CommandDone, snd (set_variable nm (last_result st) st))).
  { unfold interactive_step.
    assert (Hc : cstr (String.append "store " nm) = String.append "store " nm).
    { apply cstr_no_nul. simpl. apply identifier_no_nul, Hchars. }
    rewrite Hc. change (skip_spaces (String.append "store " nm))
      with (String.append "store " nm).
    change (String.append "store " nm)
      with (String "s" (String.append "tore " nm)) at 1.
    cbv iota.
    assert (Hp : process_command (String.append "store " nm) st
                 = (1, snd (set_variable nm (last_result st) st))).
    { unfold process_command. cbv zeta. rewrite Hc.
      change (skip_spaces (String.append "store " nm))
        with (String.append "store " nm).
      rewrite strncpy_short
        by (rewrite append_length; unfold NMRI_MAX_INPUT, MAX_IDENTIFIER_LEN in *;
            simpl; lia).
      rewrite (rtrim_keeps nm Hnm Hchars "store ").
      assert (Hpre : String.prefix "store " (String.append "store " nm) = true)
        by (cbn; destruct nm; reflexivity).
      rewrite Hpre.
      cbn [String.append String.eqb Ascii.eqb Bool.eqb orb andb skipn_string].
      unfold store_command.
      destruct nm as [|c r]; [congruence|].
      cbn [valid_name] in Hv. apply andb_true_iff in Hv as [Hstart _].
      assert (Hsk : skip_spaces (String c r) = String c r).
      { unfold skip_spaces. cbn [span].
        rewrite (identifier_start_not_space c Hstart). reflexivity. }
      rewrite Hsk, Hstart. cbn [negb].
      rewrite (span_not_space _ Hchars).
      rewrite strncpy_short
        by (unfold MAX_IDENTIFIER_LEN in *; simpl in *; lia).
      rewrite Hchars. cbn [negb]. rewrite Nat.ltb_irrefl. reflexivity. }
    change (String "s" (String.append "tore " nm)) with (String.append "store " nm).
    rewrite Hp. reflexivity. }
  rewrite Hstep. cbn [snd]. split; [reflexivity|]. split; [|split].
  - intros Hroom. apply lookup_set_same; [apply short_name_fits, Hn|].
    unfold set_variable. destruct nm as [|c r]; [congruence|].
    destruct (find_variable (String c r) st) eqn:Ef; [eexists; reflexivity|].
    destruct Hroom as [H|H]; [congruence|].
    apply Nat.leb_gt in H. rewrite H. eexists; reflexivity.
  - apply last_result_set_variable.
  - apply memory_set_variable.
Qed.

Lemma store_command_stores_witness :
  interactive_step ExactPoints.lib (String.append "store " "total") startup
  = (CommandDone, snd (set_variable "total" (last_result startup) startup))
  /\ lookup "total"
       (snd (interactive_step ExactPoints.lib (String.append "store " "total") startup))
     = Some (last_result startup).
Proof.
  destruct (store_command_stores ExactPoints.lib startup "total") as (H1 & H2 & _).
  - split; [reflexivity|vm_compute; lia].
  - split; [exact H1|]. apply H2. right. vm_compute. lia.
Defined.

(** ** The value that is shown *)

Lemma ltb_abs_positive (value epsilon : double) :
  ltb (fabs value) epsilon = true -> ltb Double.zero epsilon = true.
Proof.
  unfold ltb, fabs, SFltb.
  destruct value as [s|s| |s m e], epsilon as [s'|s'| |s' m' e']; simpl;
    try discriminate; try reflexivity;
    destruct s'; try discriminate; reflexivity.
Qed.

(** X18.  [clean_near_zero] answers the value or positive zero; with a
    positive threshold it never answers negative zero, so that no "-0" is
    printed; NaN goes through unchanged; and cleaning twice does no more
    than cleaning once. *)
Theorem clean_near_zero_shows (value epsilon : double) :
  (clean_near_zero value epsilon = Double.zero
   \/ clean_near_zero value epsilon = value)
  /\ (ltb Double.zero epsilon = true ->
      clean_near_zero value epsilon <> S754_zero true)
  /\ (isnan value = true -> clean_near_zero value epsilon = value)
  /\ clean_near_zero (clean_near_zero value epsilon) epsilon
     = clean_near_zero value epsilon.
Proof.
  unfold clean_near_zero. split; [|split; [|split]].
  - destruct (ltb (fabs value) epsilon); auto.
  - intros Hpos. destruct (ltb (fabs value) epsilon) eqn:E; [discriminate|].
    intros ->. simpl in E. unfold Double.zero in Hpos. congruence.
  - intros Hnan. destruct value; try discriminate Hnan. reflexivity.
  - destruct (ltb (fabs value) epsilon) eqn:E.
    + apply ltb_abs_positive in E. simpl. unfold Double.zero in E.
      change (fabs (S754_zero false)) with (S754_zero false).
      rewrite E. reflexivity.
    + rewrite E. reflexivity.
Qed.

Lemma clean_near_zero_shows_witness :
  clean_near_zero (S754_zero true) (literal "1e-10") <> S754_zero true
  /\ clean_near_zero NAN (literal "1e-10") = NAN.
Proof.
  destruct (clean_near_zero_shows (S754_zero true) (literal "1e-10")) as (_ & H & _).
  destruct (clean_near_zero_shows NAN (literal "1e-10")) as (_ & _ & H' & _).
  split; [apply H; vm_compute; reflexivity|apply H'; reflexivity].
Defined.

(** ** The history buffer *)

Lemma adjacent_distinct_tl (l : list string) :
  adjacent_distinct l -> adjacent_distinct (tl l).
Proof. destruct l as [|a [|b l]]; simpl; tauto. Qed.

Lemma adjacent_distinct_app (l : list string) (x : string) :
  adjacent_distinct l -> (l <> [] -> last l EmptyString <> x) ->
  adjacent_distinct (l ++ [x]).
Proof.
  induction l as [|a l IH]; intros Hl Hlast; [exact I|].
  destruct l as [|b l].
  - simpl. split; [|exact I]. apply Hlast. discriminate.
  - destruct Hl as [Hab Hl]. split; [exact Hab|].
    apply IH; [exact Hl|]. intros _. apply Hlast. discriminate.
Qed.

Lemma last_tl (l : list string) (d : string) :
  tl l <> [] -> last (tl l) d = last l d.
Proof. destruct l as [|a [|b l]]; simpl; congruence. Qed.

(** X19.  The history stays in good order: with a line of at most 255
    characters, as the line editor delivers them, [add_to_history] keeps
    the buffer within [HISTORY_SIZE] lines, never stores an empty line or
    the history command, and never stores a line twice in a row. *)
Theorem add_to_history_keeps_order (cmd : string) (history : list string) :
  (String.length cmd < NMRI_MAX_INPUT)%nat ->
  history_ok history ->
  history_ok (add_to_history cmd history).
Proof.
  intros Hlen (Hsize & Hall & Hadj). unfold add_to_history.
  destruct cmd as [|c r]; [repeat split; assumption|].
  set (cmd := String c r) in *.
  destruct (String.eqb cmd "history") eqn:Eh; [repeat split; assumption|].
  apply String.eqb_neq in Eh. cbn [orb].
  destruct ((0 <? Datatypes.length history)%nat
            && String.eqb cmd (last history EmptyString)) eqn:El;
    [repeat split; assumption|].
  rewrite strncpy_short by (unfold NMRI_MAX_INPUT in *; lia).
  assert (Hlast : history <> [] -> last history EmptyString <> cmd).
  { intros Hne Heq. apply andb_false_iff in El as [El|El].
    - apply Nat.ltb_ge in El. destruct history; [congruence|simpl in El; lia].
    - apply String.eqb_neq in El. congruence. }
  assert (Hnew : cmd <> EmptyString /\ cmd <> "history"
                 /\ (String.length cmd < NMRI_MAX_INPUT)%nat)
    by (repeat split; [discriminate|exact Eh|exact Hlen]).
  destruct (Datatypes.length history =? HISTORY_SIZE)%nat eqn:Efull.
  - apply Nat.eqb_eq in Efull. repeat split.
    + rewrite length_app. unfold HISTORY_SIZE in *. destruct history; simpl in *; lia.
    + apply Forall_app. split; [|constructor; [exact Hnew|constructor]].
      destruct history; [constructor|]. apply Forall_inv_tail in Hall. exact Hall.
    + apply adjacent_distinct_app; [apply adjacent_distinct_tl, Hadj|].
      intros Hne. rewrite (last_tl _ _ Hne). apply Hlast.
      destruct history; [contradiction|discriminate].
  - apply Nat.eqb_neq in Efull. repeat split.
    + rewrite length_app. simpl. lia.
    + apply Forall_app. split; [exact Hall|constructor; [exact Hnew|constructor]].
    + apply adjacent_distinct_app; assumption.
Qed.

Lemma add_to_history_keeps_order_witness :
  history_ok (add_to_history "2 + 2" (add_to_history "2 + 2" [])).
Proof.
  apply add_to_history_keeps_order; [vm_compute; lia|].
  apply add_to_history_keeps_order; [vm_compute; lia|].
  repeat split; [vm_compute; lia|constructor].
Defined.

(** X20.  What the history remembers.  A line that is not empty, not the
    history command and not the line entered just before becomes the newest
    line, cut to 255 characters; the older lines stay in order, and the
    oldest is dropped when all [HISTORY_SIZE] cells were taken.  Any other
    line leaves the history as it is. *)
Theorem add_to_history_remembers (cmd : string) (history : list string) :
  (cmd = EmptyString \/ cmd = "history"
   \/ (history <> [] /\ last history EmptyString = cmd) ->
   add_to_history cmd history = history)
  /\
  (cmd <> EmptyString -> cmd <> "history" ->
   (history <> [] -> last history EmptyString <> cmd) ->
   last (add_to_history cmd history) EmptyString = strncpy (NMRI_MAX_INPUT - 1) cmd
   /\ removelast (add_to_history cmd history)
      = if (List.length history =? HISTORY_SIZE)%nat then tl history else history).
Proof.
  unfold add_to_history. split.
  - intros [->|[->|[Hne Hlast]]]; try reflexivity.
    destruct cmd; [reflexivity|].
    destruct (String.eqb (String a cmd) "history"); [reflexivity|].
    rewrite <- Hlast, String.eqb_refl, andb_true_r. cbn [orb].
    destruct history; [contradiction|reflexivity].
  - intros Hne Hh Hlast. destruct cmd as [|c r]; [contradiction|].
    apply String.eqb_neq in Hh. rewrite Hh. cbn [orb].
    assert ((0 <? Datatypes.length history)%nat
            && String.eqb (String c r) (last history EmptyString) = false) as ->.
    { destruct history as [|a l]; [reflexivity|].
      apply andb_false_iff. right. apply String.eqb_neq.
      intros Heq. apply Hlast; [discriminate|]. congruence. }
    split; [apply last_last|].
    rewrite removelast_app by discriminate. simpl. apply app_nil_r.
Qed.

Lemma add_to_history_remembers_witness :
  add_to_history "history" ["1 + 1"] = ["1 + 1"]
  /\ last (add_to_history "2 * 3" ["1 + 1"]) EmptyString
     = strncpy (NMRI_MAX_INPUT - 1) "2 * 3".
Proof.
  destruct (add_to_history_remembers "history" ["1 + 1"]) as [H1 _].
  destruct (add_to_history_remembers "2 * 3" ["1 + 1"]) as [_ H2].
  split; [apply H1; auto|].
  apply H2; [discriminate|discriminate|intros _; discriminate].
Defined.

(** ** The listing of the variables *)

Lemma remove_nth_permutation {A : Type} (l : list A) :
  forall i x, nth_error l i = Some x -> Permutation (x :: remove_nth i l) l.
Proof.
  induction l as [|a l IH]; intros [|i] x H; simpl in *; try discriminate.
  - injection H as ->. reflexivity.
  - rewrite perm_swap. constructor. apply IH, H.
Qed.

Lemma find_index_name (nm : string) :
  forall vs k j x, find_index nm vs k = Some j ->
    nth_error vs (j - k) = Some x -> name x = nm.
Proof.
  induction vs as [|y vs IH]; intros k j x Hf Hn; [discriminate|].
  simpl in Hf. destruct (String.eqb (name y) nm) eqn:E.
  - injection Hf as <-. rewrite Nat.sub_diag in Hn. injection Hn as <-.
    apply String.eqb_eq, E.
  - pose proof (find_index_bounds _ _ _ _ Hf) as Hb.
    replace (j - k)%nat with (S (j - S k)) in Hn by lia.
    apply (IH _ _ _ Hf Hn).
Qed.

(** X21.  [show_variables] lists every variable of the store exactly once;
    when [ans] is defined, its line comes first. *)
Theorem show_variables_lists_all (st : Calc) :
  Permutation (show_variables st) (variables st)
  /\ (forall v, lookup "ans" st = Some v ->
        exists rest, show_variables st = mkVariable "ans" v :: rest).
Proof.
  unfold show_variables, lookup, variable_value, find_variable.
  destruct (find_index "ans" (variables st) 0) as [i|] eqn:Ef.
  - destruct (nth_error (variables st) i) as [x|] eqn:En.
    + split; [apply remove_nth_permutation, En|].
      intros v Hv. injection Hv as <-. exists (remove_nth i (variables st)).
      f_equal. destruct x as [nm val]. simpl. f_equal.
      apply (find_index_name _ _ _ _ (mkVariable nm val) Ef).
      rewrite Nat.sub_0_r. exact En.
    + apply find_index_bounds in Ef. apply nth_error_None in En. simpl in Ef. lia.
  - split; [reflexivity|discriminate].
Qed.

Lemma show_variables_lists_all_witness :
  Permutation (show_variables (snd (set_variable "x" NAN startup)))
    (variables (snd (set_variable "x" NAN startup)))
  /\ exists rest,
       show_variables (snd (set_variable "x" NAN startup))
       = mkVariable "ans" Double.zero :: rest.
Proof.
  destruct (show_variables_lists_all (snd (set_variable "x" NAN startup))) as [H1 H2].
  split; [exact H1|apply H2; reflexivity].
Defined.

(** ** The expression given on the command line *)

Lemma string_append_assoc (a b c : string) :
  String.append (String.append a b) c = String.append a (String.append b c).
Proof. induction a as [|x a IH]; simpl; [reflexivity|]. rewrite IH. reflexivity. Qed.

Lemma join_arguments_buffer :
  forall args buffer,
    buffer <> EmptyString ->
    (String.length buffer < CMD_LINE_EXPR_BUFFER_SIZE)%nat ->
    join_arguments args buffer
    = if (String.length (String.concat " " (buffer :: args))
          <? CMD_LINE_EXPR_BUFFER_SIZE)%nat
      then Some (String.concat " " (buffer :: args)) else None.
Proof.
  induction args as [|a args IH]; intros buffer Hne Hlen.
  - simpl. apply Nat.ltb_lt in Hlen. rewrite Hlen. reflexivity.
  - cbn [join_arguments].
    assert (Hpos : (0 <? String.length buffer)%nat = true).
    { apply Nat.ltb_lt. destruct buffer; [contradiction|simpl; lia]. }
    rewrite Hpos.
    assert (Hcat : forall rest, String.concat " " (buffer :: a :: rest)
                   = String.concat " " (String.append (String.append buffer " ") a :: rest)).
    { intros rest. cbn [String.concat]. destruct rest.
      - rewrite string_append_assoc. reflexivity.
      - rewrite !string_append_assoc. reflexivity. }
    rewrite Hcat.
    assert (Hgrow : forall rest : list string, forall b : string,
              (String.length b <= String.length (String.concat " " (b :: rest)))%nat).
    { intros rest b. cbn [String.concat]. destruct rest; [lia|].
      rewrite append_length. lia. }
    destruct (CMD_LINE_EXPR_BUFFER_SIZE <=? String.length buffer + String.length a + 1)%nat eqn:E.
    + apply Nat.leb_le in E.
      pose proof (Hgrow args (String.append (String.append buffer " ") a)) as Hg.
      rewrite !append_length in Hg. change (String.length " ") with 1%nat in Hg.
      destruct (Nat.ltb_spec (String.length (String.concat " "
                  (String.append (String.append buffer " ") a :: args)))
                  CMD_LINE_EXPR_BUFFER_SIZE); [lia|reflexivity].
    + apply Nat.leb_gt in E. apply IH.
      * destruct buffer; [contradiction|discriminate].
      * rewrite !append_length. change (String.length " ") with 1%nat. lia.
Qed.

(** X22.  The arguments of the command line, the first of them not empty,
    are joined with single spaces; the joined expression is evaluated when
    it is shorter than the buffer of [CMD_LINE_EXPR_BUFFER_SIZE] bytes, and
    refused otherwise, whichever argument made it too long. *)
Theorem join_arguments_joins (arg : string) (args : list string) :
  arg <> EmptyString ->
  join_arguments (arg :: args) EmptyString
  = if (String.length (String.concat " " (arg :: args))
        <? CMD_LINE_EXPR_BUFFER_SIZE)%nat
    then Some (String.concat " " (arg :: args)) else None.
Proof.
  intros Hne. cbn [join_arguments].
  change (String.length EmptyString) with 0%nat.
  change (0 <? 0)%nat with false. cbv iota.
  replace (0 + String.length arg + 0)%nat with (String.length arg) by lia.
  change (String.append EmptyString arg) with arg.
  assert (Hgrow : (String.length arg
                   <= String.length (String.concat " " (arg :: args)))%nat).
  { cbn [String.concat]. destruct args; [lia|]. rewrite append_length. lia. }
  destruct (CMD_LINE_EXPR_BUFFER_SIZE <=? String.length arg)%nat eqn:E.
  - apply Nat.leb_le in E.
    destruct (Nat.ltb_spec (String.length (String.concat " " (arg :: args)))
                CMD_LINE_EXPR_BUFFER_SIZE); [lia|reflexivity].
  - apply Nat.leb_gt in E. apply join_arguments_buffer; assumption.
Qed.

Lemma join_arguments_joins_witness :
  join_arguments ["2"; "+"; "3"] EmptyString = Some "2 + 3".
Proof.
  rewrite (join_arguments_joins "2" ["+"; "3"]) by discriminate. reflexivity.
Defined.

(** ** The line editor *)

Lemma read_loop_final (h : list string) (m : nat) (I : Editor -> Prop) :
  (forall ed, I ed -> I (key_backspace ed)) ->
  (forall ed, I ed -> I (key_delete ed)) ->
  (forall ed, I ed -> I (key_home ed)) ->
  (forall ed, I ed -> I (key_end ed)) ->
  (forall seq1 ed, I ed -> I (key_arrow h m seq1 ed)) ->
  (forall c ed, I ed -> iscntrl c = false ->
     (String.length (buffer ed) < m - 1)%nat -> I (key_insert c ed)) ->
  forall keys ed, I ed ->
    exists ed', I ed' /\ read_loop h m keys ed = buffer ed'.
Proof.
  intros Hb Hd Hh He Ha Hi keys.
  assert (H : forall n ks, (List.length ks <= n)%nat -> forall ed, I ed ->
                exists ed', I ed' /\ read_loop h m ks ed = buffer ed').
  { induction n as [|n IH]; intros ks Hn ed Hed.
    - destruct ks; [|simpl in Hn; lia]. exists ed. split; [exact Hed|reflexivity].
    - destruct ks as [|c ks]; [exists ed; split; [exact Hed|reflexivity]|].
      simpl in Hn. cbn [read_loop].
      destruct (is_char c KEY_ENTER || is_char c KEY_RETURN);
        [exists ed; split; [exact Hed|reflexivity]|].
      destruct (is_char c KEY_BACKSPACE); [apply IH; [lia|auto]|].
      destruct (is_char c KEY_CTRL_D); [apply IH; [lia|auto]|].
      destruct (is_char c KEY_CTRL_A); [apply IH; [lia|auto]|].
      destruct (is_char c KEY_CTRL_E); [apply IH; [lia|auto]|].
      destruct (is_char c KEY_ESC).
      + destruct ks as [|seq0 [|seq1 ks2]];
          try (exists ed; split; [exact Hed|reflexivity]).
        simpl in Hn.
        destruct (is_char seq0 "["); [|apply IH; [lia|auto]].
        destruct (isdigit seq1).
        * destruct ks2 as [|seq2 ks3]; [exists ed; split; [exact Hed|reflexivity]|].
          simpl in Hn.
          destruct (is_char seq1 "3" && is_char seq2 "~"); apply IH; auto; lia.
        * apply IH; [lia|auto].
      + destruct (iscntrl c) eqn:Ec; cbn [negb andb]; [apply IH; [lia|auto]|].
        destruct (Nat.ltb_spec (String.length (buffer ed)) (m - 1));
          apply IH; auto; lia. }
  intros ed. apply (H (List.length keys)). lia.
Qed.

Lemma delete_at_length (s : string) :
  forall i, (i < String.length s)%nat ->
    String.length (delete_at i s) = (String.length s - 1)%nat.
Proof.
  induction s as [|c r IH]; intros [|i] H; simpl in *; try lia.
  rewrite IH by lia. lia.
Qed.

Lemma insert_at_length (c : ascii) (s : string) :
  forall i, String.length (insert_at i c s) = S (String.length s).
Proof.
  induction s as [|x r IH]; intros [|i]; simpl; try reflexivity.
  rewrite IH. reflexivity.
Qed.

Lemma delete_insert (c : ascii) (s : string) :
  forall i, (i <= String.length s)%nat -> delete_at i (insert_at i c s) = s.
Proof.
  induction s as [|x r IH]; intros [|i] H; simpl in *; try reflexivity; try lia.
  rewrite IH by lia. reflexivity.
Qed.

Lemma printable_strncpy (s : string) :
  forall n, printable s = true -> printable (strncpy n s) = true.
Proof.
  induction s as [|c r IH]; intros [|n] H; simpl in *; try reflexivity.
  apply andb_true_iff in H as [Hc Hr]. rewrite Hc, (IH n Hr). reflexivity.
Qed.

Lemma printable_delete (s : string) :
  forall i, printable s = true -> printable (delete_at i s) = true.
Proof.
  induction s as [|c r IH]; intros [|i] H; simpl in *; try reflexivity;
    apply andb_true_iff in H as [Hc Hr]; [exact Hr|].
  rewrite Hc, (IH i Hr). reflexivity.
Qed.

Lemma printable_insert (c : ascii) (s : string) :
  iscntrl c = false ->
  forall i, printable s = true -> printable (insert_at i c s) = true.
Proof.
  intros Hc. induction s as [|x r IH]; intros [|i] H; simpl in *;
    rewrite ?Hc; simpl; try reflexivity; try exact H.
  apply andb_true_iff in H as [Hx Hr]. rewrite Hx, (IH i Hr). reflexivity.
Qed.

Lemma printable_nth (h : list string) (i : nat) :
  Forall (fun line => printable line = true) h ->
  printable (nth i h EmptyString) = true.
Proof.
  intros H. destruct (Nat.lt_ge_cases i (List.length h)) as [Hi|Hi].
  - rewrite Forall_forall in H. apply H, nth_In, Hi.
  - rewrite nth_overflow by exact Hi. reflexivity.
Qed.

(** X23.  The line that [readCommand] answers, whatever bytes arrive: with
    its terminating NUL it fits the buffer of [max_size] bytes, and when the
    history holds no control character neither does the line, so that it
    holds no newline, escape or NUL. *)
Theorem readCommand_line (command_history : list string) (max_size : nat)
  (keys : list ascii) :
  (0 < max_size)%nat ->
  (String.length (readCommand command_history max_size keys) < max_size)%nat
  /\ (Forall (fun line => printable line = true) command_history ->
      printable (readCommand command_history max_size keys) = true).
Proof.
  intros Hm.
  change (readCommand command_history max_size keys)
    with (read_loop command_history max_size keys (editor_start command_history)).
  split.
  - destruct (read_loop_final command_history max_size
                (fun ed => (pos ed <= String.length (buffer ed))%nat
                           /\ (String.length (buffer ed) <= max_size - 1)%nat))
      with (keys := keys) (ed := editor_start command_history)
      as (ed' & [_ Hlen] & ->).
    + intros ed [Hp Hl]. unfold key_backspace.
      destruct (Nat.ltb_spec 0 (pos ed)); [|tauto]. simpl.
      rewrite delete_at_length by lia. lia.
    + intros ed [Hp Hl]. unfold key_delete.
      destruct (Nat.ltb_spec (pos ed) (String.length (buffer ed))); [|tauto].
      simpl. rewrite delete_at_length by lia. lia.
    + intros ed [Hp Hl]. simpl. lia.
    + intros ed [Hp Hl]. simpl. lia.
    + intros seq1 ed [Hp Hl].
      assert (Hload : forall e line hp saved,
                (pos (load max_size e line hp saved)
                 <= String.length (buffer (load max_size e line hp saved)))%nat
                /\ (String.length (buffer (load max_size e line hp saved))
                    <= max_size - 1)%nat).
      { intros e line hp saved. simpl. split; [lia|apply strncpy_length]. }
      unfold key_arrow, key_up, key_down, key_right, key_left.
      repeat match goal with
             | |- context [if ?b then _ else _] => destruct b eqn:?
             end; try apply Hload; simpl; try tauto;
        repeat match goal with
               | H : (_ <? _)%nat = true |- _ => apply Nat.ltb_lt in H
               end; lia.
    + intros c ed [Hp Hl] _ Hroom. simpl. rewrite insert_at_length. lia.
    + simpl. lia.
    + lia.
  - intros Hh.
    destruct (read_loop_final command_history max_size
                (fun ed => printable (buffer ed) = true
                           /\ printable (current_typed ed) = true))
      with (keys := keys) (ed := editor_start command_history)
      as (ed' & [Hb _] & ->).
    + intros ed [Hb Ht]. unfold key_backspace.
      destruct (0 <? pos ed)%nat; [|tauto]. simpl.
      split; [apply printable_delete, Hb|exact Ht].
    + intros ed [Hb Ht]. unfold key_delete.
      destruct (pos ed <? String.length (buffer ed))%nat; [|tauto]. simpl.
      split; [apply printable_delete, Hb|exact Ht].
    + intros ed H. exact H.
    + intros ed H. exact H.
    + intros seq1 ed [Hb Ht].
      assert (Hload : forall e line hp saved,
                printable line = true -> printable (current_typed e) = true ->
                printable (buffer (load max_size e line hp saved)) = true
                /\ printable (current_typed (load max_size e line hp saved)) = true).
      { intros e line hp saved Hl He. simpl.
        split; [apply printable_strncpy, Hl|exact He]. }
      pose proof (printable_strncpy _ (NMRI_MAX_INPUT - 1) Hb) as Hs.
      unfold key_arrow, key_up, key_down, key_right, key_left.
      repeat match goal with
             | |- context [if ?b then _ else _] => destruct b
             end; try apply Hload; simpl;
        try apply printable_nth; try tauto; try reflexivity.
    + intros c ed [Hb Ht] Hc _. simpl.
      split; [apply printable_insert; assumption|exact Ht].
    + split; reflexivity.
    + exact Hb.
Qed.

Lemma readCommand_line_witness :
  (String.length (readCommand ["1 + 1"] NMRI_MAX_INPUT (arrow_up ++ [KEY_ENTER]))
   < NMRI_MAX_INPUT)%nat
  /\ printable (readCommand ["1 + 1"] NMRI_MAX_INPUT (arrow_up ++ [KEY_ENTER])) = true.
Proof.
  destruct (readCommand_line ["1 + 1"] NMRI_MAX_INPUT (arrow_up ++ [KEY_ENTER]))
    as [H1 H2]; [unfold NMRI_MAX_INPUT; lia|].
  split; [exact H1|]. apply H2. constructor; [reflexivity|constructor].
Defined.

Lemma read_loop_insert (h : list string) (m : nat) (c : ascii) (ks : list ascii)
  (ed : Editor) :
  iscntrl c = false ->
  read_loop h m (c :: ks) ed
  = if (String.length (buffer ed) <? m - 1)%nat
    then read_loop h m ks (key_insert c ed) else read_loop h m ks ed.
Proof.
  intros H. destruct c as [[] [] [] [] [] [] [] []]; try discriminate H; reflexivity.
Qed.

Lemma strncpy_app (b x : string) :
  forall n, (n <= String.length b)%nat -> strncpy n (String.append b x) = strncpy n b.
Proof.
  induction b as [|c r IH]; intros [|n] H; simpl in *; try reflexivity; try lia.
  rewrite IH by lia. reflexivity.
Qed.

Lemma insert_at_end (c : ascii) (s : string) :
  insert_at (String.length s) c s = String.append s (String c EmptyString).
Proof. induction s as [|x r IH]; simpl; [reflexivity|]. rewrite IH. reflexivity. Qed.

Lemma with_line_same (ed : Editor) :
  with_line ed (buffer ed) (pos ed) = ed.
Proof. destruct ed. reflexivity. Qed.

(** The editor after a text was typed at the end of the line. *)
Lemma read_loop_typed (h : list string) (m : nat) (ks : list ascii) :
  forall text ed,
    printable text = true ->
    pos ed = String.length (buffer ed) ->
    (String.length (buffer ed) <= m - 1)%nat ->
    read_loop h m (list_ascii_of_string text ++ ks) ed
    = read_loop h m ks
        (with_line ed (strncpy (m - 1) (String.append (buffer ed) text))
           (String.length (strncpy (m - 1) (String.append (buffer ed) text)))).
Proof.
  induction text as [|c r IH]; intros ed Hp Hpos Hlen.
  - rewrite string_append_nil, strncpy_short by exact Hlen.
    rewrite <- Hpos, with_line_same. reflexivity.
  - simpl in Hp. apply andb_true_iff in Hp as [Hc Hr].
    apply negb_true_iff in Hc.
    cbn [list_ascii_of_string app]. rewrite (read_loop_insert _ _ _ _ _ Hc).
    destruct (Nat.ltb_spec (String.length (buffer ed)) (m - 1)) as [Hroom|Hfull].
    + rewrite (IH (key_insert c ed) Hr).
      * simpl. rewrite Hpos, insert_at_end, string_append_assoc. reflexivity.
      * simpl. rewrite insert_at_length. lia.
      * simpl. rewrite insert_at_length. lia.
    + rewrite (IH ed Hr Hpos Hlen).
      rewrite !strncpy_app by lia. reflexivity.
Qed.

(** X24.  A text without control characters that is typed and ended by
    Enter or Return is the line that [readCommand] answers, cut to the
    [max_size - 1] characters that the buffer holds, whatever bytes follow
    the Enter. *)
Theorem readCommand_typed (command_history : list string) (max_size : nat)
  (text : string) (enter : ascii) (rest : list ascii) :
  (0 < max_size)%nat ->
  printable text = true ->
  enter = KEY_ENTER \/ enter = KEY_RETURN ->
  readCommand command_history max_size (list_ascii_of_string text ++ enter :: rest)
  = strncpy (max_size - 1) text.
Proof.
  intros _ Hp He.
  change (readCommand command_history max_size
            (list_ascii_of_string text ++ enter :: rest))
    with (read_loop command_history max_size
            (list_ascii_of_string text ++ enter :: rest) (editor_start command_history)).
  rewrite (read_loop_typed _ _ _ _ _ Hp) by (simpl; lia).
  destruct He as [-> | ->]; reflexivity.
Qed.

Lemma readCommand_typed_witness :
  readCommand [] NMRI_MAX_INPUT (list_ascii_of_string "2 + 3" ++ KEY_ENTER :: [])
  = strncpy (NMRI_MAX_INPUT - 1) "2 + 3".
Proof.
  apply (readCommand_typed [] NMRI_MAX_INPUT "2 + 3" KEY_ENTER []);
    [unfold NMRI_MAX_INPUT; lia|reflexivity|left; reflexivity].
Defined.

(** X25.  Erasing undoes typing: wherever the cursor stands in a line with
    room for one more character, a typed character followed by Backspace,
    or by the left arrow and then Ctrl+D or the Delete key, leaves the
    editor as it was. *)
Theorem erasing_undoes_typing (command_history : list string) (max_size : nat)
  (c : ascii) (ks : list ascii) (ed : Editor) :
  iscntrl c = false ->
  (pos ed <= String.length (buffer ed))%nat ->
  (String.length (buffer ed) < max_size - 1)%nat ->
  read_loop command_history max_size (c :: KEY_BACKSPACE :: ks) ed
  = read_loop command_history max_size ks ed
  /\ read_loop command_history max_size
       (c :: KEY_ESC :: "["%char :: "D"%char :: KEY_CTRL_D :: ks) ed
     = read_loop command_history max_size ks ed
  /\ read_loop command_history max_size
       (c :: KEY_ESC :: "["%char :: "D"%char
          :: KEY_ESC :: "["%char :: "3"%char :: "~"%char :: ks) ed
     = read_loop command_history max_size ks ed
  /\ key_backspace (key_insert c ed) = ed
  /\ key_delete (key_left (key_insert c ed)) = ed.
Proof.
  intros Hc Hpos Hroom.
  rewrite !(read_loop_insert _ _ _ _ _ Hc).
  apply Nat.ltb_lt in Hroom. rewrite Hroom.
  change (read_loop command_history max_size (KEY_BACKSPACE :: ks) (key_insert c ed))
    with (read_loop command_history max_size ks (key_backspace (key_insert c ed))).
  change (read_loop command_history max_size
            (KEY_ESC :: "["%char :: "D"%char :: KEY_CTRL_D :: ks) (key_insert c ed))
    with (read_loop command_history max_size ks
            (key_delete (key_left (key_insert c ed)))).
  change (read_loop command_history max_size
            (KEY_ESC :: "["%char :: "D"%char
               :: KEY_ESC :: "["%char :: "3"%char :: "~"%char :: ks) (key_insert c ed))
    with (read_loop command_history max_size ks
            (key_delete (key_left (key_insert c ed)))).
  assert (Hb : key_backspace (key_insert c ed) = ed).
  { destruct ed as [b p hp sv ty]. unfold key_backspace, key_insert, with_line.
    simpl in *. rewrite Nat.sub_0_r, delete_insert by exact Hpos. reflexivity. }
  assert (Hd : key_delete (key_left (key_insert c ed)) = ed).
  { destruct ed as [b p hp sv ty]. unfold key_delete, key_left, key_insert, with_line.
    simpl in *. rewrite Nat.sub_0_r. simpl. rewrite insert_at_length.
    assert ((p <? S (String.length b))%nat = true) as -> by (apply Nat.ltb_lt; lia).
    simpl. rewrite delete_insert by exact Hpos. reflexivity. }
  rewrite Hb, Hd. auto.
Qed.

Lemma erasing_undoes_typing_witness :
  read_loop [] NMRI_MAX_INPUT ("a"%char :: KEY_BACKSPACE :: [KEY_ENTER]) (editor_start [])
  = read_loop [] NMRI_MAX_INPUT [KEY_ENTER] (editor_start []).
Proof.
  apply (erasing_undoes_typing [] NMRI_MAX_INPUT "a"%char [KEY_ENTER] (editor_start []));
    [reflexivity|simpl; lia|unfold NMRI_MAX_INPUT; simpl; lia].
Defined.

Lemma read_loop_up (h : list string) (m : nat) (ks : list ascii) (ed : Editor) :
  read_loop h m (arrow_up ++ ks) ed = read_loop h m ks (key_up h m ed).
Proof. reflexivity. Qed.

Lemma read_loop_down (h : list string) (m : nat) (ks : list ascii) (ed : Editor) :
  read_loop h m (arrow_down ++ ks) ed = read_loop h m ks (key_down h m ed).
Proof. reflexivity. Qed.

Lemma key_up_loads (h : list string) (m : nat) (ed : Editor) :
  (0 < history_pos ed)%nat ->
  history_pos (key_up h m ed) = (history_pos ed - 1)%nat
  /\ buffer (key_up h m ed)
     = strncpy (m - 1) (nth (history_pos ed - 1) h EmptyString).
Proof.
  intros H. unfold key_up.
  destruct (negb (saved_current ed) && (0 <? String.length (buffer ed))%nat);
    cbn [history_pos]; apply Nat.ltb_lt in H; rewrite H; split; reflexivity.
Qed.

Lemma read_loop_ups (h : list string) (m : nat) (ks : list ascii) :
  forall k ed, (k <= history_pos ed)%nat ->
    exists ed',
      read_loop h m (List.concat (repeat arrow_up k) ++ ks) ed = read_loop h m ks ed'
      /\ history_pos ed' = (history_pos ed - k)%nat
      /\ (k = 0%nat -> ed' = ed)
      /\ ((1 <= k)%nat ->
          buffer ed' = strncpy (m - 1) (nth (history_pos ed - k) h EmptyString)).
Proof.
  induction k as [|k IH]; intros ed Hk.
  - exists ed. refine (conj eq_refl (conj _ (conj (fun _ => eq_refl) _))); lia.
  - cbn [repeat List.concat]. rewrite <- app_assoc, read_loop_up.
    destruct (key_up_loads h m ed) as [Hh Hb]; [lia|].
    destruct (IH (key_up h m ed)) as (ed' & Hr & Hp & H0 & H1); [lia|].
    exists ed'. rewrite Hr.
    refine (conj eq_refl (conj _ (conj _ _))); [lia|discriminate|].
    intros _. destruct k as [|k].
    + rewrite (H0 eq_refl). exact Hb.
    + rewrite H1 by lia. rewrite Hh. do 2 f_equal. lia.
Qed.

(** X26.  The up arrow walks back through the history: after any typed
    text, pressing it [k] times, [k] between 1 and the number of lines
    remembered, and then Enter answers the [k]-th newest line of the
    history in place of the text. *)
Theorem history_recall (command_history : list string) (max_size : nat)
  (text : string) (k : nat) (rest : list ascii) :
  (0 < max_size)%nat ->
  printable text = true ->
  (1 <= k <= List.length command_history)%nat ->
  readCommand command_history max_size
    (list_ascii_of_string text ++ List.concat (repeat arrow_up k) ++ KEY_ENTER :: rest)
  = strncpy (max_size - 1)
      (nth (List.length command_history - k) command_history EmptyString).
Proof.
  intros _ Hp Hk.
  change (readCommand command_history max_size ?keys)
    with (read_loop command_history max_size keys (editor_start command_history)).
  rewrite (read_loop_typed _ _ _ _ _ Hp) by (simpl; lia).
  match goal with
  | |- read_loop _ _ _ ?ed = _ =>
      destruct (read_loop_ups command_history max_size (KEY_ENTER :: rest) k ed)
        as (ed' & Hr & _ & _ & Hb); [exact (proj2 Hk)|]
  end.
  rewrite Hr. specialize (Hb (proj1 Hk)).
  change (buffer ed' = strncpy (max_size - 1)
            (nth (List.length command_history - k) command_history EmptyString)) in Hb.
  rewrite <- Hb. reflexivity.
Qed.

Lemma history_recall_witness :
  readCommand ["1 + 1"; "2 * 3"] NMRI_MAX_INPUT
    (list_ascii_of_string "7" ++ List.concat (repeat arrow_up 2) ++ KEY_ENTER :: [])
  = strncpy (NMRI_MAX_INPUT - 1) (nth (2 - 2) ["1 + 1"; "2 * 3"] EmptyString).
Proof.
  apply (history_recall ["1 + 1"; "2 * 3"] NMRI_MAX_INPUT "7" 2 []);
    [unfold NMRI_MAX_INPUT; lia|reflexivity|simpl; lia].
Defined.

Lemma key_up_saves (h : list string) (m : nat) (ed : Editor) :
  saved_current ed = false ->
  saved_current (key_up h m ed) = (0 <? String.length (buffer ed))%nat
  /\ current_typed (key_up h m ed)
     = if (0 <? String.length (buffer ed))%nat
       then strncpy (NMRI_MAX_INPUT - 1) (buffer ed) else current_typed ed.
Proof.
  intros Hs. unfold key_up. rewrite Hs. cbn [negb andb].
  destruct (0 <? String.length (buffer ed))%nat; cbn [history_pos];
    destruct (0 <? history_pos ed)%nat; cbn; auto.
Qed.

Lemma key_up_top (h : list string) (m : nat) (ed : Editor) :
  history_pos ed = 0%nat ->
  history_pos (key_up h m ed) = 0%nat /\ buffer (key_up h m ed) = buffer ed.
Proof.
  intros H. unfold key_up.
  destruct (negb (saved_current ed) && (0 <? String.length (buffer ed))%nat);
    cbn [history_pos]; rewrite H; change (0 <? 0)%nat with false; cbn iota;
    split; auto.
Qed.

Lemma key_down_newest (h : list string) (m : nat) (ed : Editor) :
  S (history_pos ed) = List.length h ->
  buffer (key_down h m ed)
  = strncpy (m - 1) (if saved_current ed then current_typed ed else EmptyString).
Proof.
  intros H. unfold key_down, history_count. rewrite <- H.
  assert ((history_pos ed <? S (history_pos ed))%nat = true) as ->
    by (apply Nat.ltb_lt; lia).
  rewrite Nat.eqb_refl, Nat.ltb_irrefl.
  destruct (saved_current ed); reflexivity.
Qed.

Lemma key_down_bottom (h : list string) (m : nat) (ed : Editor) :
  history_pos ed = List.length h -> key_down h m ed = ed.
Proof.
  intros H. unfold key_down, history_count. rewrite H, Nat.ltb_irrefl. reflexivity.
Qed.

(** X27.  Looking into the history loses nothing: a typed text that fits the
    buffer, followed by the up arrow, the down arrow and Enter, is answered
    as it was typed, whatever the history holds. *)
Theorem history_round_trip (command_history : list string) (max_size : nat)
  (text : string) (rest : list ascii) :
  printable text = true ->
  (String.length text < max_size)%nat ->
  (String.length text < NMRI_MAX_INPUT)%nat ->
  readCommand command_history max_size
    (list_ascii_of_string text ++ arrow_up ++ arrow_down ++ KEY_ENTER :: rest)
  = text.
Proof.
  intros Hp Hm Hn.
  change (readCommand command_history max_size ?keys)
    with (read_loop command_history max_size keys (editor_start command_history)).
  rewrite (read_loop_typed _ _ _ _ _ Hp) by (simpl; lia).
  rewrite read_loop_up, read_loop_down.
  cbn [editor_start buffer String.append].
  rewrite (strncpy_short (max_size - 1) text) by lia.
  match goal with
  | |- read_loop ?h ?m (KEY_ENTER :: ?r) ?ed = _ =>
      change (read_loop h m (KEY_ENTER :: r) ed) with (buffer ed)
  end.
  set (ed := with_line _ text (String.length text)).
  assert (Hpos : history_pos ed = List.length command_history) by reflexivity.
  destruct command_history as [|line lines].
  - destruct (key_up_top [] max_size ed Hpos) as [Ht Hb].
    rewrite key_down_bottom by exact Ht. exact Hb.
  - destruct (key_up_loads (line :: lines) max_size ed) as [Hh _];
      [rewrite Hpos; simpl; lia|].
    destruct (key_up_saves (line :: lines) max_size ed eq_refl) as [Hs Hc].
    rewrite key_down_newest by (rewrite Hh, Hpos; simpl; lia).
    rewrite Hs, Hc. change (buffer ed) with text.
    destruct text as [|c r]; [destruct (max_size - 1)%nat; reflexivity|].
    cbn [String.length Nat.ltb Nat.leb].
    rewrite (strncpy_short (NMRI_MAX_INPUT - 1)) by lia.
    apply strncpy_short. lia.
Qed.

Lemma history_round_trip_witness :
  readCommand ["1 + 1"] NMRI_MAX_INPUT
    (list_ascii_of_string "2 * 3" ++ arrow_up ++ arrow_down ++ KEY_ENTER :: [])
  = "2 * 3".
Proof.
  apply (history_round_trip ["1 + 1"] NMRI_MAX_INPUT "2 * 3" []);
    [reflexivity|vm_compute; lia|vm_compute; lia].
Defined.

(** ** The memory register *)

Lemma span_suffix_forallb (f g : ascii -> bool) (s : string) :
  string_forallb g s = true -> string_forallb g (snd (span f s)) = true.
Proof.
  induction s as [|c r IH]; simpl; [reflexivity|].
  intros H. destruct (f c); [|exact H].
  apply andb_true_iff in H as [_ Hr]. specialize (IH Hr).
  destruct (span f r). exact IH.
Qed.

Lemma span_prefix_forallb (f : ascii -> bool) (s : string) :
  string_forallb f (fst (span f s)) = true.
Proof.
  induction s as [|c r IH]; simpl; [reflexivity|].
  destruct (f c) eqn:E; [|reflexivity].
  destruct (span f r). simpl in *. rewrite E, IH. reflexivity.
Qed.

Lemma skip_spaces_idempotent (s : string) :
  skip_spaces (skip_spaces s) = skip_spaces s.
Proof.
  unfold skip_spaces. induction s as [|c r IH]; [reflexivity|].
  simpl. destruct (isspace c) eqn:E.
  - destruct (span isspace r). exact IH.
  - simpl. rewrite E. reflexivity.
Qed.

Lemma trimmed_start (input : string) :
  skip_spaces (cstr (skip_spaces (cstr input))) = skip_spaces (cstr input).
Proof.
  rewrite (cstr_no_nul (skip_spaces (cstr input))).
  - apply skip_spaces_idempotent.
  - apply span_suffix_forallb, span_prefix_forallb.
Qed.

Lemma process_command_trimmed (input : string) (st : Calc) :
  process_command (skip_spaces (cstr input)) st = process_command input st.
Proof. unfold process_command. rewrite trimmed_start. reflexivity. Qed.

Lemma store_command_memory (arg : string) (st : Calc) :
  memory (store_command arg st) = memory st.
Proof.
  unfold store_command.
  destruct (skip_spaces arg) as [|c r]; [reflexivity|].
  destruct (negb (is_identifier_start c)); [reflexivity|].
  destruct (span _ _) as [word rest].
  destruct (negb _); [reflexivity|].
  destruct (_ <? _)%nat; [reflexivity|apply memory_set_variable].
Qed.

Lemma evaluate_expression_memory (M : libm) (input : string) (st : Calc) :
  memory (snd (evaluate_expression M input st)) = memory st.
Proof.
  rewrite evaluate_expression_stages. cbv zeta.
  destruct (isnan _); cbn [snd]; [reflexivity|].
  rewrite memory_set_variable. reflexivity.
Qed.

Lemma handle_assignment_memory (M : libm) (var_name expression : string) (st : Calc) :
  memory (snd (handle_assignment M var_name expression st)) = memory st.
Proof.
  rewrite handle_assignment_stages. cbv zeta.
  set (r := stages M st (failed (MissingExpression var_name)) expression).
  destruct (isnan (ret r)); [reflexivity|].
  pose proof (memory_set_variable var_name (ret r) st) as H.
  destruct (set_variable var_name (ret r) st) as [[e|i] st1]; [reflexivity|].
  cbn [snd] in *. rewrite memory_set_variable. exact H.
Qed.

Lemma process_command_memory (input : string) (st : Calc) :
  trimmed_input input <> "m+" -> trimmed_input input <> "m-" ->
  trimmed_input input <> "mc" ->
  memory (snd (process_command input st)) = memory st
  /\ (fst (process_command input st) = 0 -> snd (process_command input st) = st).
Proof.
  intros Hadd Hsub Hclear. unfold process_command. cbv zeta.
  change (rtrim (strncpy (NMRI_MAX_INPUT - 1) (skip_spaces (cstr input))))
    with (trimmed_input input).
  destruct (String.eqb_spec (trimmed_input input) "m+"); [contradiction|].
  destruct (String.eqb_spec (trimmed_input input) "m-"); [contradiction|].
  destruct (String.eqb_spec (trimmed_input input) "mc"); [contradiction|].
  repeat match goal with
         | |- context [if ?b then _ else _] => destruct b
         end; cbn [fst snd];
    (split; [first [reflexivity
                   |rewrite memory_set_variable; reflexivity
                   |apply store_command_memory]
            |first [reflexivity|discriminate]]).
Qed.

(** X28.  The memory register.  The lines [m+], [m-] and [mc], with any
    white space around them, add the last result to the register, subtract
    it, and clear the register, and change nothing else; [mr] makes the
    register the last result and the value of [ans] and keeps the register;
    and no other line, command, expression or assignment, changes the
    register. *)
Theorem memory_register (M : libm) (st : Calc) (input : string) :
  (trimmed_input input = "m+" ->
   snd (interactive_step M input st)
   = with_memory st (add (memory st) (last_result st)))
  /\ (trimmed_input input = "m-" ->
      snd (interactive_step M input st)
      = with_memory st (sub (memory st) (last_result st)))
  /\ (trimmed_input input = "mc" ->
      snd (interactive_step M input st) = with_memory st Double.zero)
  /\ (trimmed_input input = "mr" -> find_variable "ans" st <> None ->
      last_result (snd (interactive_step M input st)) = memory st
      /\ lookup "ans" (snd (interactive_step M input st)) = Some (memory st)
      /\ memory (snd (interactive_step M input st)) = memory st)
  /\ (trimmed_input input <> "m+" -> trimmed_input input <> "m-" ->
      trimmed_input input <> "mc" ->
      memory (snd (interactive_step M input st)) = memory st).
Proof.
  assert (Hcmd : forall word st',
            trimmed_input input = word ->
            (let cmd s := String.eqb word s in
             if cmd "help" then (1, st)
             else if cmd "exit" || cmd "quit" then (-1, st)
             else if cmd "clear" || cmd "cls" then (1, st)
             else if cmd "history" then (1, st)
             else if cmd "variables" || cmd "vars" then (1, st)
             else if cmd "memory" || cmd "mem" then (1, st)
             else if cmd "m+" then (1, with_memory st (add (memory st) (last_result st)))
             else if cmd "m-" then (1, with_memory st (sub (memory st) (last_result st)))
             else if cmd "mr" then
               (1, snd (set_variable "ans" (memory st) (with_last_result st (memory st))))
             else if cmd "mc" then (1, with_memory st Double.zero)
             else (0, st)) = (1, st') ->
            snd (interactive_step M input st) = st').
  { intros word st' Hw Hrun. unfold interactive_step.
    destruct (skip_spaces (cstr input)) as [|c r] eqn:E.
    - unfold trimmed_input in Hw. rewrite E in Hw. subst word.
      cbv in Hrun. discriminate.
    - rewrite <- E, process_command_trimmed. unfold process_command. cbv zeta.
      change (rtrim (strncpy (NMRI_MAX_INPUT - 1) (skip_spaces (cstr input))))
        with (trimmed_input input). rewrite Hw. cbv zeta in Hrun.
      repeat match type of Hrun with
             | context [if ?b then _ else _] =>
                 let Eb := fresh "Eb" in destruct b eqn:Eb
             end; try discriminate; injection Hrun as <-; reflexivity. }
  refine (conj _ (conj _ (conj _ (conj _ _)))).
  - intros Hw. apply (Hcmd "m+"); [exact Hw|reflexivity].
  - intros Hw. apply (Hcmd "m-"); [exact Hw|reflexivity].
  - intros Hw. apply (Hcmd "mc"); [exact Hw|reflexivity].
  - intros Hw Hans.
    rewrite (Hcmd "mr" _ Hw eq_refl).
    destruct (commit_ans (memory st) st Hans) as [Hl Ha].
    refine (conj Hl (conj Ha _)). rewrite memory_set_variable. reflexivity.
  - intros Hadd Hsub Hclear. unfold interactive_step.
    destruct (skip_spaces (cstr input)) as [|c r] eqn:E; [reflexivity|].
    rewrite <- E, process_command_trimmed.
    destruct (process_command_memory input st Hadd Hsub Hclear) as [Hm Hz].
    destruct (process_command input st) as [code st'] eqn:Ep. cbn [fst snd] in *.
    destruct code as [|[p|p|]|[p|p|]]; try exact Hm;
      try (exfalso; clear - Ep; unfold process_command in Ep; cbv zeta in Ep;
           repeat match type of Ep with
                  | context [if ?b then _ else _] => destruct b
                  end; discriminate);
      (rewrite Hz by reflexivity);
      (destruct (first_index (is_char "=") _ 0) as [[|i]|];
       try apply evaluate_expression_memory;
       destruct (before_operators (S i) _); try apply evaluate_expression_memory;
       destruct (_ && _); try reflexivity;
       destruct (negb _); try reflexivity;
       destruct (reserved_name _); try reflexivity;
       apply handle_assignment_memory).
Qed.

Lemma memory_register_witness :
  snd (interactive_step ExactPoints.lib " m+ " startup)
  = with_memory startup (add (memory startup) (last_result startup))
  /\ memory (snd (interactive_step ExactPoints.lib "2 + 3" startup)) = memory startup.
Proof.
  destruct (memory_register ExactPoints.lib startup " m+ ") as [H _].
  destruct (memory_register ExactPoints.lib startup "2 + 3") as (_ & _ & _ & _ & H').
  split; [apply H; reflexivity|apply H'; vm_compute; discriminate].
Defined.
